(** * fiwGAN / ciwGAN training protocol: a shallow embedding

    The embedding follows [cinfowavegan.py] (the three networks) and
    [train_fiwgan.py] (loss selection, one training step, the training
    driver).  Tensors are nested lists of real numbers: float32 values are
    idealised as reals, so rounding is not part of the model, except where
    a statement is about exact values: there the arithmetic is IEEE 754
    binary32 ([float32] below) or carries its rounding explicitly.  Python
    exceptions are values of [exn]; stateful code (Keras variables, the
    random generator, the summary log) runs in a state-and-exception monad
    whose state survives a raised exception, as Python's heap does. *)

From Stdlib Require Import String Reals Lra Lia ZArith Bool Arith List.
From Stdlib Require Import DecimalString.
From Stdlib Require Floats.SpecFloat.
Import ListNotations.

Local Open Scope string_scope.
Local Open Scope Z_scope.
Local Open Scope R_scope.
Local Open Scope list_scope.

(** ** Tensors *)

Abbreviation T1 := (list R).
Abbreviation T2 := (list (list R)).
Abbreviation T3 := (list (list (list R))).
Abbreviation T4 := (list (list (list (list R)))).

(** A Keras variable holds a tensor of some rank. *)
Inductive weight :=
| W1 (v : T1)
| W2 (m : T2)
| W3 (t : T3)
| W4 (q : T4).

(** ** Python exceptions *)

Inductive exn :=
| NotImplementedError
| AssertionError
| NameError (name : string)
| UnboundLocalError (name : string)
| TypeError
| ValueError
| IndexError
| InvalidArgumentError.

(** [UnboundLocalError] is a subclass of [NameError]: both are failures of
    name resolution. *)
Definition is_name_error (e : exn) : bool :=
  match e with
  | NameError _ | UnboundLocalError _ => true
  | _ => false
  end.

Inductive result (A : Type) : Type :=
| Ok (a : A)
| Raise (e : exn).
Arguments Ok {A} a.
Arguments Raise {A} e.

Definition is_ok {A} (r : result A) : bool :=
  match r with Ok _ => true | Raise _ => false end.

(** ** State and exceptions *)

Definition M (S A : Type) : Type := S -> result A * S.

Definition ret {S A} (a : A) : M S A := fun s => (Ok a, s).

Definition raise {S A} (e : exn) : M S A := fun s => (Raise e, s).

Definition bind {S A B} (m : M S A) (k : A -> M S B) : M S B :=
  fun s =>
    match m s with
    | (Ok a, s') => k a s'
    | (Raise e, s') => (Raise e, s')
    end.

Definition lift {S A} (r : result A) : M S A := fun s => (r, s).

Definition get {S} : M S S := fun s => (Ok s, s).

Definition modify {S} (f : S -> S) : M S unit := fun s => (Ok tt, f s).

Declare Scope monad_scope.
Delimit Scope monad_scope with monad.
Notation "x <- m ;; k" := (bind m (fun x => k))
  (at level 61, m at next level, right associativity) : monad_scope.
Notation "' pat <- m ;; k" := (bind m (fun x => match x with pat => k end))
  (at level 61, pat pattern, m at next level, right associativity) : monad_scope.
Notation "m ;;; k" := (bind m (fun _ => k))
  (at level 61, right associativity) : monad_scope.
Local Open Scope monad_scope.

(** [assert cond] *)
Definition assert {S} (b : bool) : M S unit :=
  if b then ret tt else raise AssertionError.

(** ** Element-wise helpers on lists *)

Fixpoint zipWith {A B C} (f : A -> B -> C) (xs : list A) (ys : list B) : list C :=
  match xs, ys with
  | x :: xs', y :: ys' => f x y :: zipWith f xs' ys'
  | _, _ => []
  end.

Definition rsum (v : list R) : R := fold_right Rplus 0 v.

(** ** The TensorFlow operations the sources call *)

Module tf.

(** [tf.reduce_mean] over every element of a rank-1 tensor. *)
Definition reduce_mean (v : T1) : R := rsum v / INR (length v).

(** [tf.reduce_mean] over every element of a rank-2 tensor. *)
Definition reduce_mean2 (m : T2) : R := reduce_mean (concat m).

(** [tf.reduce_sum(t, axis=[1, 2])] on a rank-3 tensor. *)
Definition reduce_sum_12 (t : T3) : T1 := map (fun m => rsum (concat m)) t.

Definition square3 (t : T3) : T3 := map (map (map (fun x => x * x))) t.

Definition zeros (n : Z) : T1 := repeat 0 (Z.to_nat n).
Definition ones (n : Z) : T1 := repeat 1 (Z.to_nat n).

Definition sigmoid (x : R) : R := 1 / (1 + exp (- x)).

Definition relu (x : R) : R := Rmax x 0.

Definition maximum (x y : R) : R := Rmax x y.

Definition clip_by_value (x lo hi : R) : R := Rmax lo (Rmin x hi).

(** [tf.nn.sigmoid_cross_entropy_with_logits], element-wise, in the
    numerically stable form of its documentation:
    [max(x, 0) - x * z + log(1 + exp(-abs(x)))]. *)
Definition sigmoid_ce (z x : R) : R :=
  Rmax x 0 - x * z + ln (1 + exp (- Rabs x)).

(** The rank-1 call: labels and logits must have the same shape. *)
Definition sigmoid_cross_entropy_with_logits (labels logits : T1) : result T1 :=
  if Nat.eqb (length labels) (length logits)
  then Ok (zipWith sigmoid_ce labels logits)
  else Raise ValueError.

(** The rank-2 call. *)
Definition same_shape2 (a b : T2) : bool :=
  Nat.eqb (length a) (length b)
  && forallb (fun p => Nat.eqb (length (fst p)) (length (snd p))) (combine a b).

Definition sigmoid_cross_entropy_with_logits2 (labels logits : T2) : result T2 :=
  if same_shape2 labels logits
  then Ok (zipWith (zipWith sigmoid_ce) labels logits)
  else Raise ValueError.

(** [t[:, :n]]: a negative [n] counts from the end of the row. *)
Definition take_columns (n : Z) (t : T2) : T2 :=
  map (fun row =>
         if (n <? 0)%Z then firstn (length row - Z.to_nat (- n)) row
         else firstn (Z.to_nat n) row) t.

(** [tf.concat([a, b], 1)] on rank-2 tensors: the batch sizes must agree. *)
Definition concat1 (a b : T2) : result T2 :=
  if Nat.eqb (length a) (length b)
  then Ok (zipWith (@app R) a b)
  else Raise InvalidArgumentError.

End tf.

(** ** float32

    IEEE 754 binary32 as the standard library specifies it: 24 bits of
    precision, exponents below 128, rounding to nearest, ties to even.  A
    finite value is sign, mantissa m and exponent e, standing for
    m * 2^e. *)

Module float32.

Definition t : Type := SpecFloat.spec_float.

Definition prec : Z := 24.
Definition emax : Z := 128.

Definition add : t -> t -> t := SpecFloat.SFadd prec emax.
Definition sub : t -> t -> t := SpecFloat.SFsub prec emax.
Definition mul : t -> t -> t := SpecFloat.SFmul prec emax.

(** A float32 value: its mantissa has the canonical length for its exponent
    and the exponent is in range. *)
Definition valid (x : t) : bool := SpecFloat.valid_binary prec emax x.

(** Neither an infinity nor a NaN. *)
Definition is_finite (x : t) : bool :=
  match x with
  | SpecFloat.S754_zero _ | SpecFloat.S754_finite _ _ _ => true
  | _ => false
  end.

(** 0.0 and 1.0 *)
Definition zero : t := SpecFloat.S754_zero false.
Definition one : t := SpecFloat.S754_finite false 8388608 (-23).

End float32.

(** ** The random generator

    The generator is a stream of raw words with a cursor.  A float draw
    keeps 23 bits of a word, so it lies in [0, 1) whatever the stream is. *)

Record Rng := { raw : nat -> Z; cursor : nat }.

Definition next_raw : M Rng Z :=
  fun g => (Ok (raw g (cursor g)), {| raw := raw g; cursor := S (cursor g) |}).

Definition unit_float (w : Z) : R := IZR (w mod 2 ^ 23) / IZR (2 ^ 23).

Fixpoint replicateM {S A} (n : nat) (m : M S A) : M S (list A) :=
  match n with
  | O => ret []
  | Datatypes.S n' => x <- m ;; xs <- replicateM n' m ;; ret (x :: xs)
  end.

Definition valid_shape (dims : list Z) : bool := forallb (fun d => (0 <=? d)%Z) dims.

Module random.

(** [tf.random.uniform((rows, cols), minval, maxval)] *)
Definition uniform (rows cols : Z) (minval maxval : R) : M Rng T2 :=
  if valid_shape [rows; cols] then
    ws <- replicateM (Z.to_nat rows) (replicateM (Z.to_nat cols) next_raw) ;;
    ret (map (map (fun w => minval + unit_float w * (maxval - minval))) ws)
  else raise InvalidArgumentError.

(** [tf.random.uniform(shape=[n, 1, 1], minval, maxval)] *)
Definition uniform_n11 (n : Z) (minval maxval : R) : M Rng T3 :=
  if valid_shape [n] then
    ws <- replicateM (Z.to_nat n) next_raw ;;
    ret (map (fun w => [[minval + unit_float w * (maxval - minval)]]) ws)
  else raise InvalidArgumentError.

(** [tf.random.uniform([], minval, maxval, dtype=tf.int32)] *)
Definition uniform_int (minval maxval : Z) : M Rng Z :=
  if (minval <? maxval)%Z then
    w <- next_raw ;; ret (minval + w mod (maxval - minval))%Z
  else raise InvalidArgumentError.

(** [tf.keras.backend.random_bernoulli(shape, p)]:
    [where(random_uniform(shape) <= p, ones, zeros)]. *)
Definition bernoulli (rows cols : Z) (p : R) : M Rng T2 :=
  u <- uniform rows cols 0 1 ;;
  ret (map (map (fun x => if Rle_dec x p then 1 else 0)) u).

End random.

Class HasRng (S : Type) := { get_rng : S -> Rng; set_rng : Rng -> S -> S }.

Definition with_rng {S} `{HasRng S} {A} (m : M Rng A) : M S A :=
  fun s => let (r, g) := m (get_rng s) in (r, set_rng g s).

(** ** Keras layers

    A model is the list of the layers its construction created, in creation
    order; running the model consumes that list in the same order.  The
    layer semantics follow the Keras documentation.  Keras rejects a layer
    whose number of units, filters or kernel taps is not positive, and an
    input that does not fit the variables; these checks are not part of the
    model, which computes on whatever it is given: what it says about a
    network's return holds of the code for arguments the layers accept. *)

Inductive layer :=
| LDense (kernel : T2) (bias : T1)
| LConv1D (kernel : T3) (bias : option T1)
| LConv2DTranspose (kernel : T4) (bias : T1)
| LBatchNormalization (gamma beta moving_mean moving_variance : T1).

Definition layer_weights (l : layer) : list weight :=
  match l with
  | LDense k b => [W2 k; W1 b]
  | LConv1D k (Some b) => [W3 k; W1 b]
  | LConv1D k None => [W3 k]
  | LConv2DTranspose k b => [W4 k; W1 b]
  | LBatchNormalization g b m v => [W1 g; W1 b; W1 m; W1 v]
  end.

(** [model.variables] *)
Definition variables (m : list layer) : list weight := flat_map layer_weights m.

Record Net := { layers : list layer; net_rng : Rng }.

#[export] Instance Net_HasRng : HasRng Net :=
  {| get_rng := net_rng;
     set_rng g n := {| layers := layers n; net_rng := g |} |}.

(** The next layer of the model.  Keras builds every layer a model calls,
    so the list never runs out in a real run; if it does here, the layer
    has empty weights. *)
Definition next_layer : M Net layer :=
  fun n =>
    match layers n with
    | l :: rest => (Ok l, {| layers := rest; net_rng := net_rng n |})
    | [] => (Ok (LDense [] []), n)
    end.

Definition vadd (a b : T1) : T1 := zipWith Rplus a b.
Definition vscale (c : R) (v : T1) : T1 := map (Rmult c) v.
Definition dot (a b : T1) : R := rsum (zipWith Rmult a b).

(** Row vector times matrix: [x . K] for [K] of shape (len x, units). *)
Definition vecmat (units : nat) (x : T1) (K : T2) : T1 :=
  fold_right (fun p acc => vadd (vscale (fst p) (snd p)) acc)
             (repeat 0 units) (combine x K).

Definition add_bias (b : option T1) (v : T1) : T1 :=
  match b with Some b => vadd v b | None => v end.

Module keras.

(** [Dense(units)(x)] on a (batch, features) input. *)
Definition Dense (units : Z) (x : T2) : M Net T2 :=
  l <- next_layer ;;
  let '(kernel, bias) :=
    match l with LDense k b => (k, b) | _ => ([], []) end in
  ret (map (fun row => vadd (vecmat (Z.to_nat units) row kernel) bias) x).

(** One example of [Conv1D(filters, kernel_size, strides, padding='same')]:
    the output has ceil(len / strides) frames and the input is padded with
    zeros, the smaller half on the left. *)
Definition conv1d_example (filters kernel_size strides : nat)
           (kernel : T3) (bias : option T1) (x : T2) : T2 :=
  let len := length x in
  let out_len := ((len + strides - 1) / strides)%nat in
  let pad_total := ((out_len - 1) * strides + kernel_size - len)%nat in
  let pad_left := (pad_total / 2)%nat in
  map (fun t =>
         add_bias bias
           (fold_right
              (fun j acc =>
                 let i := (t * strides + j)%nat in
                 let frame := if (i <? pad_left)%nat then []
                              else nth (i - pad_left) x [] in
                 vadd (vecmat filters frame (nth j kernel [])) acc)
              (repeat 0 filters) (seq 0 kernel_size)))
      (seq 0 out_len).

Definition Conv1D (filters kernel_size strides : Z) (use_bias : bool)
           (x : T3) : M Net T3 :=
  l <- next_layer ;;
  let '(kernel, bias) :=
    match l with LConv1D k b => (k, b) | _ => ([], None) end in
  ret (map (conv1d_example (Z.to_nat filters) (Z.to_nat kernel_size)
                           (Z.to_nat strides) kernel
                           (if use_bias then bias else None)) x).

(** One example of
    [Conv2DTranspose(filters, (1, kernel_width), strides=(1, stride),
    padding='same')] on an input with a unit height axis: the output has
    len * stride frames; input frame i and kernel tap j contribute to
    output frame i * stride + j - pad_left. *)
Definition conv1d_transpose_example (filters kernel_width stride : nat)
           (kernel : T3) (bias : T1) (x : T2) : T2 :=
  let len := length x in
  let pad_left := ((kernel_width - stride) / 2)%nat in
  map (fun o =>
         vadd
           (fold_right
              (fun ij acc =>
                 let '(i, j) := ij in
                 if (i * stride + j =? o + pad_left)%nat
                 then vadd (map (dot (nth i x [])) (nth j kernel [])) acc
                 else acc)
              (repeat 0 filters)
              (list_prod (seq 0 len) (seq 0 kernel_width)))
           bias)
      (seq 0 (len * stride)).

Definition Conv2DTranspose (filters kernel_width stride : Z)
           (x : T3) : M Net T3 :=
  l <- next_layer ;;
  let '(kernel, bias) :=
    match l with LConv2DTranspose k b => (hd [] k, b) | _ => ([], []) end in
  ret (map (conv1d_transpose_example (Z.to_nat filters) (Z.to_nat kernel_width)
                                     (Z.to_nat stride) kernel bias) x).

(** [BatchNormalization()(x)] with the moving statistics, epsilon 1e-3. *)
Definition batchnorm_frame (g b m v : T1) (frame : T1) : T1 :=
  zipWith (fun x p =>
             let '(gi, (bi, (mi, vi))) := p in
             gi * (x - mi) / sqrt (vi + / 1000) + bi)
          frame (combine g (combine b (combine m v))).

Definition BatchNormalization (x : T3) : M Net T3 :=
  l <- next_layer ;;
  let '(g, b, m, v) :=
    match l with
    | LBatchNormalization g b m v => (g, b, m, v)
    | _ => ([], [], [], [])
    end in
  ret (map (map (batchnorm_frame g b m v)) x).

End keras.

(** ** Rank-3 element-wise helpers *)

Definition map3 (f : R -> R) (t : T3) : T3 := map (map (map f)) t.

Fixpoint sequence {A} (rs : list (result A)) : result (list A) :=
  match rs with
  | [] => Ok []
  | Ok a :: rest =>
      match sequence rest with
      | Ok l => Ok (a :: l)
      | Raise e => Raise e
      end
  | Raise e :: _ => Raise e
  end.

(** One axis of NumPy-style broadcasting: equal sizes pair up, a size-1
    axis is stretched, anything else is an error. *)
Definition broadcast {A B C} (f : A -> B -> result C)
           (a : list A) (b : list B) : result (list C) :=
  match a, b with
  | [a0], _ => sequence (map (f a0) b)
  | _, [b0] => sequence (map (fun x => f x b0) a)
  | _, _ =>
      if Nat.eqb (length a) (length b) then sequence (zipWith f a b)
      else Raise InvalidArgumentError
  end.

Definition broadcast3 {A} (op : A -> A -> A)
  : list (list (list A)) -> list (list (list A))
    -> result (list (list (list A))) :=
  broadcast (broadcast (broadcast (fun x y => Ok (op x y)))).

(** ** cinfowavegan.py *)

Module cinfowavegan.

(** [tf.image.resize(x, [1, w * stride], NEAREST_NEIGHBOR)] along time. *)
Definition resize_nearest (stride : Z) (x : T2) : T2 :=
  flat_map (fun frame => repeat frame (Z.to_nat stride)) x.

Definition conv1d_transpose (inputs : T3) (filters kernel_width stride : Z)
           (upsample : string) : M Net T3 :=
  if String.eqb upsample "zeros" then
    keras.Conv2DTranspose filters kernel_width stride inputs
  else if String.eqb upsample "nn" then
    let x := map (resize_nearest stride) inputs in
    keras.Conv1D filters kernel_width 1 true x
  else raise NotImplementedError.

(** [tf.reshape(output, [batch_size, n, c])] on a (batch, n * c) input. *)
Definition reshape_frames (n c : Z) (t : T2) : T3 :=
  map (fun row =>
         map (fun i => firstn (Z.to_nat c) (skipn (i * Z.to_nat c) row))
             (seq 0 (Z.to_nat n))) t.

(** [update_ops] is the number of operations
    [tf.compat.v1.get_collection(UPDATE_OPS, ...)] returns. *)
Definition WaveGANGenerator (update_ops : nat) (z : T2)
           (slice_len nch kernel_len dim : Z) (use_batchnorm : bool)
           (upsample : string) (train : bool) : M Net T3 :=
  assert (existsb (Z.eqb slice_len) [16384; 32768; 65536]%Z) ;;;
  let batchnorm := fun x : T3 =>
    if use_batchnorm then keras.BatchNormalization x else ret x in
  (* FC and reshape for convolution *)
  let dim_mul := (if slice_len =? 16384 then 16 else 32)%Z in
  let output := z in
  output <- keras.Dense (4 * 4 * dim * dim_mul) output ;;
  let output := reshape_frames 16 (dim * dim_mul) output in
  output <- batchnorm output ;;
  let output := map3 tf.relu output in
  let dim_mul := (dim_mul / 2)%Z in
  (* Layer 0 *)
  output <- conv1d_transpose output (dim * dim_mul) kernel_len 4 upsample ;;
  output <- batchnorm output ;;
  let output := map3 tf.relu output in
  let dim_mul := (dim_mul / 2)%Z in
  (* Layer 1 *)
  output <- conv1d_transpose output (dim * dim_mul) kernel_len 4 upsample ;;
  output <- batchnorm output ;;
  let output := map3 tf.relu output in
  let dim_mul := (dim_mul / 2)%Z in
  (* Layer 2 *)
  output <- conv1d_transpose output (dim * dim_mul) kernel_len 4 upsample ;;
  output <- batchnorm output ;;
  let output := map3 tf.relu output in
  let dim_mul := (dim_mul / 2)%Z in
  (* Layer 3 *)
  output <- conv1d_transpose output (dim * dim_mul) kernel_len 4 upsample ;;
  output <- batchnorm output ;;
  let output := map3 tf.relu output in
  output <-
    (if (slice_len =? 16384)%Z then
       (* Layer 4 *)
       output <- conv1d_transpose output nch kernel_len 4 upsample ;;
       ret (map3 tanh output)
     else if (slice_len =? 32768)%Z then
       (* Layer 4 *)
       output <- conv1d_transpose output dim kernel_len 4 upsample ;;
       output <- batchnorm output ;;
       let output := map3 tf.relu output in
       (* Layer 5 *)
       output <- conv1d_transpose output nch kernel_len 2 upsample ;;
       ret (map3 tanh output)
     else if (slice_len =? 65536)%Z then
       (* Layer 4 *)
       output <- conv1d_transpose output dim kernel_len 4 upsample ;;
       output <- batchnorm output ;;
       let output := map3 tf.relu output in
       (* Layer 5 *)
       output <- conv1d_transpose output nch kernel_len 4 upsample ;;
       ret (map3 tanh output)
     else ret output) ;;
  (* batchnorm moving-average update ops *)
  (if train && use_batchnorm then
     if (slice_len =? 16384)%Z then assert (Nat.eqb update_ops 10)
     else assert (Nat.eqb update_ops 12)
   else ret tt) ;;;
  ret output.

Definition lrelu (inputs : R) : R := tf.maximum (0.2 * inputs) inputs.

(** [tf.pad(x, [[0, 0], [pad_l, pad_r], [0, 0]], mode='reflect')] on one
    example.  [tf.pad] rejects a padding above length - 1; below that bound
    this is what it computes. *)
Definition reflect_pad (pad_l pad_r : nat) (x : T2) : T2 :=
  rev (firstn pad_l (skipn 1 x)) ++ x ++ firstn pad_r (skipn 1 (rev x)).

Definition apply_phaseshuffle (x : T3) (rad : Z) : M Net T3 :=
  phase <- with_rng (random.uniform_int (- rad) (rad + 1)) ;;
  let pad_l := Z.max phase 0 in
  let pad_r := Z.max (- phase) 0 in
  let phase_start := pad_r in
  ret (map (fun ex =>
              let x_len := length ex in
              let padded := reflect_pad (Z.to_nat pad_l) (Z.to_nat pad_r) ex in
              firstn x_len (skipn (Z.to_nat phase_start) padded)) x).

(** The convolutional trunk.  The source writes these lines out twice,
    once in [WaveGANDiscriminator] and once in [WaveGANQ].  [slice_len] is
    [int(x.get_shape()[1])], the number of frames of an example. *)
Definition conv_trunk (x : T3) (kernel_len dim : Z) (use_batchnorm : bool)
           (phaseshuffle_rad : Z) : M Net T2 :=
  let slice_len := Z.of_nat (length (hd [] x)) in
  let batchnorm := fun x : T3 =>
    if use_batchnorm then keras.BatchNormalization x else ret x in
  let phaseshuffle := fun x : T3 =>
    if (phaseshuffle_rad >? 0)%Z then apply_phaseshuffle x phaseshuffle_rad
    else ret x in
  (* Layer 0 *)
  let output := x in
  output <- keras.Conv1D dim kernel_len 4 true output ;;
  let output := map3 lrelu output in
  output <- phaseshuffle output ;;
  (* Layer 1 *)
  output <- keras.Conv1D (dim * 2) kernel_len 4 true output ;;
  output <- batchnorm output ;;
  let output := map3 lrelu output in
  output <- phaseshuffle output ;;
  (* Layer 2 *)
  output <- keras.Conv1D (dim * 4) kernel_len 4 true output ;;
  output <- batchnorm output ;;
  let output := map3 lrelu output in
  output <- phaseshuffle output ;;
  (* Layer 3 *)
  output <- keras.Conv1D (dim * 8) kernel_len 4 true output ;;
  output <- batchnorm output ;;
  let output := map3 lrelu output in
  output <- phaseshuffle output ;;
  (* Layer 4 *)
  output <- keras.Conv1D (dim * 16) kernel_len 4 true output ;;
  output <- batchnorm output ;;
  let output := map3 lrelu output in
  output <-
    (if (slice_len =? 32768)%Z then
       (* Layer 5 *)
       output <- keras.Conv1D (dim * 32) kernel_len 4 true output ;;
       output <- batchnorm output ;;
       ret (map3 lrelu output)
     else if (slice_len =? 65536)%Z then
       (* Layer 5 *)
       output <- keras.Conv1D (dim * 32) kernel_len 4 true output ;;
       output <- batchnorm output ;;
       ret (map3 lrelu output)
     else ret output) ;;
  (* Flatten *)
  ret (map (@concat R) output).

Definition WaveGANDiscriminator (x : T3) (kernel_len dim : Z)
           (use_batchnorm : bool) (phaseshuffle_rad : Z) : M Net T1 :=
  output <- conv_trunk x kernel_len dim use_batchnorm phaseshuffle_rad ;;
  (* Connect to single logit *)
  output <- keras.Dense 1 output ;;
  let output := map (fun row => nth 0 row 0) output in
  let output := map tf.sigmoid output in
  ret output.

Definition WaveGANQ (x : T3) (kernel_len dim : Z) (use_batchnorm : bool)
           (phaseshuffle_rad num_categ : Z) : M Net T2 :=
  output <- conv_trunk x kernel_len dim use_batchnorm phaseshuffle_rad ;;
  Qoutput <- keras.Dense num_categ output ;;
  let Qoutput := map (map tf.sigmoid) Qoutput in
  ret Qoutput.

End cinfowavegan.

(** ** train_fiwgan.py *)

Module train_fiwgan.
Import cinfowavegan.

(** The parsed command line ([args]). *)
Record Args := {
  data_slice_len : Z;
  data_num_channels : Z;
  data_sample_rate : Z;
  wavegan_latent_dim : Z;
  wavegan_kernel_len : Z;
  wavegan_dim : Z;
  num_categ : Z;
  wavegan_batchnorm : bool;
  wavegan_loss : string;
  wavegan_genr_upsample : string;
  wavegan_genr_pp : bool;
  wavegan_genr_pp_len : Z;
  wavegan_disc_phaseshuffle : Z;
  train_batch_size : Z;
  num_epoch : Z
}.

(** The four Keras models [train] constructs. *)
Inductive model_id :=
| G_z_generator
| D_x_discriminator
| waveganq
| inter_discriminator.

(** The mutable objects of a run: the random generator, the variables of
    each model, and what the run has written so far, each in writing order:
    the scalar summaries (name, value, step), the audio summaries (name,
    data, sample rate, step), and the model files saved under
    [args.train_dir] (file name, variables written; a later save of the same
    file replaces the earlier one). *)
Record World := {
  rng : Rng;
  G_layers : list layer;
  D_layers : list layer;
  Q_layers : list layer;
  inter_layers : list layer;
  summaries : list (string * R * Z);
  audio_summaries : list (string * T3 * Z * Z);
  saved : list (string * list layer)
}.

Definition model_layers (m : model_id) (w : World) : list layer :=
  match m with
  | G_z_generator => G_layers w
  | D_x_discriminator => D_layers w
  | waveganq => Q_layers w
  | inter_discriminator => inter_layers w
  end.

Definition set_model_layers (m : model_id) (ls : list layer) (w : World) : World :=
  match m with
  | G_z_generator =>
      {| rng := rng w; G_layers := ls; D_layers := D_layers w;
         Q_layers := Q_layers w; inter_layers := inter_layers w;
         summaries := summaries w;
         audio_summaries := audio_summaries w; saved := saved w |}
  | D_x_discriminator =>
      {| rng := rng w; G_layers := G_layers w; D_layers := ls;
         Q_layers := Q_layers w; inter_layers := inter_layers w;
         summaries := summaries w;
         audio_summaries := audio_summaries w; saved := saved w |}
  | waveganq =>
      {| rng := rng w; G_layers := G_layers w; D_layers := D_layers w;
         Q_layers := ls; inter_layers := inter_layers w;
         summaries := summaries w;
         audio_summaries := audio_summaries w; saved := saved w |}
  | inter_discriminator =>
      {| rng := rng w; G_layers := G_layers w; D_layers := D_layers w;
         Q_layers := Q_layers w; inter_layers := ls;
         summaries := summaries w;
         audio_summaries := audio_summaries w; saved := saved w |}
  end.

#[export] Instance World_HasRng : HasRng World :=
  {| get_rng := rng;
     set_rng g w :=
       {| rng := g; G_layers := G_layers w; D_layers := D_layers w;
          Q_layers := Q_layers w; inter_layers := inter_layers w;
          summaries := summaries w;
         audio_summaries := audio_summaries w; saved := saved w |} |}.

Definition add_summary (name : string) (value : R) (step : Z) : M World unit :=
  modify (fun w =>
    {| rng := rng w; G_layers := G_layers w; D_layers := D_layers w;
       Q_layers := Q_layers w; inter_layers := inter_layers w;
       summaries := summaries w ++ [(name, value, step)];
       audio_summaries := audio_summaries w; saved := saved w |}).

(** [tf.summary.audio(name, data, sample_rate, step=step)] *)
Definition add_audio_summary (name : string) (data : T3) (sample_rate step : Z)
  : M World unit :=
  modify (fun w =>
    {| rng := rng w; G_layers := G_layers w; D_layers := D_layers w;
       Q_layers := Q_layers w; inter_layers := inter_layers w;
       summaries := summaries w;
       audio_summaries := audio_summaries w ++ [(name, data, sample_rate, step)];
       saved := saved w |}).

(** [model.save(args.train_dir / file)] *)
Definition save_model (m : model_id) (file : string) : M World unit :=
  modify (fun w =>
    {| rng := rng w; G_layers := G_layers w; D_layers := D_layers w;
       Q_layers := Q_layers w; inter_layers := inter_layers w;
       summaries := summaries w;
       audio_summaries := audio_summaries w;
       saved := saved w ++ [(file, model_layers m w)] |}).

(** An integer as an f-string prints it. *)
Definition str (n : Z) : string := NilZero.string_of_int (Z.to_int n).

(** Calling a model runs its function over the model's own layers; the
    variables are read, not written.  (Keras also checks the input against
    the model's input shape; that check is left out.) *)
Definition call_model {A} (m : model_id) (f : M Net A) : M World A :=
  fun w =>
    let (r, n) := f {| layers := model_layers m w; net_rng := rng w |} in
    (r, set_rng (net_rng n) w).

(** *** Optimizers *)

Inductive opt_kind :=
| Adam (learning_rate beta_1 beta_2 : R)
| RMSprop (learning_rate : R).

Record optimizer := {
  kind : opt_kind;
  slots : list weight;
  iterations : Z
}.

Definition new_optimizer (k : opt_kind) : optimizer :=
  {| kind := k; slots := []; iterations := 0 |}.

(** The optimizer names bound in [train]; [Q_opt] is [None] while the
    local name is unbound. *)
Record Optimizers := {
  G_opt : optimizer;
  D_opt : optimizer;
  Q_opt : option optimizer
}.

(** What is differentiated, and with respect to what. *)
Inductive target := T_D_interp | T_D_G_z_loss | T_D_loss | T_Q_loss.

Inductive source :=
| Variables (ms : list model_id)
| Tensor (name : string).

Definition Tape := target -> source -> list weight.

(** The collaborators outside the two source files: TensorFlow's automatic
    differentiation and optimizer updates, the graph collection the
    generator inspects, and the [loader] module. *)
Class Backend := {
  update_ops : nat;
  GradientTape : World -> T2 -> T3 -> Tape;
  apply_gradients : optimizer -> list (weight * weight) -> optimizer * list weight;
  generate_file_name_batch : list string -> Z -> list (list string);
  decode_extract_and_batch : list string -> Args -> T3
}.

(** [var.assign(value)] for every variable of a model, in order. *)
Definition set_layer_weights (l : layer) (ws : list weight) : layer :=
  match l, ws with
  | LDense _ _, [W2 k; W1 b] => LDense k b
  | LConv1D _ (Some _), [W3 k; W1 b] => LConv1D k (Some b)
  | LConv1D _ None, [W3 k] => LConv1D k None
  | LConv2DTranspose _ _, [W4 k; W1 b] => LConv2DTranspose k b
  | LBatchNormalization _ _ _ _, [W1 g; W1 b; W1 m; W1 v] =>
      LBatchNormalization g b m v
  | _, _ => l
  end.

Fixpoint assign_variables (ls : list layer) (ws : list weight) : list layer :=
  match ls with
  | [] => []
  | l :: rest =>
      let n := length (layer_weights l) in
      set_layer_weights l (firstn n ws) :: assign_variables rest (skipn n ws)
  end.

(** *** Name resolution *)

Inductive pyvalue :=
| PyObject
| PyVariables (m : model_id).

(** The names bound at module level when the script runs: the imports,
    [cwd], the functions, and the names of the [__main__] block. *)
Definition module_globals : list (string * pyvalue) :=
  map (fun n => (n, PyObject))
      ["pickle"; "reduce"; "os"; "time"; "np"; "tf"; "loader";
       "WaveGANGenerator"; "WaveGANDiscriminator"; "WaveGANQ"; "trange";
       "Path"; "cwd"; "compute_loss"; "train"; "infer"; "preview"; "incept";
       "argparse"; "glob"; "sys"; "parser"; "data_args"; "wavegan_args";
       "train_args"; "preview_args"; "incept_args"; "args"; "f"; "fps"].

Definition load_global {S} (name : string) : M S pyvalue :=
  match find (fun p => String.eqb (fst p) name) module_globals with
  | Some p => ret (snd p)
  | None => raise (NameError name)
  end.

(** Reading a local name: [None] is an unbound slot. *)
Definition load_fast {S A} (name : string) (slot : option A) : M S A :=
  match slot with
  | Some v => ret v
  | None => raise (UnboundLocalError name)
  end.

(** *** compute_loss *)

(** The three local names [compute_loss] returns. *)
Record Locals := {
  D_G_z_loss : option R;
  D_loss : option R;
  Q_loss : option R
}.

Definition clip_weight (w : weight) : weight :=
  let clip := fun x => tf.clip_by_value x (- 0.01) 0.01 in
  match w with
  | W1 v => W1 (map clip v)
  | W2 m => W2 (map (map clip) m)
  | W3 t => W3 (map3 clip t)
  | W4 q => W4 (map (map3 clip) q)
  end.

(** [tf.sqrt(tf.reduce_sum(tf.square(gradients), axis=[1, 2]))], flattened;
    the reduction needs a tensor of rank 3 at least. *)
Definition slopes_of (gradients : weight) : result T1 :=
  match gradients with
  | W3 t => Ok (map sqrt (tf.reduce_sum_12 (tf.square3 t)))
  | W4 q =>
      Ok (flat_map
            (fun t : T3 =>
               match concat (tf.square3 t) with
               | [] => []
               | r :: rs => map sqrt (fold_left vadd rs r)
               end) q)
  | _ => Raise InvalidArgumentError
  end.

(** [differences = G_z - x; interpolates = x + (alpha * differences)], in
    the arithmetic [sub], [mul], [add]. *)
Definition interpolate_in {A} (sub mul add : A -> A -> A)
           (x G_z alpha : list (list (list A)))
  : result (list (list (list A))) :=
  match broadcast3 sub G_z x with
  | Ok differences =>
      match broadcast3 mul alpha differences with
      | Ok scaled => broadcast3 add x scaled
      | Raise e => Raise e
      end
  | Raise e => Raise e
  end.

(** The interpolation over the reals. *)
Definition interpolate (x G_z alpha : T3) : result T3 :=
  interpolate_in Rminus Rmult Rplus x G_z alpha.

(** The interpolation as the code computes it, the three tensors being
    float32: every operation rounds. *)
Definition interpolate_float32 (x G_z alpha : list (list (list float32.t)))
  : result (list (list (list float32.t))) :=
  interpolate_in float32.sub float32.mul float32.add x G_z alpha.

(** [WaveGANDiscriminator(x, **args.wavegan_d_kwargs)] *)
Definition discriminator_model (args : Args) (x : T3) : M Net T1 :=
  WaveGANDiscriminator x (wavegan_kernel_len args) (wavegan_dim args)
                       (wavegan_batchnorm args) (wavegan_disc_phaseshuffle args).

(** The body of [compute_loss] up to its [return]: the result is the state
    of the three returned local names. *)
Definition compute_loss_body (args : Args) (D_G_z D_x : T1) (x G_z : T3)
           (inter : model_id) (tape : Tape) (z Q_G_z : T2) : M World Locals :=
  if String.eqb (wavegan_loss args) "dcgan" then
    let fake := tf.zeros (train_batch_size args) in
    let real := tf.ones (train_batch_size args) in
    ce <- lift (tf.sigmoid_cross_entropy_with_logits real D_G_z) ;;
    let D_G_z_loss := tf.reduce_mean ce in
    ce <- lift (tf.sigmoid_cross_entropy_with_logits fake D_G_z) ;;
    let D_loss := tf.reduce_mean ce in
    ce <- lift (tf.sigmoid_cross_entropy_with_logits real D_x) ;;
    let D_loss := D_loss + tf.reduce_mean ce in
    let D_loss := D_loss / 2 in
    ret {| D_G_z_loss := Some D_G_z_loss; D_loss := Some D_loss; Q_loss := None |}
  else if String.eqb (wavegan_loss args) "lsgan" then
    let D_G_z_loss := tf.reduce_mean (map (fun d => (d - 1) ^ 2) D_G_z) in
    let D_loss := tf.reduce_mean (map (fun d => (d - 1) ^ 2) D_x) in
    let D_loss := D_loss + tf.reduce_mean (map (fun d => d ^ 2) D_G_z) in
    let D_loss := D_loss / 2 in
    ret {| D_G_z_loss := Some D_G_z_loss; D_loss := Some D_loss; Q_loss := None |}
  else if String.eqb (wavegan_loss args) "wgan" then
    let D_G_z_loss := - tf.reduce_mean D_G_z in
    let D_loss := tf.reduce_mean D_G_z - tf.reduce_mean D_x in
    D_vars <- load_global "D_vars" ;;
    match D_vars with
    | PyVariables m =>
        modify (fun w =>
          set_model_layers m
            (assign_variables (model_layers m w)
                              (map clip_weight (variables (model_layers m w)))) w)
    | PyObject => raise TypeError
    end ;;;
    ret {| D_G_z_loss := Some D_G_z_loss; D_loss := Some D_loss; Q_loss := None |}
  else if String.eqb (wavegan_loss args) "wgan-gp" then
    (* sub tensor as the label for the q *)
    let z_q_loss := tf.take_columns (num_categ args) z in
    let q_q_loss := tf.take_columns (num_categ args) Q_G_z in
    q_sigmoid <- lift (tf.sigmoid_cross_entropy_with_logits2 z_q_loss q_q_loss) ;;
    let Q_loss := tf.reduce_mean2 q_sigmoid in
    let D_G_z_loss := - tf.reduce_mean D_G_z in
    let D_loss := tf.reduce_mean D_G_z - tf.reduce_mean D_x in
    alpha <- with_rng (random.uniform_n11 (train_batch_size args) 0 1) ;;
    interpolates <- lift (interpolate x G_z alpha) ;;
    D_interp <- call_model inter (discriminator_model args interpolates) ;;
    let LAMBDA := 10 in
    let gradients := tape T_D_interp (Variables [inter]) in
    gradients <- (match gradients with
                  | g :: _ => ret g
                  | [] => raise IndexError
                  end) ;;
    slopes <- lift (slopes_of gradients) ;;
    let gradient_penalty := tf.reduce_mean (map (fun s => (s - 1) ^ 2) slopes) in
    let D_loss := D_loss + LAMBDA * gradient_penalty in
    ret {| D_G_z_loss := Some D_G_z_loss; D_loss := Some D_loss; Q_loss := Some Q_loss |}
  else raise NotImplementedError.

Definition compute_loss (args : Args) (D_G_z D_x : T1) (x G_z : T3)
           (inter : model_id) (tape : Tape) (z Q_G_z : T2) : M World (R * R * R) :=
  l <- compute_loss_body args D_G_z D_x x G_z inter tape z Q_G_z ;;
  a <- load_fast "D_G_z_loss" (D_G_z_loss l) ;;
  b <- load_fast "D_loss" (D_loss l) ;;
  c <- load_fast "Q_loss" (Q_loss l) ;;
  ret (a, b, c).

(** *** train *)

Fixpoint foldM {S A B} (f : A -> B -> M S A) (a : A) (l : list B) : M S A :=
  match l with
  | [] => ret a
  | b :: rest => a' <- f a b ;; foldM f a' rest
  end.

(** [G_z_generator]: the generator, followed by the post-processing
    filter when [args.wavegan_genr_pp] is set. *)
Definition generator_model `{Backend} (args : Args) (z_input : T2) : M Net T3 :=
  G_z_output <- WaveGANGenerator update_ops z_input
                  (data_slice_len args) (data_num_channels args)
                  (wavegan_kernel_len args) (wavegan_dim args)
                  (wavegan_batchnorm args) (wavegan_genr_upsample args) true ;;
  if wavegan_genr_pp args then
    keras.Conv1D 1 (wavegan_genr_pp_len args) 1 false G_z_output
  else ret G_z_output.

(** [WaveGANQ(G_z_input, **args.wavegan_q_kwargs)] *)
Definition q_model (args : Args) (G_z_input : T3) : M Net T2 :=
  WaveGANQ G_z_input (wavegan_kernel_len args) (wavegan_dim args)
           (wavegan_batchnorm args) (wavegan_disc_phaseshuffle args)
           (num_categ args).

(** Create (recommended) optimizer *)
Definition make_optimizers {S} (loss : string) : M S Optimizers :=
  if String.eqb loss "dcgan" then
    ret {| G_opt := new_optimizer (Adam 2e-4 0.5 0.999);
           D_opt := new_optimizer (Adam 2e-4 0.5 0.999);
           Q_opt := None |}
  else if String.eqb loss "lsgan" then
    ret {| G_opt := new_optimizer (RMSprop 1e-4);
           D_opt := new_optimizer (RMSprop 1e-4);
           Q_opt := None |}
  else if String.eqb loss "wgan" then
    ret {| G_opt := new_optimizer (RMSprop 5e-5);
           D_opt := new_optimizer (RMSprop 5e-5);
           Q_opt := None |}
  else if String.eqb loss "wgan-gp" then
    ret {| G_opt := new_optimizer (Adam 1e-4 0.5 0.9);
           D_opt := new_optimizer (Adam 1e-4 0.5 0.9);
           Q_opt := Some (new_optimizer (RMSprop 1e-4)) |}
  else raise NotImplementedError.

Definition has_shape (t : T3) (b l c : Z) : bool :=
  (Z.of_nat (length t) =? b)%Z
  && forallb (fun ex =>
                (Z.of_nat (length ex) =? l)%Z
                && forallb (fun fr => (Z.of_nat (length fr) =? c)%Z) ex) t.

(** The latent batch: a Bernoulli code part, then a uniform part. *)
Definition sample_latent (args : Args) : M World T2 :=
  categ <- with_rng (random.bernoulli (train_batch_size args) (num_categ args) 0.5) ;;
  uniform <- with_rng (random.uniform (train_batch_size args)
                         (wavegan_latent_dim args - num_categ args) (-1) 1) ;;
  lift (tf.concat1 categ uniform).

(** The forward calls made under the tape, before [compute_loss]. *)
Definition forward `{Backend} (args : Args) (z : T2) (dataset : T3)
  : M World (T3 * T1 * T1 * T2) :=
  G_z <- call_model G_z_generator (generator_model args z) ;;
  D_G_z <- call_model D_x_discriminator (discriminator_model args G_z) ;;
  D_x <- call_model D_x_discriminator (discriminator_model args dataset) ;;
  Q_G_z <- call_model waveganq (q_model args G_z) ;;
  ret (G_z, D_G_z, D_x, Q_G_z).

(** [opt.apply_gradients(zip(grads, model.variables))] *)
Definition apply_to_model `{Backend} (opt : optimizer) (grads : list weight)
           (m : model_id) : M World optimizer :=
  w <- get ;;
  let '(opt', values) :=
    apply_gradients opt (combine grads (variables (model_layers m w))) in
  modify (set_model_layers m (assign_variables (model_layers m w) values)) ;;;
  ret opt'.

(** The three optimizer applications that end a step. *)
Definition apply_updates `{Backend} (tape : Tape) (opts : Optimizers)
  : M World Optimizers :=
  let G_grads := tape T_D_G_z_loss (Variables [G_z_generator]) in
  G_opt' <- apply_to_model (G_opt opts) G_grads G_z_generator ;;
  let D_grads := tape T_D_loss (Variables [D_x_discriminator]) in
  D_opt' <- apply_to_model (D_opt opts) D_grads D_x_discriminator ;;
  let Q_grads := tape T_Q_loss (Variables [G_z_generator; waveganq]) in
  Q_opt_obj <- load_fast "Q_opt" (Q_opt opts) ;;
  w <- get ;;
  let G_vars := variables (G_layers w) in
  let Q_vars := variables (Q_layers w) in
  let '(Q_opt', values) :=
    apply_gradients Q_opt_obj (combine Q_grads (G_vars ++ Q_vars)) in
  modify (set_model_layers G_z_generator
            (assign_variables (G_layers w) (firstn (length G_vars) values))) ;;;
  modify (set_model_layers waveganq
            (assign_variables (Q_layers w) (skipn (length G_vars) values))) ;;;
  ret {| G_opt := G_opt'; D_opt := D_opt'; Q_opt := Some Q_opt' |}.

(** One iteration of the batch loop.  It returns the optimizers and [G_z],
    the local the code reads again when the epoch ends. *)
Definition train_step `{Backend} (args : Args) (opts : Optimizers)
           (names : list string) (steps : Z) : M World (Optimizers * T3) :=
  let dataset := decode_extract_and_batch names args in
  assert (has_shape dataset (train_batch_size args) (data_slice_len args)
                    (data_num_channels args)) ;;;
  z <- sample_latent args ;;
  w0 <- get ;;
  let tape := GradientTape w0 z dataset in
  '(G_z, D_G_z, D_x, Q_G_z) <- forward args z dataset ;;
  '(D_G_z_loss, D_loss, Q_loss) <-
    compute_loss args D_G_z D_x dataset G_z inter_discriminator tape z Q_G_z ;;
  opts' <- apply_updates tape opts ;;
  add_summary "Generator_loss" D_G_z_loss steps ;;;
  add_summary "Discriminator_loss" D_loss steps ;;;
  add_summary "Q_loss" D_loss steps ;;;
  ret (opts', G_z).

Definition placeholder2 (b n : Z) : T2 :=
  repeat (repeat 0 (Z.to_nat n)) (Z.to_nat b).

Definition placeholder3 (b l c : Z) : T3 :=
  repeat (repeat (repeat 0 (Z.to_nat c)) (Z.to_nat l)) (Z.to_nat b).

(** The models are constructed by running the network functions on
    symbolic inputs, which is where their assertions fire. *)
Definition build_models `{Backend} (args : Args) : M World unit :=
  let z_input :=
    placeholder2 (train_batch_size args) (wavegan_latent_dim args) in
  call_model G_z_generator (generator_model args z_input) ;;;
  let x_input :=
    placeholder3 (train_batch_size args) (data_slice_len args)
                 (data_num_channels args) in
  call_model D_x_discriminator (discriminator_model args x_input) ;;;
  let G_z_input := x_input in
  call_model waveganq (q_model args G_z_input) ;;;
  call_model inter_discriminator (discriminator_model args x_input) ;;;
  ret tt.

(** The locals [steps] and [G_z] of [train]: unbound until a step has
    completed, then those of the step that completed last. *)
Definition LoopLocals : Type := option (Z * T3).

(** The body of the loop over the batches, in epoch [epoch]. *)
Definition train_batch `{Backend} (args : Args) (batches : Z) (epoch : nat)
           (a : Optimizers * LoopLocals) (b : nat * list string)
  : M World (Optimizers * LoopLocals) :=
  let '(batch, names) := b in
  let steps := (batches * Z.of_nat epoch + Z.of_nat batch)%Z in
  '(opts', G_z) <- train_step args (fst a) names steps ;;
  ret (opts', Some (steps, G_z)).

(** What follows the loop over the batches in every epoch: the audio
    summary of the last generated batch, at the number of the last step,
    and the three model files. *)
Definition end_of_epoch (args : Args) (locals : LoopLocals) : M World unit :=
  steps <- load_fast "steps" (option_map fst locals) ;;
  G_z <- load_fast "G_z" (option_map snd locals) ;;
  add_audio_summary ("G_Audio_" ++ str steps) G_z (data_sample_rate args) steps ;;;
  save_model G_z_generator "G_z_generator.h5" ;;;
  save_model D_x_discriminator "D_x_discriminator.h5" ;;;
  save_model waveganq "waveganq.h5".

Definition train `{Backend} (fps : list string) (args : Args) : M World unit :=
  let name_batch_set := generate_file_name_batch fps (train_batch_size args) in
  (* print(f"loaded data {name_batch_set[0]}") *)
  match name_batch_set with
  | [] => raise IndexError
  | _ :: _ => ret tt
  end ;;;
  build_models args ;;;
  opts <- make_optimizers (wavegan_loss args) ;;
  let batches := Z.of_nat (length name_batch_set) in
  foldM (fun (a : Optimizers * LoopLocals) epoch =>
           a <- foldM (train_batch args batches epoch) a
                      (combine (seq 0 (length name_batch_set)) name_batch_set) ;;
           end_of_epoch args (snd a) ;;;
           ret a)
        (opts, None) (seq 0 (Z.to_nat (num_epoch args))) ;;;
  ret tt.

(** *** infer

    The tensors of the inference graph, as functions of what is fed to its
    placeholders. *)

(** [tf.cast(x, tf.int16)] for a value inside the int16 range: the
    fraction is dropped, toward zero. *)
Definition cast_int16 (x : R) : Z :=
  if Rle_dec 0 x then Int_part x else (- Int_part (- x))%Z.

(** Encode to int16.  [x * 32767.] is a float32 product, the exact product
    rounded to float32: [rnd] is that rounding (the identity gives the exact
    product).  Clipping and the cast round nothing. *)
Definition float_to_int16 (rnd : R -> R) (x : R) : Z :=
  let x_int16 := rnd (x * 32767) in
  let x_int16 := tf.clip_by_value x_int16 (- 32767) 32767 in
  cast_int16 x_int16.

(** Subgraph that generates latent vectors: [samp_z]. *)
Definition samp_z (args : Args) (samp_z_n : Z) : M Rng T2 :=
  random.uniform samp_z_n (wavegan_latent_dim args) (-1) 1.

(** Execute generator: [G_z], built with [train=False]. *)
Definition infer_G_z `{Backend} (args : Args) (z : T2) : M Net T3 :=
  G_z <- WaveGANGenerator update_ops z
           (data_slice_len args) (data_num_channels args)
           (wavegan_kernel_len args) (wavegan_dim args)
           (wavegan_batchnorm args) (wavegan_genr_upsample args) false ;;
  if wavegan_genr_pp args then
    keras.Conv1D 1 (wavegan_genr_pp_len args) 1 false G_z
  else ret G_z.

(** [nch = int(G_z.get_shape()[-1])]: the filters of the last
    convolution. *)
Definition infer_nch (args : Args) : nat :=
  Z.to_nat (if wavegan_genr_pp args then 1 else data_num_channels args).

(** [tf.pad(G_z, [[0, 0], [0, flat_pad], [0, 0]])] *)
Definition pad_frames (flat_pad : Z) (nch : nat) (G_z : T3) : result T3 :=
  if (flat_pad <? 0)%Z then Raise InvalidArgumentError
  else Ok (map (fun ex => ex ++ repeat (repeat 0 nch) (Z.to_nat flat_pad)) G_z).

(** The values of a tensor, in order, cut into rows of [nch]. *)
Fixpoint chunks (fuel nch : nat) (flat : list R) : T2 :=
  match fuel with
  | O => []
  | S fuel' =>
      match flat with
      | [] => []
      | _ :: _ => firstn nch flat :: chunks fuel' nch (skipn nch flat)
      end
  end.

(** [tf.reshape(t, [-1, nch])] *)
Definition reshape_rows (nch : nat) (t : T3) : result T2 :=
  let flat := concat (concat t) in
  if (nch =? 0)%nat then Raise InvalidArgumentError
  else if (length flat mod nch =? 0)%nat
       then Ok (chunks (length flat) nch flat)
       else Raise InvalidArgumentError.

(** Flatten batch: [G_z_flat]. *)
Definition G_z_flat (args : Args) (flat_pad : Z) (G_z : T3) : result T2 :=
  let nch := infer_nch args in
  match pad_frames flat_pad nch G_z with
  | Ok G_z_padded => reshape_rows nch G_z_padded
  | Raise e => Raise e
  end.

(** [G_z_flat_int16] *)
Definition G_z_flat_int16 (rnd : R -> R) (args : Args) (flat_pad : Z)
           (G_z : T3) : result (list (list Z)) :=
  match G_z_flat args flat_pad G_z with
  | Ok flat => Ok (map (map (float_to_int16 rnd)) flat)
  | Raise e => Raise e
  end.

(** *** incept

    The score computed for a checkpoint from the classifier's predictions,
    and the bookkeeping of the best score. *)

(** [l[a:b]], with Python's treatment of negative and oversized bounds. *)
Definition py_slice {A} (a b : Z) (l : list A) : list A :=
  let len := Z.of_nat (length l) in
  let norm := fun i : Z =>
    if (i <? 0)%Z then Z.max 0 (i + len) else Z.min i len in
  firstn (Z.to_nat (norm b - norm a)) (skipn (Z.to_nat (norm a)) l).

(** A NumPy float as far as the score needs it: a real number, or nan,
    which is [None].  (An infinity arises below only in a sum that also
    holds a nan, and the nan is what the sum becomes.) *)
Definition npfloat : Type := option R.

(** [np.log(x)]: nan below 0; at 0 it is -inf, which the score multiplies
    by 0 or subtracts from -inf, and in a column whose mean is 0 or less
    some prediction is 0 or less: nan in every case. *)
Definition np_log (x : R) : npfloat :=
  if Rlt_dec 0 x then Some (ln x) else None.

(** The numbers of a vector, unless one of its entries is nan. *)
Fixpoint numbers (v : list npfloat) : option (list R) :=
  match v with
  | [] => Some []
  | Some x :: rest =>
      match numbers rest with
      | Some l => Some (x :: l)
      | None => None
      end
  | None :: _ => None
  end.

(** [np.sum(v)] of a vector: nan when an entry is. *)
Definition np_sum (v : list npfloat) : npfloat := option_map rsum (numbers v).

(** [np.mean(v)] of a vector: nan when an entry is, and nan for the empty
    vector. *)
Definition np_mean (v : list npfloat) : npfloat :=
  match numbers v with
  | Some (x :: rest) => Some (rsum (x :: rest) / INR (length (x :: rest)))
  | _ => None
  end.

(** [np.mean(_split, 0)]: the mean of every column. *)
Definition column_means (_split : T2) : T1 :=
  map (fun s => s / INR (length _split))
      (fold_right vadd (repeat 0 (length (hd [] _split))) _split).

(** The body of the loop over the groups: the score of one group. *)
Definition split_score (_split : T2) : npfloat :=
  let marginal := column_means _split in
  let _kl :=
    map (fun row =>
           zipWith (fun p m =>
                      match np_log p, np_log m with
                      | Some log_p, Some log_m => Some (p * (log_p - log_m))
                      | _, _ => None
                      end) row marginal)
        _split in
  let _kl := np_mean (map np_sum _kl) in
  option_map exp _kl.

(** Split into k groups: [None] is the ZeroDivisionError of
    [incept_n // incept_k]. *)
Definition incept_scores (incept_n incept_k : Z) (_preds : T2)
  : option (list npfloat) :=
  if (incept_k =? 0)%Z then None
  else
    let split_size := (incept_n / incept_k)%Z in
    Some (map (fun i =>
                 split_score (py_slice (Z.of_nat i * split_size)
                                       ((Z.of_nat i + 1) * split_size)
                                       _preds))
              (seq 0 (Z.to_nat incept_k))).

(** What the loop carries from one poll to the next: the checkpoint seen
    last, the best mean score so far, and the mean scores saved by
    [score_saver]. *)
Record InceptState := {
  ckpt_fp : option string;
  _best_score : R;
  best_saved : list R
}.

Definition incept_start : InceptState :=
  {| ckpt_fp := None; _best_score := 0; best_saved := [] |}.

(** One pass of the loop body, given what [tf.train.latest_checkpoint]
    returns and the predictions computed for that checkpoint.  [None] is a
    pass that raises: the saver has no checkpoint to restore, or incept_k is
    0.  A mean score that is nan is not greater than the best score:
    nothing is saved. *)
Definition incept_poll (incept_n incept_k : Z) (latest_ckpt_fp : option string)
           (_preds : T2) (st : InceptState) : option InceptState :=
  if match latest_ckpt_fp, ckpt_fp st with
     | Some a, Some b => String.eqb a b
     | None, None => true
     | _, _ => false
     end
  then Some st
  else
    match latest_ckpt_fp with
    | None => None
    | Some _ =>
        match incept_scores incept_n incept_k _preds with
        | None => None
        | Some _incept_scores =>
            match np_mean _incept_scores with
            | Some _incept_mean =>
                if Rgt_dec _incept_mean (_best_score st)
                then Some {| ckpt_fp := latest_ckpt_fp;
                             _best_score := _incept_mean;
                             best_saved := best_saved st ++ [_incept_mean] |}
                else Some {| ckpt_fp := latest_ckpt_fp;
                             _best_score := _best_score st;
                             best_saved := best_saved st |}
            | None => Some {| ckpt_fp := latest_ckpt_fp;
                              _best_score := _best_score st;
                              best_saved := best_saved st |}
            end
        end
    end.

End train_fiwgan.

(** ** Concrete runs

    The configurations of the end-to-end scenarios: batch size 2, latent
    dimension 4, two code entries, slices of 16384 mono samples. *)

Module Examples.
Import train_fiwgan.

Definition scenario (loss : string) : Args :=
  {| data_slice_len := 16384;
     data_num_channels := 1;
     data_sample_rate := 16000;
     wavegan_latent_dim := 4;
     wavegan_kernel_len := 25;
     wavegan_dim := 64;
     num_categ := 2;
     wavegan_batchnorm := false;
     wavegan_loss := loss;
     wavegan_genr_upsample := "zeros";
     wavegan_genr_pp := false;
     wavegan_genr_pp_len := 512;
     wavegan_disc_phaseshuffle := 2;
     train_batch_size := 2;
     num_epoch := 1 |}.

(** A generator that counts up from its seed word. *)
Definition counter_rng (seed : Z) : Rng :=
  {| raw := fun n => (seed + Z.of_nat n)%Z; cursor := 0 |}.

Definition empty_world : World :=
  {| rng := counter_rng 0;
     G_layers := []; D_layers := []; Q_layers := []; inter_layers := [];
     summaries := []; audio_summaries := []; saved := [] |}.

(** A real batch, a fake batch and interpolation coefficients for two
    examples of two mono frames each. *)
Definition real_batch : T3 := [[[1]; [2]]; [[3]; [4]]].
Definition fake_batch : T3 := [[[5]; [6]]; [[7]; [8]]].
Definition alpha_01 : T3 := [[[0]]; [[1]]].

(** The float32 value nearest to 1e-8: 11258999 * 2^-50. *)
Definition f32_1e_8 : float32.t := SpecFloat.S754_finite false 11258999 (-50).

(** 0.5 and 0.25 in float32. *)
Definition f32_half : float32.t := SpecFloat.S754_finite false 8388608 (-24).
Definition f32_quarter : float32.t := SpecFloat.S754_finite false 8388608 (-25).

(** Two float32 examples of two mono frames each, real and generated, and
    the coefficients 0 and 1. *)
Definition real_f32 : list (list (list float32.t)) :=
  [[[float32.one]; [f32_half]]; [[f32_quarter]; [float32.zero]]].
Definition fake_f32 : list (list (list float32.t)) :=
  [[[f32_quarter]; [f32_1e_8]]; [[f32_half]; [float32.one]]].
Definition alpha_01_f32 : list (list (list float32.t)) :=
  [[[float32.zero]]; [[float32.one]]].

(** Stand-ins for the external collaborators: a tape whose gradient with
    respect to a model's variables has the variables' own values (and so
    their shapes), an optimizer that leaves the variables as they are, one
    batch of file names, and a real batch of zeros of the configured
    shape. *)
#[export] Instance backend : Backend :=
  {| update_ops := 0;
     GradientTape := fun w _ _ _ src =>
       match src with
       | Variables ms => flat_map (fun m => variables (model_layers m w)) ms
       | Tensor _ => []
       end;
     apply_gradients := fun opt gv => (opt, map snd gv);
     generate_file_name_batch := fun fps _ => [fps];
     decode_extract_and_batch := fun _ args =>
       placeholder3 (train_batch_size args) (data_slice_len args)
                    (data_num_channels args) |}.

(** A small generator: dimension multiplier 1, latent dimension 4, one
    example per batch; [pp] switches the post-processing filter, whose
    length is 1. *)
Definition small_args (loss : string) (pp : bool) : Args :=
  {| data_slice_len := 16384;
     data_num_channels := 1;
     data_sample_rate := 16000;
     wavegan_latent_dim := 4;
     wavegan_kernel_len := 25;
     wavegan_dim := 1;
     num_categ := 2;
     wavegan_batchnorm := false;
     wavegan_loss := loss;
     wavegan_genr_upsample := "zeros";
     wavegan_genr_pp := pp;
     wavegan_genr_pp_len := 1;
     wavegan_disc_phaseshuffle := 2;
     train_batch_size := 1;
     num_epoch := 1 |}.

Definition zeros2 (rows cols : nat) : T2 := repeat (repeat 0 cols) rows.
Definition zeros3 (a b c : nat) : T3 := repeat (zeros2 b c) a.

(** Its variables: every kernel is zero and the last transposed
    convolution has bias 1. *)
Definition small_generator_layers : list layer :=
  [ LDense (zeros2 4 256) (repeat 0 256%nat);
    LConv2DTranspose [zeros3 25 8 16] (repeat 0 8%nat);
    LConv2DTranspose [zeros3 25 4 8] (repeat 0 4%nat);
    LConv2DTranspose [zeros3 25 2 4] (repeat 0 2%nat);
    LConv2DTranspose [zeros3 25 1 2] (repeat 0 1%nat);
    LConv2DTranspose [zeros3 25 1 1] [1] ].

Definition small_net : Net :=
  {| layers := small_generator_layers; net_rng := counter_rng 0 |}.

(** With the filter, whose single tap is 2. *)
Definition pp_net : Net :=
  {| layers := small_generator_layers ++ [LConv1D [[[2]]] None];
     net_rng := counter_rng 0 |}.

(** A discriminator trunk for the small configuration with every kernel
    and bias zero, closed by a dense layer with the given bias. *)
Definition zero_conv (cin filters : nat) : layer :=
  LConv1D (zeros3 25 cin filters) (Some (repeat 0 filters)).

Definition small_trunk : list layer :=
  [zero_conv 1 1; zero_conv 1 2; zero_conv 2 4; zero_conv 4 8; zero_conv 8 16].

Definition small_discriminator_layers (bias : R) : list layer :=
  small_trunk ++ [LDense (zeros2 256 1) [bias]].

Definition small_q_layers : list layer :=
  small_trunk ++ [LDense (zeros2 256 2) [0; 0]].

(** A world for the small configuration: [D_x_discriminator] has dense
    bias 1/2 and [inter_discriminator] dense bias 1. *)
Definition small_world : World :=
  {| rng := counter_rng 0;
     G_layers := small_generator_layers;
     D_layers := small_discriminator_layers 0.5;
     Q_layers := small_q_layers;
     inter_layers := small_discriminator_layers 1;
     summaries := []; audio_summaries := []; saved := [] |}.

(** The optimizers [train] constructs for dcgan and for wgan. *)
Definition dcgan_optimizers : Optimizers :=
  {| G_opt := new_optimizer (Adam 2e-4 0.5 0.999);
     D_opt := new_optimizer (Adam 2e-4 0.5 0.999);
     Q_opt := None |}.

Definition wgan_optimizers : Optimizers :=
  {| G_opt := new_optimizer (RMSprop 5e-5);
     D_opt := new_optimizer (RMSprop 5e-5);
     Q_opt := None |}.

(** One real and one fake example of two mono frames, a latent row, the
    code predictor's output for it, and a tape that returns one gradient
    of rank 3 whatever it is asked. *)
Definition one_real : T3 := [[[1]; [2]]].
Definition one_fake : T3 := [[[5]; [6]]].
Definition one_latent : T2 := [[1; 0; 0.5; -0.5]].
Definition one_code : T2 := [[0.5; 0.5]].
Definition kernel_gradient_tape : Tape := fun _ _ => [W3 [[[3; 4]]]].

(** The latent input with every entry 0. *)
Definition zero_latent : T2 := [[0; 0; 0; 0]].

(** A loader that finds nothing to batch, and one whose batches are an
    example short of the configured batch size. *)
Definition no_batches : Backend :=
  {| update_ops := 0;
     GradientTape := @GradientTape backend;
     apply_gradients := @apply_gradients backend;
     generate_file_name_batch := fun _ _ => [];
     decode_extract_and_batch := @decode_extract_and_batch backend |}.

Definition short_batches : Backend :=
  {| update_ops := 0;
     GradientTape := @GradientTape backend;
     apply_gradients := @apply_gradients backend;
     generate_file_name_batch := @generate_file_name_batch backend;
     decode_extract_and_batch := fun _ args =>
       placeholder3 (train_batch_size args - 1) (data_slice_len args)
                    (data_num_channels args) |}.

(** The scenario configuration with its code longer than the latent
    vector, and the small configuration with no epoch to run. *)
Definition oversized_code : Args :=
  {| data_slice_len := 16384;
     data_num_channels := 1;
     data_sample_rate := 16000;
     wavegan_latent_dim := 4;
     wavegan_kernel_len := 25;
     wavegan_dim := 64;
     num_categ := 5;
     wavegan_batchnorm := false;
     wavegan_loss := "wgan-gp";
     wavegan_genr_upsample := "zeros";
     wavegan_genr_pp := false;
     wavegan_genr_pp_len := 512;
     wavegan_disc_phaseshuffle := 2;
     train_batch_size := 2;
     num_epoch := 1 |}.

Definition no_epochs (loss : string) : Args :=
  {| data_slice_len := 16384;
     data_num_channels := 1;
     data_sample_rate := 16000;
     wavegan_latent_dim := 4;
     wavegan_kernel_len := 25;
     wavegan_dim := 1;
     num_categ := 2;
     wavegan_batchnorm := false;
     wavegan_loss := loss;
     wavegan_genr_upsample := "zeros";
     wavegan_genr_pp := false;
     wavegan_genr_pp_len := 1;
     wavegan_disc_phaseshuffle := 2;
     train_batch_size := 1;
     num_epoch := 0 |}.

(** A loader that yields the files as two batches. *)
Definition two_batches : Backend :=
  {| update_ops := 0;
     GradientTape := @GradientTape backend;
     apply_gradients := @apply_gradients backend;
     generate_file_name_batch := fun fps _ => [fps; fps];
     decode_extract_and_batch := @decode_extract_and_batch backend |}.

(** The optimizers [train] constructs for wgan-gp. *)
Definition wgan_gp_optimizers : Optimizers :=
  {| G_opt := new_optimizer (Adam 1e-4 0.5 0.9);
     D_opt := new_optimizer (Adam 1e-4 0.5 0.9);
     Q_opt := Some (new_optimizer (RMSprop 1e-4)) |}.

(** A coarse rounding: to a multiple of 1/2, toward zero. *)
Definition round_to_halves (p : R) : R := IZR (cast_int16 (2 * p)) / 2.

(** The small configuration with batch normalisation switched on. *)
Definition batchnorm_args : Args :=
  {| data_slice_len := 16384;
     data_num_channels := 1;
     data_sample_rate := 16000;
     wavegan_latent_dim := 4;
     wavegan_kernel_len := 25;
     wavegan_dim := 1;
     num_categ := 2;
     wavegan_batchnorm := true;
     wavegan_loss := "wgan-gp";
     wavegan_genr_upsample := "zeros";
     wavegan_genr_pp := false;
     wavegan_genr_pp_len := 1;
     wavegan_disc_phaseshuffle := 2;
     train_batch_size := 1;
     num_epoch := 1 |}.

End Examples.

(** * Vocabulary of the statements *)

Import cinfowavegan train_fiwgan.

(** Two rank-3 tensors of the same shape. *)
Definition same_shape3 {A} (a b : list (list (list A))) : Prop :=
  Forall2 (Forall2 (fun u v : list A => length u = length v)) a b.

(** A tensor of shape (n, 1, 1). *)
Definition shape_n11 {A} (a : list (list (list A))) : Prop :=
  Forall (fun e => exists s, e = [[s]]) a.

(** The value of a (1, 1) tensor; [d] for any other. *)
Definition scalar_in {A} (d : A) (e : list (list A)) : A := nth 0 (nth 0 e []) d.

Definition scalar_of (e : list (list R)) : R := scalar_in 0 e.

(** Two float32 values that are equal as numbers: the same value, or two
    zeros, whose signs IEEE 754 does not tell apart in a comparison. *)
Definition float32_eq (a b : float32.t) : Prop :=
  a = b
  \/ (exists s s', a = SpecFloat.S754_zero s /\ b = SpecFloat.S754_zero s').

(** An element-wise relation between two examples. *)
Definition example_rel {A} (P : A -> A -> Prop) (a b : list (list A)) : Prop :=
  Forall2 (Forall2 P) a b.

(** The sigmoid cross-entropy of a logit against a label, as the textbook
    writes it: -z * ln(sigmoid x) - (1 - z) * ln(1 - sigmoid x). *)
Definition cross_entropy (logit label : R) : R :=
  - label * ln (tf.sigmoid logit) - (1 - label) * ln (1 - tf.sigmoid logit).

Definition all_values (P : R -> Prop) (t : T3) : Prop :=
  Forall (Forall (Forall P)) t.

(** A computation that returns on every state. *)
Definition total {S A} (m : M S A) : Prop :=
  forall s, exists a s', m s = (Ok a, s').

Definition valid_slice_len (slice_len : Z) : Prop :=
  slice_len = 16384%Z \/ slice_len = 32768%Z \/ slice_len = 65536%Z.

(** The number of update operations the generator's assertion expects. *)
Definition expected_update_ops (slice_len : Z) : nat :=
  if (slice_len =? 16384)%Z then 10%nat else 12%nat.

(** A batch with at least one example, every example with at least one
    frame. *)
Definition populated (t : T3) : Prop := t <> [] /\ Forall (fun e => e <> []) t.

(** Two worlds with the same variables in every model, the same summaries
    and the same saved files: they differ at most in the random
    generator. *)
Definition same_models (w w' : World) : Prop :=
  G_layers w' = G_layers w /\ D_layers w' = D_layers w
  /\ Q_layers w' = Q_layers w /\ inter_layers w' = inter_layers w
  /\ summaries w' = summaries w
  /\ audio_summaries w' = audio_summaries w /\ saved w' = saved w.

Definition preserves_models {A} (m : M World A) : Prop :=
  forall w r w', m w = (r, w') -> same_models w w'.

(** A postcondition on the value a computation returns. *)
Definition post {S A} (m : M S A) (Q : A -> Prop) : Prop :=
  forall s a s', m s = (Ok a, s') -> Q a.

(** The step up to the call of [compute_loss]: the shape assertion, the
    latent sample, the tape and the forward calls. *)
Definition before_loss `{Backend} (args : Args) (names : list string)
  : M World (T3 * T2 * Tape * (T3 * T1 * T1 * T2)) :=
  let dataset := decode_extract_and_batch names args in
  assert (has_shape dataset (train_batch_size args) (data_slice_len args)
                    (data_num_channels args)) ;;;
  z <- sample_latent args ;;
  w0 <- get ;;
  let tape := GradientTape w0 z dataset in
  r <- forward args z dataset ;;
  ret (dataset, z, tape, r).

(** The rest of the step. *)
Definition from_loss `{Backend} (args : Args) (opts : Optimizers) (steps : Z)
           (s : T3 * T2 * Tape * (T3 * T1 * T1 * T2))
  : M World (Optimizers * T3) :=
  let '(dataset, z, tape, (G_z, D_G_z, D_x, Q_G_z)) := s in
  '(D_G_z_loss, D_loss, Q_loss) <-
    compute_loss args D_G_z D_x dataset G_z inter_discriminator tape z Q_G_z ;;
  opts' <- apply_updates tape opts ;;
  add_summary "Generator_loss" D_G_z_loss steps ;;;
  add_summary "Discriminator_loss" D_loss steps ;;;
  add_summary "Q_loss" D_loss steps ;;;
  ret (opts', G_z).

(** The exception a step ends in once it reaches the end of
    [compute_loss]. *)
Definition name_resolution_failure (loss : string) : exn :=
  if String.eqb loss "wgan" then NameError "D_vars"
  else UnboundLocalError "Q_loss".

(** The configurations the model construction accepts. *)
Definition valid_config `{Backend} (args : Args) : Prop :=
  valid_slice_len (data_slice_len args)
  /\ (wavegan_genr_upsample args = "zeros" \/ wavegan_genr_upsample args = "nn")
  /\ (wavegan_batchnorm args = true ->
      update_ops = expected_update_ops (data_slice_len args))
  /\ (0 <= train_batch_size args)%Z
  /\ (0 <= num_categ args < wavegan_latent_dim args)%Z.

(** ** Vocabulary of the further properties *)

(** Every example of the batch has [n] frames. *)
Definition frames (n : Z) (t : T3) : Prop :=
  Forall (fun ex => Z.of_nat (length ex) = n) t.

(** A computation that raises [e] on every state. *)
Definition raises {S A} (m : M S A) (e : exn) : Prop :=
  forall s, exists s', m s = (Raise e, s').

(** Where frame [i] of a reflect-padded signal of [len] frames comes from:
    indices below 0 and above len - 1 are mirrored at the two ends, the end
    frames themselves not repeated. *)
Definition reflect_index (len : nat) (i : Z) : nat :=
  if (i <? 0)%Z then Z.to_nat (- i)
  else if (i <? Z.of_nat len)%Z then Z.to_nat i
  else (2 * (len - 1) - Z.to_nat i)%nat.

(** A computation that never writes the variables of
    [inter_discriminator]. *)
Definition keeps_inter {A} (m : M World A) : Prop :=
  forall w r w', m w = (r, w') -> inter_layers w' = inter_layers w.

(** A world whose four models carry the small variables. *)
Definition small_models (bD bI : R) (w : World) : Prop :=
  G_layers w = Examples.small_generator_layers
  /\ D_layers w = Examples.small_discriminator_layers bD
  /\ Q_layers w = Examples.small_q_layers
  /\ inter_layers w = Examples.small_discriminator_layers bI.

(** The three summaries of step [steps]. *)
Definition step_summaries (steps : Z) (g d : R) : list (string * R * Z) :=
  [("Generator_loss", g, steps); ("Discriminator_loss", d, steps);
   ("Q_loss", d, steps)].

(** The summaries of the steps [steps], given the two losses each logs. *)
Definition logged (steps : list Z) (losses : list (R * R))
  : list (string * R * Z) :=
  flat_map (fun p => step_summaries (fst p) (fst (snd p)) (snd (snd p)))
           (combine steps losses).

(** Two worlds with the same variables in every model. *)
Definition same_variables (w w' : World) : Prop :=
  G_layers w' = G_layers w /\ D_layers w' = D_layers w
  /\ Q_layers w' = Q_layers w /\ inter_layers w' = inter_layers w.

(** The three files an epoch ends with, holding the variables of [w]. *)
Definition model_files (w : World) : list (string * list layer) :=
  [("G_z_generator.h5", G_layers w); ("D_x_discriminator.h5", D_layers w);
   ("waveganq.h5", Q_layers w)].

(** The audio summary written at the end of an epoch whose last step has
    the number [steps]. *)
Definition audio_entry (args : Args) (steps : Z) (G_z : T3)
  : string * T3 * Z * Z :=
  (("G_Audio_" ++ str steps)%string, G_z, data_sample_rate args, steps).

(** The audio summaries of the epochs [epochs] of a run with [N] batches,
    given the batch each epoch generated last: the last step of epoch e has
    the number N * (e + 1) - 1. *)
Definition epoch_audio (args : Args) (N : nat) (epochs : list nat)
           (audio : list T3) : list (string * T3 * Z * Z) :=
  map (fun p => audio_entry args (Z.of_nat (N * (fst p + 1)) - 1) (snd p))
      (combine epochs audio).

(** What the statements use of the rounding of a float32 product: it is
    monotone, it leaves the integers of the int16 range, which are float32
    values, as they are, and it commutes with the change of sign.  Rounding
    to nearest is such a function, and so is the identity, the rounding of
    the exact product.  (Where a float32 product overflows to an infinity,
    any value beyond the int16 range stands for it: the clipping that
    follows makes no difference between them.) *)
Definition rounds_like_float32 (rnd : R -> R) : Prop :=
  (forall p q, p <= q -> rnd p <= rnd q)
  /\ (forall n : Z, (- 32767 <= n <= 32767)%Z -> rnd (IZR n) = IZR n)
  /\ (forall p, rnd (- p) = - rnd p).

(** Arguments the layers of the generator accept: a positive number of
    channels, of kernel taps and of filters, and a latent batch of at least
    one row, every row with at least one entry. *)
Definition generator_arguments_ok (z : T2) (nch kernel_len dim : Z) : Prop :=
  (0 < nch)%Z /\ (0 < kernel_len)%Z /\ (0 < dim)%Z
  /\ z <> [] /\ Forall (fun row => row <> []) z.

(** A configuration and a batch the layers of the convolutional trunk
    accept: a supported slice length, a batch of the configured shape with
    at least one example and one channel, a positive number of kernel taps
    and of filters, and a phase shuffle radius below 64, the number of
    frames of the shortest layer that is shuffled ([tf.pad] mirrors at most
    length - 1 frames). *)
Definition trunk_arguments_ok (args : Args) (x : T3) : Prop :=
  valid_slice_len (data_slice_len args)
  /\ (0 < train_batch_size args)%Z
  /\ (0 < data_num_channels args)%Z
  /\ has_shape x (train_batch_size args) (data_slice_len args)
               (data_num_channels args) = true
  /\ (0 < wavegan_kernel_len args)%Z
  /\ (0 < wavegan_dim args)%Z
  /\ (wavegan_disc_phaseshuffle args < 64)%Z.

(** The entry of a rank-3 tensor at batch index [i], frame [j], channel
    [k]. *)
Definition value_at (t : T3) (i j k : nat) : option R :=
  match nth_error t i with
  | Some e => match nth_error e j with
              | Some f => nth_error f k
              | None => None
              end
  | None => None
  end.

(** The mean over the rows of a group of the divergence of the row from
    the group's marginal, for positive predictions. *)
Definition mean_divergence (_split : T2) : R :=
  rsum (map rsum
            (map (fun row =>
                    zipWith (fun p m => p * (ln p - ln m)) row
                            (column_means _split)) _split))
  / INR (length _split).

(** A group of predictions: at least one row, every row with [c] strictly
    positive entries. *)
Definition positive_rows (c : nat) (rows : T2) : Prop :=
  rows <> []
  /\ Forall (fun row => length row = c /\ Forall (fun p => 0 < p) row) rows.

(** * Properties *)

(** The layers are reasoned about through their lemmas, not by unfolding. *)
Arguments keras.Dense : simpl never.
Arguments keras.Conv1D : simpl never.
Arguments keras.Conv2DTranspose : simpl never.
Arguments keras.BatchNormalization : simpl never.
Arguments conv1d_transpose : simpl never.
Arguments apply_phaseshuffle : simpl never.
Arguments reshape_frames : simpl never.
Arguments map3 : simpl never.
Arguments Z.mul : simpl never.
Arguments Z.div : simpl never.

(** ** The monad *)

Lemma bind_ok_inv {S A B} {m : M S A} {k : A -> M S B} {s b s''} :
  bind m k s = (Ok b, s'') ->
  exists a s', m s = (Ok a, s') /\ k a s' = (Ok b, s'').
Proof.
  unfold bind. destruct (m s) as [[a | e] s'] eqn:Hm; intros Hk.
  - exists a, s'. split; [reflexivity | exact Hk].
  - discriminate Hk.
Qed.

Lemma bind_ok {S A B} {m : M S A} (k : A -> M S B) {s a s'} :
  m s = (Ok a, s') -> bind m k s = k a s'.
Proof. intros Hm. unfold bind. rewrite Hm. reflexivity. Qed.

Lemma bind_raise {S A B} {m : M S A} (k : A -> M S B) {s e s'} :
  m s = (Raise e, s') -> bind m k s = (Raise e, s').
Proof. intros Hm. unfold bind. rewrite Hm. reflexivity. Qed.

(** ** Random draws *)

Lemma unit_float_range w : 0 <= unit_float w < 1.
Proof.
  unfold unit_float.
  assert (Hpos : (0 < 2 ^ 23)%Z) by reflexivity.
  destruct (Z.mod_pos_bound w (2 ^ 23) Hpos) as [Hlo Hhi].
  assert (HR : 0 < IZR (2 ^ 23)) by (apply IZR_lt; exact Hpos).
  split.
  - apply Rmult_le_pos.
    + apply IZR_le. exact Hlo.
    + left. apply Rinv_0_lt_compat. exact HR.
  - apply (Rmult_lt_reg_r (IZR (2 ^ 23))); [exact HR|].
    unfold Rdiv. rewrite Rmult_assoc, Rinv_l, Rmult_1_r, Rmult_1_l.
    + apply IZR_lt. exact Hhi.
    + apply Rgt_not_eq. exact HR.
Qed.

Lemma replicateM_total {S A} (P : A -> Prop) (m : M S A) :
  (forall s, exists a s', m s = (Ok a, s') /\ P a) ->
  forall n s, exists l s',
      replicateM n m s = (Ok l, s') /\ length l = n /\ Forall P l.
Proof.
  intros Hm n. induction n as [|n IH]; intros s; simpl.
  - exists [], s. repeat split. constructor.
  - destruct (Hm s) as (a & s1 & Ha & HP).
    destruct (IH s1) as (l & s2 & Hl & Hlen & Hall).
    exists (a :: l), s2.
    rewrite (bind_ok _ Ha), (bind_ok _ Hl).
    repeat split; simpl; [congruence | constructor; assumption].
Qed.

Lemma next_raw_total g : exists a g', next_raw g = (Ok a, g') /\ True.
Proof. eexists _, _. split; [reflexivity | exact I]. Qed.

Lemma valid_shape_pair {a b} :
  (0 <= a)%Z -> (0 <= b)%Z -> valid_shape [a; b] = true.
Proof.
  intros Ha Hb. unfold valid_shape. simpl.
  rewrite (proj2 (Z.leb_le 0 a) Ha), (proj2 (Z.leb_le 0 b) Hb). reflexivity.
Qed.

(** A uniform matrix has the requested shape and entries in
    [minval, maxval]. *)
Lemma uniform_total rows cols minval maxval g :
  (0 <= rows)%Z -> (0 <= cols)%Z -> minval <= maxval ->
  exists t g',
    random.uniform rows cols minval maxval g = (Ok t, g')
    /\ length t = Z.to_nat rows
    /\ Forall (fun row => length row = Z.to_nat cols
                          /\ Forall (fun v => minval <= v <= maxval) row) t.
Proof.
  intros Hr Hc Hmm. unfold random.uniform.
  rewrite (valid_shape_pair Hr Hc).
  destruct (replicateM_total
              (fun row : list Z => length row = Z.to_nat cols)
              (replicateM (Z.to_nat cols) next_raw)) with
      (n := Z.to_nat rows) (s := g) as (ws & g' & Hws & Hlen & Hall).
  { intros s.
    destruct (replicateM_total (fun _ => True) next_raw next_raw_total
                               (Z.to_nat cols) s) as (l & s' & Hl & Hlen & _).
    exists l, s'. split; assumption. }
  eexists _, g'. rewrite (bind_ok _ Hws). split; [reflexivity|].
  split; [rewrite length_map; exact Hlen|].
  apply Forall_map. eapply Forall_impl; [|exact Hall].
  intros row Hrow. simpl. split; [rewrite length_map; exact Hrow|].
  apply Forall_map. apply Forall_forall. intros w _.
  pose proof (unit_float_range w) as [Hlo Hhi].
  split; nra.
Qed.

Lemma bernoulli_total rows cols p g :
  (0 <= rows)%Z -> (0 <= cols)%Z ->
  exists t g',
    random.bernoulli rows cols p g = (Ok t, g')
    /\ length t = Z.to_nat rows
    /\ Forall (fun row => length row = Z.to_nat cols
                          /\ Forall (fun v => v = 0 \/ v = 1) row) t.
Proof.
  intros Hr Hc. unfold random.bernoulli.
  destruct (@uniform_total rows cols 0 1 g Hr Hc) as (u & g' & Hu & Hlen & Hall);
    [lra|].
  eexists _, g'. rewrite (bind_ok _ Hu). split; [reflexivity|].
  split; [rewrite length_map; exact Hlen|].
  apply Forall_map. eapply Forall_impl; [|exact Hall].
  intros row [Hrow _]. simpl. split; [rewrite length_map; exact Hrow|].
  apply Forall_map. apply Forall_forall. intros x _.
  destruct (Rle_dec x p); [right | left]; reflexivity.
Qed.

(** ** The latent sampler *)

Lemma with_rng_ok {A} {m : M Rng A} (w : World) {a g'} :
  m (rng w) = (Ok a, g') -> with_rng m w = (Ok a, set_rng g' w).
Proof. intros Hm. unfold with_rng. simpl. rewrite Hm. reflexivity. Qed.

Lemma zipWith_length {A B C} (f : A -> B -> C) xs ys :
  length xs = length ys -> length (zipWith f xs ys) = length xs.
Proof.
  revert ys. induction xs as [|x xs IH]; intros [|y ys] Hlen; simpl in *;
    try discriminate; [reflexivity|].
  f_equal. apply IH. congruence.
Qed.

Lemma Forall_zipWith {A B C} (P : A -> Prop) (Q : B -> Prop) (T : C -> Prop)
      (f : A -> B -> C) xs ys :
  (forall x y, P x -> Q y -> T (f x y)) ->
  Forall P xs -> Forall Q ys -> Forall T (zipWith f xs ys).
Proof.
  intros Hf Hxs. revert ys. induction Hxs as [|x xs Hx _ IH]; intros ys Hys.
  - constructor.
  - destruct Hys as [|y ys Hy Hys]; simpl; constructor; auto.
Qed.

Lemma sample_latent_total (args : Args) (w : World) :
  (0 <= train_batch_size args)%Z ->
  (0 <= num_categ args < wavegan_latent_dim args)%Z ->
  exists z w', sample_latent args w = (Ok z, w').
Proof.
  intros HB [HC HCD]. unfold sample_latent.
  destruct (@bernoulli_total (train_batch_size args) (num_categ args) 0.5 (rng w))
    as (categ & g1 & Hcateg & Hlc & _); [lia | lia |].
  rewrite (bind_ok _ (with_rng_ok w Hcateg)).
  destruct (@uniform_total (train_batch_size args)
                           (wavegan_latent_dim args - num_categ args) (-1) 1 g1)
    as (uniform & g2 & Huni & Hlu & _); [lia | lia | lra |].
  assert (Hu' : with_rng (random.uniform (train_batch_size args)
                  (wavegan_latent_dim args - num_categ args) (-1) 1)
                  (set_rng g1 w) = (Ok uniform, set_rng g2 (set_rng g1 w))).
  { apply (with_rng_ok (set_rng g1 w)). exact Huni. }
  rewrite (bind_ok _ Hu').
  unfold lift, tf.concat1. rewrite Hlc, Hlu, Nat.eqb_refl.
  eexists _, _. reflexivity.
Qed.

(** C8.  For every batch size B >= 0 and every num_categ C with
    0 <= C < latent_dim D, the latent sampler returns a batch of B rows of
    length D; in every row the first C entries (the code) are 0 or 1 and the
    remaining D - C entries lie in [-1, 1]: the code comes first, the
    continuous part second. *)
Theorem latent_sampler_shape_and_ranges (args : Args) (w : World) :
  (0 <= train_batch_size args)%Z ->
  (0 <= num_categ args < wavegan_latent_dim args)%Z ->
  exists z w',
    sample_latent args w = (Ok z, w')
    /\ Z.of_nat (length z) = train_batch_size args
    /\ Forall (fun row =>
                 Z.of_nat (length row) = wavegan_latent_dim args
                 /\ Forall (fun v => v = 0 \/ v = 1)
                           (firstn (Z.to_nat (num_categ args)) row)
                 /\ Forall (fun v => -1 <= v <= 1)
                           (skipn (Z.to_nat (num_categ args)) row)) z.
Proof.
  intros HB [HC HCD]. unfold sample_latent.
  destruct (@bernoulli_total (train_batch_size args) (num_categ args) 0.5 (rng w))
    as (categ & g1 & Hcateg & Hlc & Hac); [lia | lia |].
  rewrite (bind_ok _ (with_rng_ok w Hcateg)).
  destruct (@uniform_total (train_batch_size args)
                           (wavegan_latent_dim args - num_categ args) (-1) 1 g1)
    as (uniform & g2 & Huni & Hlu & Hau); [lia | lia | lra |].
  assert (Hu' : with_rng (random.uniform (train_batch_size args)
                  (wavegan_latent_dim args - num_categ args) (-1) 1)
                  (set_rng g1 w) = (Ok uniform, set_rng g2 (set_rng g1 w))).
  { apply (with_rng_ok (set_rng g1 w)). exact Huni. }
  rewrite (bind_ok _ Hu').
  unfold lift, tf.concat1. rewrite Hlc, Hlu, Nat.eqb_refl.
  eexists _, _. split; [reflexivity|]. split.
  - rewrite zipWith_length by exact (eq_trans Hlc (eq_sym Hlu)).
    change (Z.of_nat (length categ) = train_batch_size args).
    rewrite Hlc. lia.
  - eapply Forall_zipWith; [|exact Hac|exact Hau].
    intros c u [Hc1 Hc2] [Hu1 Hu2]. simpl in *.
    rewrite length_app, Hc1, Hu1. split; [lia|].
    rewrite <- Hc1. rewrite firstn_app, Nat.sub_diag, firstn_all. simpl.
    rewrite app_nil_r. split; [exact Hc2|].
    rewrite skipn_app, Nat.sub_diag, skipn_all. simpl. exact Hu2.
Qed.


Lemma latent_sampler_shape_and_ranges_witness :
  exists z w',
    sample_latent (Examples.scenario "wgan-gp") Examples.empty_world = (Ok z, w')
    /\ Z.of_nat (length z) = 2%Z
    /\ Forall (fun row =>
                 Z.of_nat (length row) = 4%Z
                 /\ Forall (fun v => v = 0 \/ v = 1) (firstn 2 row)
                 /\ Forall (fun v => -1 <= v <= 1) (skipn 2 row)) z.
Proof.
  apply (@latent_sampler_shape_and_ranges
           (Examples.scenario "wgan-gp") Examples.empty_world); simpl; lia.
Defined.

(** ** Broadcasting and the interpolation *)

Lemma sequence_map_ok {A B} (g : A -> B) l :
  sequence (map (fun x => Ok (g x)) l) = Ok (map g l).
Proof.
  induction l as [|x l IH]; simpl; [reflexivity|]. rewrite IH. reflexivity.
Qed.

Lemma sequence_zipWith_ok {A B C} {f : A -> B -> result C} {g : A -> B -> C} {a b} :
  Forall2 (fun x y => f x y = Ok (g x y)) a b ->
  sequence (zipWith f a b) = Ok (zipWith g a b).
Proof.
  induction 1 as [|x y a b Hxy _ IH]; simpl; [reflexivity|].
  rewrite Hxy, IH. reflexivity.
Qed.

Lemma broadcast_paired {A B C} (f : A -> B -> result C) (g : A -> B -> C) a b :
  Forall2 (fun x y => f x y = Ok (g x y)) a b ->
  broadcast f a b = Ok (zipWith g a b).
Proof.
  intros H. pose proof (sequence_zipWith_ok H) as Hseq.
  pose proof (Forall2_length H) as Hlen.
  destruct a as [|a0 [|a1 a]]; destruct b as [|b0 [|b1 b]];
    simpl in Hlen; try discriminate Hlen; try exact Hseq.
  unfold broadcast.
  replace (Nat.eqb (length (a0 :: a1 :: a)) (length (b0 :: b1 :: b))) with true
    by (symmetry; apply Nat.eqb_eq; exact Hlen).
  exact Hseq.
Qed.

Lemma Forall2_zip_shape {A B C} (T : C -> A -> Prop) (P : A -> B -> Prop)
      (g : A -> B -> C) a b :
  (forall x y, P x y -> T (g x y) x) ->
  Forall2 P a b -> Forall2 T (zipWith g a b) a.
Proof. intros Hg. induction 1; simpl; constructor; auto. Qed.

Lemma broadcast3_same_shape {A} (op : A -> A -> A) {a b} :
  same_shape3 a b ->
  broadcast3 op a b = Ok (zipWith (zipWith (zipWith op)) a b).
Proof.
  intros H. unfold broadcast3. apply broadcast_paired.
  eapply Forall2_impl; [|exact H]. intros ea eb He.
  apply broadcast_paired.
  eapply Forall2_impl; [|exact He]. intros fa fb Hf.
  apply broadcast_paired.
  clear - Hf. revert fb Hf. induction fa as [|u fa IH]; intros [|v fb] Hf;
    simpl in Hf; try discriminate; constructor; [reflexivity|].
  apply IH. congruence.
Qed.

Lemma broadcast3_scale_in {A} (mul : A -> A -> A) (d0 : A) alpha d :
  shape_n11 alpha -> length alpha = length d ->
  broadcast3 mul alpha d
  = Ok (zipWith (fun e m => map (map (mul (scalar_in d0 e))) m) alpha d).
Proof.
  intros Hshape Hlen. unfold broadcast3. apply broadcast_paired.
  revert d Hlen. induction Hshape as [|e alpha [s ->] _ IH]; intros [|m d] Hlen;
    simpl in Hlen; try discriminate; constructor.
  - unfold broadcast at 1. unfold scalar_in. simpl.
    replace (map (broadcast (fun x y : A => Ok (mul x y)) [s]) m)
      with (map (fun fr => Ok (map (mul s) fr)) m).
    + apply sequence_map_ok.
    + apply map_ext. intros fr. unfold broadcast.
      symmetry. apply (sequence_map_ok (mul s)).
  - apply IH. congruence.
Qed.

Lemma broadcast3_scale alpha d :
  shape_n11 alpha -> length alpha = length d ->
  broadcast3 Rmult alpha d
  = Ok (zipWith (fun e m => map (map (Rmult (scalar_of e))) m) alpha d).
Proof. apply (broadcast3_scale_in Rmult 0). Qed.

Lemma zipWith_nth_error {A B C} (f : A -> B -> C) {a b i x y} :
  nth_error a i = Some x -> nth_error b i = Some y ->
  nth_error (zipWith f a b) i = Some (f x y).
Proof.
  revert b i. induction a as [|a0 a IH]; intros [|b0 b] [|i]; simpl;
    try discriminate; intros Ha Hb.
  - congruence.
  - apply IH; assumption.
Qed.

Lemma zipWith_nth_error_inv {A B C} (f : A -> B -> C) a b i z :
  nth_error (zipWith f a b) i = Some z ->
  exists x y, nth_error a i = Some x /\ nth_error b i = Some y /\ z = f x y.
Proof.
  revert b i. induction a as [|a0 a IH]; intros [|b0 b] [|i]; simpl;
    try discriminate; intros H.
  - inversion H. eauto.
  - apply IH. exact H.
Qed.

Lemma Forall2_nth_error {A B} {P : A -> B -> Prop} {a b i x y} :
  Forall2 P a b -> nth_error a i = Some x -> nth_error b i = Some y -> P x y.
Proof.
  intros H. revert i. induction H as [|a0 b0 a b H0 _ IH]; intros [|i]; simpl;
    try discriminate; intros Ha Hb.
  - congruence.
  - eapply IH; eassumption.
Qed.

(** The interpolation of one example, entry by entry. *)
Lemma interpolate_example_at (s : R) {xe ge : list (list R)} :
  Forall2 (fun u v : T1 => length u = length v) xe ge ->
  (s = 0 ->
   zipWith (zipWith Rplus) xe
           (map (map (Rmult s)) (zipWith (zipWith Rminus) ge xe)) = xe)
  /\ (s = 1 ->
      zipWith (zipWith Rplus) xe
              (map (map (Rmult s)) (zipWith (zipWith Rminus) ge xe)) = ge).
Proof.
  intros H. split; intros ->.
  - induction H as [|u v xe ge Huv _ IH]; simpl; [reflexivity|].
    rewrite IH. f_equal. clear - Huv. revert v Huv.
    induction u as [|a u IHu]; intros [|b v] Huv; simpl in *;
      try discriminate; [reflexivity|].
    rewrite IHu by congruence. f_equal. ring.
  - induction H as [|u v xe ge Huv _ IH]; simpl; [reflexivity|].
    rewrite IH. f_equal. clear - Huv. revert v Huv.
    induction u as [|a u IHu]; intros [|b v] Huv; simpl in *;
      try discriminate; [reflexivity|].
    rewrite IHu by congruence. f_equal. ring.
Qed.

(** Same-shaped batches and one coefficient per example: the three
    broadcasts pair the entries up, whatever the arithmetic. *)
Lemma interpolate_in_same_shape {A} (sub mul add : A -> A -> A) (d0 : A)
      x G_z alpha :
  same_shape3 x G_z -> shape_n11 alpha -> length alpha = length x ->
  interpolate_in sub mul add x G_z alpha
  = Ok (zipWith (zipWith (zipWith add)) x
          (zipWith (fun e m => map (map (mul (scalar_in d0 e))) m) alpha
                   (zipWith (zipWith (zipWith sub)) G_z x))).
Proof.
  intros Hxg Halpha Hlen. unfold interpolate_in.
  assert (Hgx : same_shape3 G_z x).
  { clear - Hxg. induction Hxg as [|xe ge x G_z He _ IH]; constructor; [|exact IH].
    clear - He. induction He; constructor; [congruence | assumption]. }
  rewrite (broadcast3_same_shape sub Hgx).
  rewrite (broadcast3_scale_in mul d0);
    [|exact Halpha
     |rewrite zipWith_length; [|exact (Forall2_length Hgx)];
      rewrite Hlen; exact (Forall2_length Hxg)].
  apply broadcast3_same_shape.
  clear Hgx. revert alpha Halpha Hlen.
  induction Hxg as [|xe ge x G_z He _ IH]; intros alpha Halpha Hlen.
  - destruct alpha; [constructor | discriminate].
  - destruct alpha as [|e alpha]; [discriminate|]. simpl.
    inversion Halpha; subst. constructor.
    + clear - He. induction He as [|u v xe ge Huv _ IHe]; simpl; constructor;
        [|exact IHe].
      rewrite length_map. clear - Huv. revert u Huv.
      induction v as [|b v IHv]; intros [|a u] Huv; simpl in *;
        try discriminate; [reflexivity|].
      f_equal. apply IHv. congruence.
    + apply IH; [assumption | simpl in Hlen; congruence].
Qed.

Lemma interpolate_same_shape x G_z alpha :
  same_shape3 x G_z -> shape_n11 alpha -> length alpha = length x ->
  interpolate x G_z alpha
  = Ok (zipWith (zipWith (zipWith Rplus)) x
          (zipWith (fun e m => map (map (Rmult (scalar_of e))) m) alpha
                   (zipWith (zipWith (zipWith Rminus)) G_z x))).
Proof. apply (interpolate_in_same_shape Rminus Rmult Rplus 0). Qed.

(** Over the reals, where nothing is rounded, the interpolation
    interp = real + alpha * (fake - real), with one alpha per batch element
    (shape (B, 1, 1)) broadcast over time and channels, is the real example
    when its alpha is 0 and the fake example when its alpha is 1. *)
Lemma interpolation_endpoints_over_reals (x G_z alpha : T3) :
  same_shape3 x G_z -> shape_n11 alpha -> length alpha = length x ->
  exists interpolates,
    interpolate x G_z alpha = Ok interpolates
    /\ forall b real fake a,
        nth_error x b = Some real ->
        nth_error G_z b = Some fake ->
        nth_error alpha b = Some [[a]] ->
        (a = 0 -> nth_error interpolates b = Some real)
        /\ (a = 1 -> nth_error interpolates b = Some fake).
Proof.
  intros Hxg Halpha Hlen.
  eexists. split; [apply interpolate_same_shape; assumption|].
  intros b real fake a Hx Hg Ha.
  pose proof (Forall2_nth_error Hxg Hx Hg) as Hshape.
  pose proof (zipWith_nth_error (zipWith (zipWith Rminus)) Hg Hx) as Hd.
  pose proof (zipWith_nth_error
                (fun e m => map (map (Rmult (scalar_of e))) m) Ha Hd) as Hs.
  rewrite (zipWith_nth_error (zipWith (zipWith Rplus)) Hx Hs).
  change (scalar_of [[a]]) with a.
  destruct (interpolate_example_at a Hshape) as [H0 H1].
  split; intros Ha'; f_equal; auto.
Qed.

Lemma interpolation_endpoints_over_reals_example :
  exists interpolates,
    interpolate Examples.real_batch Examples.fake_batch Examples.alpha_01
    = Ok interpolates
    /\ forall b real fake a,
        nth_error Examples.real_batch b = Some real ->
        nth_error Examples.fake_batch b = Some fake ->
        nth_error Examples.alpha_01 b = Some [[a]] ->
        (a = 0 -> nth_error interpolates b = Some real)
        /\ (a = 1 -> nth_error interpolates b = Some fake).
Proof.
  apply (interpolation_endpoints_over_reals
           Examples.real_batch Examples.fake_batch Examples.alpha_01).
  - repeat constructor.
  - repeat constructor; eexists; reflexivity.
  - reflexivity.
Qed.

(** *** The interpolation in float32 *)

Section Float32Arithmetic.
Local Open Scope Z_scope.

Lemma float32_mul_one_finite s m e :
  SpecFloat.bounded float32.prec float32.emax m e = true ->
  float32.mul float32.one (SpecFloat.S754_finite s m e)
  = SpecFloat.S754_finite s m e.
Proof.
  intros Hb. unfold SpecFloat.bounded in Hb.
  apply andb_prop in Hb. destruct Hb as [Hcanon Hmax].
  unfold SpecFloat.canonical_mantissa in Hcanon.
  apply Z.eqb_eq in Hcanon.
  unfold float32.mul, float32.one, SpecFloat.SFmul.
  cbn [xorb].
  unfold SpecFloat.binary_round_aux.
  assert (Hshift :
            SpecFloat.shr_fexp float32.prec float32.emax (Z.pos (8388608 * m))
                               (-23 + e) SpecFloat.loc_Exact
            = ({| SpecFloat.shr_m := Z.pos m; SpecFloat.shr_r := false;
                  SpecFloat.shr_s := false |}, e)).
  { unfold SpecFloat.shr_fexp.
    assert (Hd : SpecFloat.Zdigits2 (Z.pos (8388608 * m))
                 = Z.pos (SpecFloat.digits2_pos m) + 23).
    { cbn [Pos.mul SpecFloat.Zdigits2 SpecFloat.digits2_pos]. lia. }
    rewrite Hd.
    replace (Z.pos (SpecFloat.digits2_pos m) + 23 + (-23 + e))
      with (Z.pos (SpecFloat.digits2_pos m) + e) by lia.
    rewrite Hcanon.
    replace (e - (-23 + e)) with 23 by lia.
    cbn [SpecFloat.shr SpecFloat.shr_record_of_loc SpecFloat.iter_pos
         SpecFloat.shr_1 Pos.mul orb].
    f_equal. lia. }
  rewrite Hshift. cbn [SpecFloat.shr_m SpecFloat.loc_of_shr_record
                       SpecFloat.round_nearest_even].
  unfold SpecFloat.shr_fexp. cbn [SpecFloat.Zdigits2].
  rewrite Hcanon, Z.sub_diag.
  cbn [SpecFloat.shr SpecFloat.shr_record_of_loc SpecFloat.shr_m].
  rewrite Hmax. reflexivity.
Qed.

End Float32Arithmetic.

(** Multiplying by 1.0 rounds nothing. *)
Lemma float32_mul_one_l d :
  float32.valid d = true -> float32.mul float32.one d = d.
Proof.
  destruct d as [s | s | | s m e]; intros Hv; try reflexivity.
  apply float32_mul_one_finite. exact Hv.
Qed.

(** 0.0 times a finite value is a zero. *)
Lemma float32_mul_zero_l d :
  float32.is_finite d = true ->
  exists s, float32.mul float32.zero d = SpecFloat.S754_zero s.
Proof.
  destruct d as [s | s | | s m e]; intros Hf; try discriminate Hf;
    eexists; reflexivity.
Qed.

(** Adding a zero to a finite value gives the value back; a zero may change
    its sign. *)
Lemma float32_add_zero_r x s :
  float32.is_finite x = true ->
  float32_eq (float32.add x (SpecFloat.S754_zero s)) x.
Proof.
  destruct x as [sx | sx | | sx m e]; intros Hf; try discriminate Hf.
  - right. destruct sx, s; eexists _, _; split; reflexivity.
  - left. reflexivity.
Qed.

(** One example at coefficient 0.0 and at coefficient 1.0. *)
Lemma interpolate_float32_example_at (real fake : list (list float32.t)) :
  (example_rel (fun r f => float32.is_finite r = true
                           /\ float32.is_finite (float32.sub f r) = true)
               real fake ->
   example_rel float32_eq
     (zipWith (zipWith float32.add) real
        (map (map (float32.mul float32.zero))
             (zipWith (zipWith float32.sub) fake real)))
     real)
  /\ (example_rel (fun r f => float32.valid (float32.sub f r) = true)
                  real fake ->
      zipWith (zipWith float32.add) real
        (map (map (float32.mul float32.one))
             (zipWith (zipWith float32.sub) fake real))
      = zipWith (zipWith (fun r f => float32.add r (float32.sub f r)))
                real fake).
Proof.
  unfold example_rel. split; intros H.
  - induction H as [|u v real fake Huv _ IH]; cbn [zipWith map];
      constructor; [|exact IH].
    clear - Huv. induction Huv as [|r f u v [Hr Hd] _ IHu]; cbn [zipWith map];
      constructor; [|exact IHu].
    destruct (float32_mul_zero_l _ Hd) as (s & ->).
    apply float32_add_zero_r. exact Hr.
  - induction H as [|u v real fake Huv _ IH]; cbn [zipWith map];
      [reflexivity|].
    rewrite IH. f_equal.
    clear - Huv. induction Huv as [|r f u v Hd _ IHu]; cbn [zipWith map];
      [reflexivity|].
    rewrite IHu, (float32_mul_one_l _ Hd). reflexivity.
Qed.

(** C9, as amended.  Under wgan-gp the interpolation is
    interp = real + alpha * (fake - real), with one alpha per batch element
    (shape (B, 1, 1)) broadcast over time and channels, every operation a
    float32 operation.  For every batch element: when its alpha is 0.0 and
    the samples and their differences are finite, interp equals the real
    example, sample by sample (a zero sample may come out with the other
    sign); when its alpha is 1.0, interp is real + (fake - real) as float32
    rounds the difference and the sum, the product with 1.0 being exact.
    Over the reals, where nothing is rounded, interp is the real example at
    alpha 0 and the fake example at alpha 1. *)
Theorem interpolation_endpoints_in_float32 :
  (forall x G_z alpha : list (list (list float32.t)),
      same_shape3 x G_z -> shape_n11 alpha -> length alpha = length x ->
      exists interpolates,
        interpolate_float32 x G_z alpha = Ok interpolates
        /\ forall b real fake a,
            nth_error x b = Some real ->
            nth_error G_z b = Some fake ->
            nth_error alpha b = Some [[a]] ->
            exists interp,
              nth_error interpolates b = Some interp
              /\ (a = float32.zero ->
                  example_rel
                    (fun r f => float32.is_finite r = true
                                /\ float32.is_finite (float32.sub f r) = true)
                    real fake ->
                  example_rel float32_eq interp real)
              /\ (a = float32.one ->
                  example_rel
                    (fun r f => float32.valid (float32.sub f r) = true)
                    real fake ->
                  interp
                  = zipWith (zipWith (fun r f =>
                                        float32.add r (float32.sub f r)))
                            real fake))
  /\ (forall x G_z alpha : T3,
         same_shape3 x G_z -> shape_n11 alpha -> length alpha = length x ->
         exists interpolates,
           interpolate x G_z alpha = Ok interpolates
           /\ forall b real fake a,
               nth_error x b = Some real ->
               nth_error G_z b = Some fake ->
               nth_error alpha b = Some [[a]] ->
               (a = 0%R -> nth_error interpolates b = Some real)
               /\ (a = 1%R -> nth_error interpolates b = Some fake)).
Proof.
  split; [|exact interpolation_endpoints_over_reals].
  intros x G_z alpha Hxg Halpha Hlen.
  eexists. split.
  { apply (interpolate_in_same_shape float32.sub float32.mul float32.add
             float32.zero); assumption. }
  intros b real fake a Hx Hg Ha.
  pose proof (zipWith_nth_error (zipWith (zipWith float32.sub)) Hg Hx) as Hd.
  pose proof (zipWith_nth_error
                (fun e m => map (map (float32.mul (scalar_in float32.zero e))) m)
                Ha Hd) as Hs.
  eexists. split.
  { exact (zipWith_nth_error (zipWith (zipWith float32.add)) Hx Hs). }
  change (scalar_in float32.zero [[a]]) with a.
  destruct (interpolate_float32_example_at real fake) as [H0 H1].
  split; intros ->; assumption.
Qed.

(** C9 fails at alpha = 1 in float32: with the real sample 1.0 and the fake
    sample 1e-8, fake - real rounds to -1.0, so that
    real + 1.0 * (fake - real) is 0.0, which is not the fake sample. *)
Lemma interpolation_at_one_misses_fake :
  float32.valid float32.one = true
  /\ float32.valid Examples.f32_1e_8 = true
  /\ interpolate_float32 [[[float32.one]]] [[[Examples.f32_1e_8]]]
                         [[[float32.one]]]
     = Ok [[[float32.zero]]]
  /\ ~ float32_eq float32.zero Examples.f32_1e_8.
Proof.
  split; [reflexivity|]. split; [reflexivity|]. split; [reflexivity|].
  intros [H | (s & s' & _ & H)]; discriminate H.
Qed.

Lemma interpolation_endpoints_in_float32_witness :
  exists interpolates at_zero at_one,
    interpolate_float32 Examples.real_f32 Examples.fake_f32
                        Examples.alpha_01_f32 = Ok interpolates
    /\ nth_error interpolates 0 = Some at_zero
    /\ example_rel float32_eq at_zero [[float32.one]; [Examples.f32_half]]
    /\ nth_error interpolates 1 = Some at_one
    /\ at_one = [[Examples.f32_half]; [float32.one]].
Proof.
  destruct (proj1 interpolation_endpoints_in_float32
              Examples.real_f32 Examples.fake_f32 Examples.alpha_01_f32)
    as (interpolates & Hrun & Hends).
  - repeat constructor.
  - repeat constructor; eexists; reflexivity.
  - reflexivity.
  - destruct (Hends 0%nat _ _ _ eq_refl eq_refl eq_refl)
      as (at_zero & Hnth0 & Hzero & _).
    destruct (Hends 1%nat _ _ _ eq_refl eq_refl eq_refl)
      as (at_one & Hnth1 & _ & Hone).
    exists interpolates, at_zero, at_one.
    split; [exact Hrun|]. split; [exact Hnth0|].
    split; [apply Hzero; [reflexivity | repeat constructor]|].
    split; [exact Hnth1|].
    rewrite Hone; [reflexivity | reflexivity | repeat constructor].
Defined.

(** ** The dcgan losses *)

Lemma ln_sigmoid x : ln (tf.sigmoid x) = - ln (1 + exp (- x)).
Proof.
  unfold tf.sigmoid, Rdiv. rewrite Rmult_1_l.
  apply ln_Rinv. pose proof (exp_pos (- x)). lra.
Qed.

Lemma ln_one_minus_sigmoid x : ln (1 - tf.sigmoid x) = - x - ln (1 + exp (- x)).
Proof.
  pose proof (exp_pos (- x)) as He.
  assert (Hs : 1 - tf.sigmoid x = exp (- x) * / (1 + exp (- x))).
  { unfold tf.sigmoid. field. lra. }
  rewrite Hs, ln_mult, ln_exp, ln_Rinv; try lra.
  apply Rinv_0_lt_compat. lra.
Qed.

Lemma softplus_stable x :
  Rmax x 0 + ln (1 + exp (- Rabs x)) = x + ln (1 + exp (- x)).
Proof.
  destruct (Rle_dec 0 x) as [Hx | Hx].
  - rewrite Rmax_left, Rabs_pos_eq by lra. reflexivity.
  - rewrite Rmax_right, Rabs_left by lra. rewrite Ropp_involutive.
    pose proof (exp_pos x) as He. pose proof (exp_pos (- x)) as Hn.
    assert (Hm : 1 + exp x = exp x * (1 + exp (- x))).
    { rewrite Rmult_plus_distr_l, <- exp_plus, Rplus_opp_r, exp_0. ring. }
    rewrite Hm, ln_mult, ln_exp by lra. ring.
Qed.

(** The stable form TensorFlow evaluates is the textbook cross-entropy. *)
Lemma sigmoid_ce_cross_entropy label logit :
  tf.sigmoid_ce label logit = cross_entropy logit label.
Proof.
  unfold tf.sigmoid_ce, cross_entropy.
  rewrite ln_sigmoid, ln_one_minus_sigmoid.
  pose proof (softplus_stable logit). lra.
Qed.

Lemma zipWith_repeat_l {A B C} (f : A -> B -> C) c l :
  zipWith f (repeat c (length l)) l = map (f c) l.
Proof. induction l as [|y l IH]; simpl; [reflexivity|]. rewrite IH. reflexivity. Qed.

Lemma sigmoid_cross_entropy_constant_label c n logits :
  length logits = n ->
  tf.sigmoid_cross_entropy_with_logits (repeat c n) logits
  = Ok (map (fun d => cross_entropy d c) logits).
Proof.
  intros <-. unfold tf.sigmoid_cross_entropy_with_logits.
  rewrite repeat_length, Nat.eqb_refl, zipWith_repeat_l.
  f_equal. apply map_ext. intros d. apply sigmoid_ce_cross_entropy.
Qed.

(** C7.  Under dcgan, with one score per batch element, D_loss is the mean
    cross-entropy of d_fake against label 0 plus the mean cross-entropy of
    d_real against label 1, the sum divided by 2, and the generator loss is
    the mean cross-entropy of d_fake against label 1. *)
Theorem dcgan_losses (args : Args) (D_G_z D_x : T1) (x G_z : T3)
        (inter : model_id) (tape : Tape) (z Q_G_z : T2) (w : World) :
  wavegan_loss args = "dcgan" ->
  length D_G_z = Z.to_nat (train_batch_size args) ->
  length D_x = Z.to_nat (train_batch_size args) ->
  exists l,
    compute_loss_body args D_G_z D_x x G_z inter tape z Q_G_z w = (Ok l, w)
    /\ D_loss l
       = Some ((tf.reduce_mean (map (fun d => cross_entropy d 0) D_G_z)
                + tf.reduce_mean (map (fun d => cross_entropy d 1) D_x)) / 2)
    /\ D_G_z_loss l
       = Some (tf.reduce_mean (map (fun d => cross_entropy d 1) D_G_z)).
Proof.
  intros Hloss Hfake Hreal. unfold compute_loss_body.
  rewrite Hloss. simpl String.eqb. cbv iota.
  unfold tf.zeros, tf.ones, lift, bind.
  rewrite !sigmoid_cross_entropy_constant_label by assumption.
  eexists. split; [reflexivity|]. split; reflexivity.
Qed.

Lemma dcgan_losses_witness :
  exists l,
    compute_loss_body (Examples.scenario "dcgan") [0; 1] [2; 3]
                      Examples.real_batch Examples.fake_batch
                      inter_discriminator (fun _ _ => []) [] []
                      Examples.empty_world
    = (Ok l, Examples.empty_world)
    /\ D_loss l
       = Some ((tf.reduce_mean (map (fun d => cross_entropy d 0) [0; 1])
                + tf.reduce_mean (map (fun d => cross_entropy d 1) [2; 3])) / 2)
    /\ D_G_z_loss l
       = Some (tf.reduce_mean (map (fun d => cross_entropy d 1) [0; 1])).
Proof.
  apply (dcgan_losses (Examples.scenario "dcgan") [0; 1] [2; 3]);
    reflexivity.
Defined.

(** ** The generator's output range *)

Lemma tanh_range x : -1 <= tanh x <= 1.
Proof.
  unfold tanh, sinh, cosh.
  pose proof (exp_pos x) as Hp. pose proof (exp_pos (- x)) as Hn.
  set (a := (exp x - exp (- x)) / 2).
  set (c := (exp x + exp (- x)) / 2).
  assert (Hc : 0 < c) by (unfold c; lra).
  assert (Hq : a / c * c = a) by (field; lra).
  split; apply (Rmult_le_reg_r c); try exact Hc; rewrite Hq; unfold a, c; lra.
Qed.

Lemma map3_all_values (f : R -> R) (P : R -> Prop) t :
  (forall x, P (f x)) -> all_values P (map3 f t).
Proof.
  intros Hf. unfold all_values, map3.
  apply Forall_map, Forall_forall. intros m _.
  apply Forall_map, Forall_forall. intros v _.
  apply Forall_map, Forall_forall. intros x _. apply Hf.
Qed.

Lemma total_ret {S A} (a : A) : total (@ret S A a).
Proof. intros s. exists a, s. reflexivity. Qed.

Lemma total_bind {S A B} (m : M S A) (k : A -> M S B) :
  total m -> (forall a, total (k a)) -> total (bind m k).
Proof.
  intros Hm Hk s. destruct (Hm s) as (a & s' & Ha).
  destruct (Hk a s') as (b & s'' & Hb).
  exists b, s''. rewrite (bind_ok _ Ha). exact Hb.
Qed.

Lemma total_next_layer : total next_layer.
Proof.
  intros n. unfold next_layer. destruct (layers n); eexists _, _; reflexivity.
Qed.

Lemma total_Dense units x : total (keras.Dense units x).
Proof.
  apply total_bind; [apply total_next_layer|].
  intros l. destruct l; apply total_ret.
Qed.

Lemma total_Conv1D f k s b x : total (keras.Conv1D f k s b x).
Proof.
  apply total_bind; [apply total_next_layer|].
  intros l. destruct l; apply total_ret.
Qed.

Lemma total_Conv2DTranspose f k s x : total (keras.Conv2DTranspose f k s x).
Proof.
  apply total_bind; [apply total_next_layer|].
  intros l. destruct l; apply total_ret.
Qed.

Lemma total_BatchNormalization x : total (keras.BatchNormalization x).
Proof.
  apply total_bind; [apply total_next_layer|].
  intros l. destruct l; apply total_ret.
Qed.

Lemma total_conv1d_transpose inputs f k s upsample :
  upsample = "zeros" \/ upsample = "nn" ->
  total (conv1d_transpose inputs f k s upsample).
Proof.
  intros [-> | ->]; unfold conv1d_transpose; simpl.
  - apply total_Conv2DTranspose.
  - apply total_Conv1D.
Qed.

Create HintDb total.

#[local] Hint Resolve total_ret total_Dense total_Conv1D total_Conv2DTranspose
  total_BatchNormalization total_conv1d_transpose : total.

Ltac total_steps :=
  repeat first
    [ solve [auto with total]
    | match goal with
      | |- total (if ?b then _ else _) => destruct b
      end
    | apply total_bind; [|intros ?] ].

(** The generator ends in tanh, whatever the configuration. *)
Lemma WaveGANGenerator_tanh update_ops z slice_len nch kernel_len dim
      use_batchnorm upsample train n out n' :
  WaveGANGenerator update_ops z slice_len nch kernel_len dim use_batchnorm
                   upsample train n = (Ok out, n') ->
  exists pre, out = map3 tanh pre.
Proof.
  unfold WaveGANGenerator. intros H.
  apply bind_ok_inv in H. destruct H as (u & n0 & Hassert & H).
  unfold assert in Hassert.
  destruct (existsb (Z.eqb slice_len) [16384; 32768; 65536]%Z) eqn:Hslice;
    [|discriminate Hassert].
  do 10 (apply bind_ok_inv in H; destruct H as (? & ? & _ & H)).
  simpl in Hslice.
  destruct (slice_len =? 16384)%Z.
  - apply bind_ok_inv in H. destruct H as (o & n1 & Hlast & H).
    apply bind_ok_inv in Hlast. destruct Hlast as (pre & ? & _ & Hlast).
    inversion Hlast; subst.
    apply bind_ok_inv in H. destruct H as (? & ? & _ & H).
    inversion H; subst. eauto.
  - destruct (slice_len =? 32768)%Z.
    + apply bind_ok_inv in H. destruct H as (o & n1 & Hlast & H).
      repeat (apply bind_ok_inv in Hlast; destruct Hlast as (? & ? & _ & Hlast)).
      inversion Hlast; subst.
      apply bind_ok_inv in H. destruct H as (? & ? & _ & H).
      inversion H; subst. eauto.
    + destruct (slice_len =? 65536)%Z; [|discriminate Hslice].
      apply bind_ok_inv in H. destruct H as (o & n1 & Hlast & H).
      repeat (apply bind_ok_inv in Hlast; destruct Hlast as (? & ? & _ & Hlast)).
      inversion Hlast; subst.
      apply bind_ok_inv in H. destruct H as (? & ? & _ & H).
      inversion H; subst. eauto.
Qed.

Lemma total_WaveGANGenerator update_ops z slice_len nch kernel_len dim
      use_batchnorm upsample train :
  valid_slice_len slice_len ->
  upsample = "zeros" \/ upsample = "nn" ->
  (train && use_batchnorm = true -> update_ops = expected_update_ops slice_len) ->
  total (WaveGANGenerator update_ops z slice_len nch kernel_len dim use_batchnorm
                          upsample train).
Proof.
  intros Hslice Hup Hops. unfold WaveGANGenerator, expected_update_ops in *.
  destruct (train && use_batchnorm) eqn:Hbn;
    [rewrite (Hops eq_refl) | ]; clear Hops;
    destruct Hslice as [-> | [-> | ->]]; simpl; unfold assert; simpl;
    total_steps.
Qed.

(** C6, as amended.  Without the post-processing filter the generator
    returns, for every latent input and every value of its variables, a
    batch whose values all lie in [-1, 1]: its last operation is tanh.
    (The configuration is one the generator accepts: a supported slice
    length and upsampling mode, and the expected number of update
    operations when batch normalisation is on.) *)
Theorem generator_output_range_without_pp `{Backend} (args : Args) (z : T2) (net : Net) :
  wavegan_genr_pp args = false ->
  valid_slice_len (data_slice_len args) ->
  wavegan_genr_upsample args = "zeros" \/ wavegan_genr_upsample args = "nn" ->
  (wavegan_batchnorm args = true ->
   update_ops = expected_update_ops (data_slice_len args)) ->
  exists out net',
    generator_model args z net = (Ok out, net')
    /\ all_values (fun v => -1 <= v <= 1) out.
Proof.
  intros Hpp Hslice Hup Hops. unfold generator_model. rewrite Hpp.
  destruct (@total_WaveGANGenerator update_ops z (data_slice_len args)
              (data_num_channels args) (wavegan_kernel_len args)
              (wavegan_dim args) (wavegan_batchnorm args)
              (wavegan_genr_upsample args) true Hslice Hup Hops net)
    as (out & net' & Hrun).
  exists out, net'. rewrite (bind_ok _ Hrun). split; [reflexivity|].
  destruct (WaveGANGenerator_tanh _ _ _ _ _ _ _ _ _ _ _ _ Hrun) as (pre & ->).
  apply map3_all_values. exact tanh_range.
Qed.

Lemma generator_output_range_without_pp_witness :
  exists out net',
    @generator_model Examples.backend (Examples.small_args "wgan-gp" false)
                     Examples.zero_latent Examples.small_net = (Ok out, net')
    /\ all_values (fun v => -1 <= v <= 1) out.
Proof.
  apply (@generator_output_range_without_pp Examples.backend
           (Examples.small_args "wgan-gp" false) Examples.zero_latent Examples.small_net).
  - reflexivity.
  - left. reflexivity.
  - left. reflexivity.
  - discriminate.
Defined.

(** *** The post-processing filter is applied after tanh *)

Lemma Dense_run units x k b rest g :
  keras.Dense units x {| layers := LDense k b :: rest; net_rng := g |}
  = (Ok (map (fun row => vadd (vecmat (Z.to_nat units) row k) b) x),
     {| layers := rest; net_rng := g |}).
Proof. reflexivity. Qed.

Lemma tanh_one_above_half : 1 < tanh (0 + 1) * 2 + 0 + 0.
Proof.
  rewrite Rplus_0_l. unfold tanh, sinh, cosh.
  pose proof (exp_ineq1 1) as He. pose proof (exp_pos (Ropp 1)) as Hf.
  assert (Hef : exp 1 * exp (Ropp 1) = 1).
  { rewrite <- exp_plus, Rplus_opp_r. apply exp_0. }
  set (e := exp 1) in *. set (f := exp (Ropp 1)) in *.
  assert (He2 : 2 < e) by lra.
  assert (Hf2 : f < / 2) by nra.
  assert (Hq : (e - f) / 2 / ((e + f) / 2) * (e + f) = e - f) by (field; lra).
  set (t := (e - f) / 2 / ((e + f) / 2)) in *.
  assert (Hpos : 0 < (t - / 2) * (e + f)).
  { rewrite Rmult_minus_distr_r, Hq. lra. }
  assert (Ht : / 2 < t).
  { destruct (Rlt_dec (/ 2) t) as [Hlt | Hge]; [exact Hlt|].
    exfalso. assert (Hle : t - / 2 <= 0) by lra.
    assert (Hsum : 0 < e + f) by lra.
    pose proof (Rmult_le_compat_r (e + f) _ _ (Rlt_le _ _ Hsum) Hle) as Hm.
    lra. }
  lra.
Qed.

Lemma dot_zero_row fr : dot fr [0] = 0.
Proof.
  unfold dot, rsum. destruct fr as [|v fr]; simpl; [reflexivity|].
  destruct fr; simpl; ring.
Qed.

(** With a zero kernel a transposed convolution accumulates nothing. *)
Lemma conv1d_transpose_zero_fold K s x target pairs :
  Forall (fun ij : nat * nat => (snd ij < K)%nat) pairs ->
  fold_right
    (fun ij acc =>
       let '(i, j) := ij in
       if (i * s + j =? target)%nat
       then vadd (map (dot (nth i x [])) (nth j (repeat [[0]] K) [])) acc
       else acc)
    (repeat 0 1) pairs = [0].
Proof.
  induction 1 as [|[i j] pairs Hj _ IH]; cbn [fold_right]; [reflexivity|].
  rewrite IH. destruct (i * s + j =? target)%nat; [|reflexivity].
  simpl in Hj. rewrite (nth_repeat_lt _ _ Hj). simpl.
  rewrite dot_zero_row. unfold vadd. simpl. f_equal. ring.
Qed.

Lemma conv1d_transpose_zero_first K s b (e : T2) :
  e <> [] -> (0 < s)%nat ->
  exists rest,
    keras.conv1d_transpose_example 1 K s (repeat [[0]] K) [b] e
    = [0 + b] :: rest.
Proof.
  intros He Hs. unfold keras.conv1d_transpose_example.
  destruct e as [|fr e]; [contradiction|].
  destruct s as [|s]; [lia|].
  change (length (fr :: e) * S s)%nat with (S (s + length e * S s)).
  rewrite <- cons_seq, map_cons.
  eexists. f_equal.
  rewrite conv1d_transpose_zero_fold; [reflexivity|].
  apply Forall_forall. intros [i j] Hin.
  apply in_prod_iff in Hin. destruct Hin as [_ Hin].
  apply in_seq in Hin. simpl. lia.
Qed.

(** A filter of one tap multiplies each frame of a mono signal by the tap. *)
Lemma conv1d_one_tap_first k v (y : T2) :
  exists rest,
    keras.conv1d_example 1 1 1 [[[k]]] None ([v] :: y)
    = [v * k + 0 + 0] :: rest.
Proof.
  unfold keras.conv1d_example.
  replace ((length ([v] :: y) + 1 - 1) / 1)%nat with (S (length y))
    by (simpl length; rewrite Nat.div_1_r; lia).
  replace ((S (length y) - 1) * 1 + 1 - length ([v] :: y))%nat with 0%nat
    by (simpl length; lia).
  rewrite <- cons_seq. simpl. eexists. reflexivity.
Qed.

Lemma map_not_nil {A B} (f : A -> B) l : l <> [] -> map f l <> [].
Proof. destruct l; [contradiction | discriminate]. Qed.

Lemma populated_map3 f t : populated t -> populated (map3 f t).
Proof.
  intros [Hne Hall]. unfold map3. split; [apply map_not_nil; exact Hne|].
  apply Forall_map. eapply Forall_impl; [|exact Hall].
  intros e He. apply map_not_nil. exact He.
Qed.

Lemma populated_conv1d_transpose f K s k b t :
  (0 < s)%nat -> populated t ->
  populated (map (keras.conv1d_transpose_example f K s k b) t).
Proof.
  intros Hs [Hne Hall]. split; [apply map_not_nil; exact Hne|].
  apply Forall_map. eapply Forall_impl; [|exact Hall].
  intros e He. unfold keras.conv1d_transpose_example.
  apply map_not_nil. destruct e as [|fr e]; [contradiction|].
  destruct s as [|s]; [lia|]. simpl. discriminate.
Qed.

Lemma populated_reshape_frames n c t :
  (0 < n)%Z -> t <> [] -> populated (reshape_frames n c t).
Proof.
  intros Hn Hne. unfold reshape_frames. split; [apply map_not_nil; exact Hne|].
  apply Forall_map, Forall_forall. intros row _.
  apply map_not_nil. destruct (Z.to_nat n) eqn:E; [lia | discriminate].
Qed.

(** C6 fails with the filter enabled: for the all-zero latent, a generator
    whose last transposed convolution has bias 1 and whose filter has the
    single tap 2 outputs 2 * tanh 1 > 1. *)
Lemma generator_with_pp_exceeds_one :
  exists out net',
    @generator_model Examples.backend (Examples.small_args "wgan-gp" true)
                     Examples.zero_latent Examples.pp_net = (Ok out, net')
    /\ ~ all_values (fun v => -1 <= v <= 1) out.
Proof.
  eexists _, _. split.
  { unfold generator_model, WaveGANGenerator, Examples.pp_net,
      Examples.small_generator_layers, conv1d_transpose, assert.
    cbn [data_slice_len data_num_channels wavegan_kernel_len wavegan_dim
         wavegan_batchnorm wavegan_genr_upsample wavegan_genr_pp
         wavegan_genr_pp_len Examples.small_args Examples.backend update_ops
         existsb Z.eqb Pos.eqb orb andb String.eqb Ascii.eqb Bool.eqb app].
    cbv [bind ret keras.Dense keras.Conv2DTranspose keras.Conv1D next_layer
         layers net_rng hd].
    reflexivity. }
  change (Z.to_nat 1) with 1%nat. change (Z.to_nat 25) with 25%nat.
  change (Z.to_nat 4) with 4%nat.
  change (Examples.zeros3 25 1 1) with (repeat [[0]] 25).
  match goal with
  | |- context [map (keras.conv1d_transpose_example 1 25 4 _ [1]) ?X] =>
      assert (HX : populated X);
        [ repeat first [ apply populated_map3
                       | apply populated_conv1d_transpose; [lia|]
                       | apply populated_reshape_frames; [lia | discriminate] ]
        | generalize dependent X ]
  end.
  intros X [Hne Hall]. destruct X as [|e X]; [contradiction|].
  apply Forall_inv in Hall.
  destruct (@conv1d_transpose_zero_first 25 4 1 e Hall) as (rest & Hfirst);
    [lia|].
  unfold map3. cbn [map]. rewrite Hfirst. cbn [map].
  destruct (conv1d_one_tap_first 2 (tanh (0 + 1)) (map (map tanh) rest))
    as (rest' & Hpp).
  rewrite Hpp. unfold all_values. intros Habs.
  apply Forall_inv in Habs. apply Forall_inv in Habs. apply Forall_inv in Habs.
  pose proof tanh_one_above_half. lra.
Qed.

(** ** The discriminator's output *)

Lemma sigmoid_range x : 0 < tf.sigmoid x < 1.
Proof.
  unfold tf.sigmoid. pose proof (exp_pos (- x)) as He.
  assert (Hd : 0 < 1 + exp (- x)) by lra.
  assert (Hq : 1 / (1 + exp (- x)) * (1 + exp (- x)) = 1) by (field; lra).
  split.
  - apply Rdiv_lt_0_compat; lra.
  - apply (Rmult_lt_reg_r (1 + exp (- x))); [exact Hd|]. rewrite Hq. lra.
Qed.

Lemma total_with_rng {A} (m : M Rng A) :
  total m -> total (with_rng (S := Net) m).
Proof.
  intros Hm n. unfold with_rng. destruct (Hm (get_rng n)) as (a & g & Ha).
  rewrite Ha. eexists _, _. reflexivity.
Qed.

Lemma total_uniform_int lo hi : (lo < hi)%Z -> total (random.uniform_int lo hi).
Proof.
  intros Hlt g. unfold random.uniform_int.
  rewrite (proj2 (Z.ltb_lt lo hi) Hlt).
  eexists _, _. reflexivity.
Qed.

Lemma total_phaseshuffle x rad :
  total (if (rad >? 0)%Z then apply_phaseshuffle x rad else ret x).
Proof.
  destruct (rad >? 0)%Z eqn:Hrad; [|apply total_ret].
  unfold apply_phaseshuffle. apply total_bind; [|intros; apply total_ret].
  apply total_with_rng, total_uniform_int. lia.
Qed.

#[local] Hint Resolve total_phaseshuffle : total.

Lemma total_conv_trunk x kernel_len dim use_batchnorm phaseshuffle_rad :
  total (conv_trunk x kernel_len dim use_batchnorm phaseshuffle_rad).
Proof.
  unfold conv_trunk. cbv beta zeta.
  repeat first
    [ solve [auto with total]
    | apply total_bind; [|intros ?]
    | match goal with
      | |- total (if ?b then _ else _) => destruct b
      end ].
Qed.

Lemma total_WaveGANDiscriminator x kernel_len dim use_batchnorm phaseshuffle_rad :
  total (WaveGANDiscriminator x kernel_len dim use_batchnorm phaseshuffle_rad).
Proof.
  unfold WaveGANDiscriminator.
  apply total_bind; [apply total_conv_trunk|]. intros t.
  apply total_bind; [apply total_Dense|]. intros d. apply total_ret.
Qed.

Lemma WaveGANDiscriminator_sigmoid x kernel_len dim use_batchnorm
      phaseshuffle_rad n out n' :
  WaveGANDiscriminator x kernel_len dim use_batchnorm phaseshuffle_rad n
  = (Ok out, n') ->
  exists logits, out = map tf.sigmoid logits.
Proof.
  unfold WaveGANDiscriminator. intros H.
  apply bind_ok_inv in H. destruct H as (t & n1 & _ & H).
  apply bind_ok_inv in H. destruct H as (d & n2 & _ & H).
  inversion H; subst. eauto.
Qed.

(** C3, what the code does.  Whatever the loss variant - wgan and wgan-gp
    included - the discriminator returns, for every input and every value
    of its variables, the sigmoid of its logit: every score lies strictly
    between 0 and 1, where the claim wants the raw logit for wgan and
    wgan-gp. *)
Theorem discriminator_score_always_squashed (args : Args) (x : T3) (net : Net) :
  exists logits net',
    discriminator_model args x net = (Ok (map tf.sigmoid logits), net')
    /\ Forall (fun score => 0 < score < 1) (map tf.sigmoid logits).
Proof.
  unfold discriminator_model.
  destruct (total_WaveGANDiscriminator x (wavegan_kernel_len args)
              (wavegan_dim args) (wavegan_batchnorm args)
              (wavegan_disc_phaseshuffle args) net) as (out & net' & Hrun).
  destruct (WaveGANDiscriminator_sigmoid _ _ _ _ _ _ _ _ Hrun) as (logits & ->).
  exists logits, net'. split; [exact Hrun|].
  apply Forall_map, Forall_forall. intros l _. apply sigmoid_range.
Qed.

(** ** What a computation leaves untouched *)

Lemma same_models_refl w : same_models w w.
Proof. repeat split. Qed.

Lemma same_models_trans w1 w2 w3 :
  same_models w1 w2 -> same_models w2 w3 -> same_models w1 w3.
Proof.
  unfold same_models.
  intros (a1 & b1 & c1 & d1 & e1 & f1 & g1) (a2 & b2 & c2 & d2 & e2 & f2 & g2).
  repeat split; congruence.
Qed.

Lemma same_models_summaries w w' : same_models w w' -> summaries w' = summaries w.
Proof. intros (_ & _ & _ & _ & Hs & _). exact Hs. Qed.

Lemma preserves_ret {A} (a : A) : preserves_models (ret a).
Proof. intros w r w' H. inversion H; subst. apply same_models_refl. Qed.

Lemma preserves_raise {A} e : preserves_models (@raise World A e).
Proof. intros w r w' H. inversion H; subst. apply same_models_refl. Qed.

Lemma preserves_lift {A} (r : result A) : preserves_models (lift r).
Proof. intros w r' w' H. inversion H; subst. apply same_models_refl. Qed.

Lemma preserves_get : preserves_models get.
Proof. intros w r w' H. inversion H; subst. apply same_models_refl. Qed.

Lemma preserves_bind {A B} (m : M World A) (k : A -> M World B) :
  preserves_models m -> (forall a, preserves_models (k a)) ->
  preserves_models (bind m k).
Proof.
  intros Hm Hk w r w' H. unfold bind in H.
  destruct (m w) as [[a | e] w1] eqn:Hmw.
  - eapply same_models_trans; [eapply Hm; exact Hmw | eapply Hk; exact H].
  - inversion H; subst. eapply Hm. exact Hmw.
Qed.

Lemma preserves_with_rng {A} (m : M Rng A) :
  preserves_models (with_rng (S := World) m).
Proof.
  intros w r w' H. unfold with_rng in H.
  destruct (m (get_rng w)) as [r0 g]. inversion H; subst.
  repeat split.
Qed.

Lemma preserves_call_model {A} (m : model_id) (f : M Net A) :
  preserves_models (call_model m f).
Proof.
  intros w r w' H. unfold call_model in H.
  destruct (f _) as [r0 n]. inversion H; subst. repeat split.
Qed.

Lemma preserves_load_fast {A} name (slot : option A) :
  preserves_models (load_fast name slot).
Proof. destruct slot; [apply preserves_ret | apply preserves_raise]. Qed.

Lemma preserves_assert b : preserves_models (assert b).
Proof. destruct b; [apply preserves_ret | apply preserves_raise]. Qed.

Create HintDb preserves.

#[local] Hint Resolve preserves_ret preserves_raise preserves_lift preserves_get
  preserves_with_rng preserves_call_model preserves_load_fast preserves_assert
  : preserves.

Ltac preserves_steps :=
  repeat first
    [ solve [auto with preserves]
    | apply preserves_bind; [|intros ?]
    | match goal with
      | |- preserves_models (if ?b then _ else _) => destruct b
      | |- preserves_models (match ?x with _ => _ end) => destruct x
      end ].

Lemma preserves_build_models `{Backend} args : preserves_models (build_models args).
Proof. unfold build_models. cbv zeta. preserves_steps. Qed.

Lemma preserves_sample_latent args : preserves_models (sample_latent args).
Proof. unfold sample_latent. preserves_steps. Qed.

Lemma preserves_forward `{Backend} args z dataset :
  preserves_models (forward args z dataset).
Proof. unfold forward. preserves_steps. Qed.

(** ** An unsupported loss variant *)

Lemma make_optimizers_unsupported {S} (loss : string) (s : S) :
  ~ In loss ["dcgan"; "lsgan"; "wgan"; "wgan-gp"] ->
  make_optimizers loss s = (Raise NotImplementedError, s).
Proof.
  intros Hnot. unfold make_optimizers.
  destruct (String.eqb_spec loss "dcgan") as [-> | _];
    [exfalso; apply Hnot; simpl; auto|].
  destruct (String.eqb_spec loss "lsgan") as [-> | _];
    [exfalso; apply Hnot; simpl; auto|].
  destruct (String.eqb_spec loss "wgan") as [-> | _];
    [exfalso; apply Hnot; simpl; auto|].
  destruct (String.eqb_spec loss "wgan-gp") as [-> | _];
    [exfalso; apply Hnot; simpl; auto|].
  reflexivity.
Qed.

(** C10.  When the configured loss variant is none of dcgan, lsgan, wgan,
    wgan-gp, [train] ends in an exception before any training step: no
    variable of any model is updated and no summary is written.  Once the
    file batches are listed and the models are built, the exception is the
    NotImplementedError raised by the optimizer construction. *)
Theorem unsupported_loss_fails_at_startup `{Backend} (fps : list string)
        (args : Args) (w : World) :
  ~ In (wavegan_loss args) ["dcgan"; "lsgan"; "wgan"; "wgan-gp"] ->
  exists e w',
    train fps args w = (Raise e, w')
    /\ same_models w w'
    /\ (generate_file_name_batch fps (train_batch_size args) <> [] ->
        is_ok (fst (build_models args w)) = true ->
        e = NotImplementedError).
Proof.
  intros Hnot. unfold train. cbv zeta.
  destruct (generate_file_name_batch fps (train_batch_size args)) as [|b bs].
  - exists IndexError, w. split; [reflexivity|]. split; [apply same_models_refl|].
    intros Hne. contradiction.
  - unfold bind at 1. cbn [ret].
    unfold bind at 1.
    destruct (build_models args w) as [[u | e] w1] eqn:Hbuild.
    + unfold bind at 1. rewrite (make_optimizers_unsupported _ w1 Hnot).
      exists NotImplementedError, w1. split; [reflexivity|].
      split; [exact (preserves_build_models args _ _ _ Hbuild) | reflexivity].
    + exists e, w1. split; [reflexivity|].
      split; [exact (preserves_build_models args _ _ _ Hbuild)|].
      intros _ Hok. discriminate Hok.
Qed.

(** ** Batch sizes through the networks *)

Lemma post_ret {S A} (a : A) (Q : A -> Prop) : Q a -> post (@ret S A a) Q.
Proof. intros HQ s a' s' H. inversion H; subst. exact HQ. Qed.

Lemma post_bind {S A B} (m : M S A) (k : A -> M S B) (P : A -> Prop)
      (Q : B -> Prop) :
  post m P -> (forall a, P a -> post (k a) Q) -> post (bind m k) Q.
Proof.
  intros Hm Hk s b s'' H. apply bind_ok_inv in H.
  destruct H as (a & s' & Ha & Hb). exact (Hk a (Hm _ _ _ Ha) _ _ _ Hb).
Qed.

Lemma post_true {S A} (m : M S A) : post m (fun _ => True).
Proof. intros s a s' _. exact I. Qed.

Lemma post_Dense units (x : T2) :
  post (keras.Dense units x) (fun out => length out = length x).
Proof.
  unfold keras.Dense. eapply post_bind; [apply post_true|]. intros l _.
  destruct l; apply post_ret; apply length_map.
Qed.

Lemma post_Conv1D f k s b (x : T3) :
  post (keras.Conv1D f k s b x) (fun out => length out = length x).
Proof.
  unfold keras.Conv1D. eapply post_bind; [apply post_true|]. intros l _.
  destruct l; apply post_ret; apply length_map.
Qed.

Lemma post_Conv2DTranspose f k s (x : T3) :
  post (keras.Conv2DTranspose f k s x) (fun out => length out = length x).
Proof.
  unfold keras.Conv2DTranspose. eapply post_bind; [apply post_true|]. intros l _.
  destruct l; apply post_ret; apply length_map.
Qed.

Lemma post_batchnorm (b : bool) (x : T3) :
  post (if b then keras.BatchNormalization x else ret x)
       (fun out => length out = length x).
Proof.
  destruct b; [|apply post_ret; reflexivity].
  unfold keras.BatchNormalization. eapply post_bind; [apply post_true|].
  intros l _. destruct l; apply post_ret; apply length_map.
Qed.

Lemma post_phaseshuffle rad (x : T3) :
  post (if (rad >? 0)%Z then apply_phaseshuffle x rad else ret x)
       (fun out => length out = length x).
Proof.
  destruct (rad >? 0)%Z; [|apply post_ret; reflexivity].
  unfold apply_phaseshuffle. eapply post_bind; [apply post_true|].
  intros phase _. apply post_ret. apply length_map.
Qed.

Lemma post_conv1d_transpose (x : T3) f k s upsample :
  post (conv1d_transpose x f k s upsample) (fun out => length out = length x).
Proof.
  unfold conv1d_transpose.
  destruct (String.eqb upsample "zeros"); [apply post_Conv2DTranspose|].
  destruct (String.eqb upsample "nn"); [|intros s0 a s' H; discriminate H].
  intros s0 a s' H. apply post_Conv1D in H. rewrite H. apply length_map.
Qed.

Ltac post_layer :=
  first [ apply post_Dense | apply post_Conv1D | apply post_Conv2DTranspose
        | apply post_batchnorm | apply post_phaseshuffle
        | apply post_conv1d_transpose ].

Ltac post_chain :=
  repeat (eapply post_bind; [post_layer | intros ? ?]).

Ltac batch_lengths :=
  unfold map3, reshape_frames in *; rewrite ?length_map in *; congruence.

Lemma post_conv_trunk (x : T3) kernel_len dim use_batchnorm phaseshuffle_rad :
  post (conv_trunk x kernel_len dim use_batchnorm phaseshuffle_rad)
       (fun out => length out = length x).
Proof.
  unfold conv_trunk. cbv beta zeta. post_chain.
  eapply post_bind with (P := fun out : T3 => length out = length x).
  - destruct (_ =? 32768)%Z; [|destruct (_ =? 65536)%Z].
    + post_chain. apply post_ret. batch_lengths.
    + post_chain. apply post_ret. batch_lengths.
    + apply post_ret. batch_lengths.
  - intros out Hout. apply post_ret. batch_lengths.
Qed.

Lemma post_WaveGANDiscriminator (x : T3) kernel_len dim use_batchnorm rad :
  post (WaveGANDiscriminator x kernel_len dim use_batchnorm rad)
       (fun out => length out = length x).
Proof.
  unfold WaveGANDiscriminator.
  eapply post_bind; [apply post_conv_trunk | intros t Ht].
  eapply post_bind; [apply post_Dense | intros d Hd].
  apply post_ret. rewrite !length_map. congruence.
Qed.

Lemma post_WaveGANGenerator update_ops (z : T2) slice_len nch kernel_len dim
      use_batchnorm upsample train :
  post (WaveGANGenerator update_ops z slice_len nch kernel_len dim
                         use_batchnorm upsample train)
       (fun out => length out = length z).
Proof.
  unfold WaveGANGenerator. cbv beta zeta.
  eapply post_bind; [apply post_true | intros _ _].
  post_chain.
  eapply post_bind with (P := fun out : T3 => length out = length z).
  - destruct (_ =? 16384)%Z; [|destruct (_ =? 32768)%Z; [|destruct (_ =? 65536)%Z]].
    + post_chain. apply post_ret. batch_lengths.
    + post_chain. apply post_ret. batch_lengths.
    + post_chain. apply post_ret. batch_lengths.
    + apply post_ret. batch_lengths.
  - intros out Hout. eapply post_bind; [apply post_true | intros _ _].
    apply post_ret. exact Hout.
Qed.

Lemma post_generator_model `{Backend} args (z : T2) :
  post (generator_model args z) (fun out => length out = length z).
Proof.
  unfold generator_model.
  eapply post_bind; [apply post_WaveGANGenerator | intros g Hg].
  destruct (wavegan_genr_pp args).
  - intros s a s' Hrun. apply post_Conv1D in Hrun. congruence.
  - apply post_ret. exact Hg.
Qed.

Lemma post_call_model {A} (m : model_id) (f : M Net A) (Q : A -> Prop) :
  post f Q -> post (call_model m f) Q.
Proof.
  intros Hf w a w' H. unfold call_model in H.
  destruct (f _) as [r n] eqn:Hrun. inversion H; subst.
  exact (Hf _ _ _ Hrun).
Qed.

(** ** One training step *)

Lemma train_step_split `{Backend} args opts names steps w :
  train_step args opts names steps w
  = bind (before_loss args names) (from_loss args opts steps) w.
Proof.
  unfold train_step, before_loss, from_loss. cbv zeta. unfold bind.
  destruct (assert _ w) as [[u | e] w1]; [|reflexivity].
  destruct (sample_latent args w1) as [[z | e] w2]; [|reflexivity].
  cbn [get].
  destruct (forward args z _ w2) as [[[[[G_z D_G_z] D_x] Q_G_z] | e] w3];
    reflexivity.
Qed.

Lemma preserves_before_loss `{Backend} args names :
  preserves_models (before_loss args names).
Proof.
  unfold before_loss. cbv zeta.
  apply preserves_bind; [apply preserves_assert | intros _].
  apply preserves_bind; [apply preserves_sample_latent | intros z].
  apply preserves_bind; [apply preserves_get | intros w0].
  apply preserves_bind; [apply preserves_forward | intros r].
  apply preserves_ret.
Qed.

Lemma post_with_rng {A} (m : M Rng A) (Q : A -> Prop) :
  post m Q -> post (with_rng (S := World) m) Q.
Proof.
  intros Hm w a w' H. unfold with_rng in H.
  destruct (m (get_rng w)) as [r g] eqn:Hrun. inversion H; subst.
  exact (Hm _ _ _ Hrun).
Qed.

Lemma post_uniform rows cols lo hi :
  post (random.uniform rows cols lo hi) (fun t => length t = Z.to_nat rows).
Proof.
  intros g t g' H. unfold random.uniform in H.
  destruct (valid_shape [rows; cols]); [|discriminate H].
  apply bind_ok_inv in H. destruct H as (ws & g1 & Hws & H).
  inversion H; subst. rewrite length_map.
  destruct (replicateM_total (fun _ : list Z => True)
              (replicateM (Z.to_nat cols) next_raw)) with
      (n := Z.to_nat rows) (s := g) as (ws' & g2 & Hws' & Hlen & _).
  { intros s.
    destruct (replicateM_total (fun _ => True) next_raw next_raw_total
                               (Z.to_nat cols) s) as (l & s' & Hl & _).
    exists l, s'. split; [exact Hl | exact I]. }
  rewrite Hws in Hws'. inversion Hws'; subst. exact Hlen.
Qed.

Lemma post_bernoulli rows cols p :
  post (random.bernoulli rows cols p) (fun t => length t = Z.to_nat rows).
Proof.
  unfold random.bernoulli.
  eapply post_bind; [apply post_uniform | intros u Hu].
  apply post_ret. rewrite length_map. exact Hu.
Qed.

Lemma post_sample_latent args :
  post (sample_latent args)
       (fun z => length z = Z.to_nat (train_batch_size args)).
Proof.
  unfold sample_latent.
  eapply post_bind; [apply post_with_rng, post_bernoulli | intros categ Hc].
  eapply post_bind; [apply post_with_rng, post_uniform | intros uniform Hu].
  intros w z w' H. unfold lift, tf.concat1 in H.
  destruct (Nat.eqb (length categ) (length uniform)) eqn:Heq;
    inversion H; subst.
  rewrite zipWith_length; [exact Hc | apply Nat.eqb_eq; exact Heq].
Qed.

Lemma post_forward `{Backend} args (z : T2) (dataset : T3) :
  post (forward args z dataset)
       (fun r => let '(G_z, D_G_z, D_x, Q_G_z) := r in
                 length D_G_z = length z /\ length D_x = length dataset).
Proof.
  unfold forward.
  eapply post_bind;
    [apply post_call_model, post_generator_model | intros G_z HG].
  eapply post_bind;
    [apply post_call_model; unfold discriminator_model;
     apply post_WaveGANDiscriminator | intros D_G_z HDG].
  eapply post_bind;
    [apply post_call_model; unfold discriminator_model;
     apply post_WaveGANDiscriminator | intros D_x HDx].
  eapply post_bind; [apply post_true | intros Q_G_z _].
  apply post_ret. split; congruence.
Qed.

Lemma has_shape_length t b l c :
  has_shape t b l c = true -> length t = Z.to_nat b.
Proof.
  unfold has_shape. intros H. apply andb_prop in H. destruct H as [H _].
  apply Z.eqb_eq in H. lia.
Qed.

Lemma post_before_loss `{Backend} args names :
  post (before_loss args names)
       (fun s => let '(dataset, z, tape, (G_z, D_G_z, D_x, Q_G_z)) := s in
                 length D_G_z = Z.to_nat (train_batch_size args)
                 /\ length D_x = Z.to_nat (train_batch_size args)).
Proof.
  unfold before_loss. cbv zeta.
  intros w s w' Hrun.
  apply bind_ok_inv in Hrun. destruct Hrun as (u & w1 & Hassert & Hrun).
  unfold assert in Hassert.
  destruct (has_shape _ _ _ _) eqn:Hshape; [|discriminate Hassert].
  apply has_shape_length in Hshape.
  apply bind_ok_inv in Hrun. destruct Hrun as (z & w2 & Hz & Hrun).
  apply post_sample_latent in Hz.
  apply bind_ok_inv in Hrun. destruct Hrun as (w0 & w3 & _ & Hrun).
  apply bind_ok_inv in Hrun. destruct Hrun as (r & w4 & Hr & Hrun).
  apply post_forward in Hr. inversion Hrun; subst.
  destruct r as [[[G_z D_G_z] D_x] Q_G_z]. destruct Hr as [Hf Hx].
  split; congruence.
Qed.

(** ** The variants other than wgan-gp *)

Lemma ones_length n : length (tf.ones n) = Z.to_nat n.
Proof. apply repeat_length. Qed.

Lemma zeros_length n : length (tf.zeros n) = Z.to_nat n.
Proof. apply repeat_length. Qed.

Lemma compute_loss_without_q_loss args D_G_z D_x x G_z inter tape z Q_G_z w :
  In (wavegan_loss args) ["dcgan"; "lsgan"; "wgan"] ->
  exists e,
    compute_loss args D_G_z D_x x G_z inter tape z Q_G_z w = (Raise e, w)
    /\ (length D_G_z = Z.to_nat (train_batch_size args) ->
        length D_x = Z.to_nat (train_batch_size args) ->
        e = name_resolution_failure (wavegan_loss args)).
Proof.
  intros Hloss. unfold compute_loss, compute_loss_body, name_resolution_failure.
  destruct Hloss as [Hl | [Hl | [Hl | []]]]; rewrite <- Hl; cbn [String.eqb Ascii.eqb Bool.eqb];
    cbv iota.
  - unfold tf.sigmoid_cross_entropy_with_logits, lift, bind.
    rewrite ones_length, zeros_length.
    destruct (Nat.eqb (Z.to_nat (train_batch_size args)) (length D_G_z)) eqn:Ef.
    + destruct (Nat.eqb (Z.to_nat (train_batch_size args)) (length D_x)) eqn:Er.
      * eexists. split; [reflexivity|]. intros _ _. reflexivity.
      * eexists. split; [reflexivity|]. intros _ Hx.
        rewrite Hx, Nat.eqb_refl in Er. discriminate Er.
    + eexists. split; [reflexivity|]. intros Hf _.
      rewrite Hf, Nat.eqb_refl in Ef. discriminate Ef.
  - eexists. split; [reflexivity|]. intros _ _. reflexivity.
  - eexists. split; [reflexivity|]. intros _ _. reflexivity.
Qed.

Lemma step_raises_without_q_loss `{Backend} args opts names steps w :
  In (wavegan_loss args) ["dcgan"; "lsgan"; "wgan"] ->
  exists e w',
    train_step args opts names steps w = (Raise e, w')
    /\ same_models w w'
    /\ (is_ok (fst (before_loss args names w)) = true ->
        e = name_resolution_failure (wavegan_loss args)).
Proof.
  intros Hloss. rewrite train_step_split. unfold bind.
  destruct (before_loss args names w) as [[s | e] w1] eqn:Hbefore.
  - pose proof (preserves_before_loss args names _ _ _ Hbefore) as Hsame.
    pose proof (post_before_loss args names _ _ _ Hbefore) as Hlen.
    destruct s as [[[dataset z] tape] [[[G_z D_G_z] D_x] Q_G_z]].
    destruct Hlen as [Hf Hx]. unfold from_loss, bind.
    destruct (compute_loss_without_q_loss args D_G_z D_x dataset G_z
                inter_discriminator tape z Q_G_z w1 Hloss) as (e & He & Hname).
    rewrite He. exists e, w1. split; [reflexivity|]. split; [exact Hsame|].
    intros _. apply Hname; assumption.
  - exists e, w1. split; [reflexivity|].
    split; [exact (preserves_before_loss args names _ _ _ Hbefore)|].
    intros Hok. discriminate Hok.
Qed.

Lemma make_optimizers_without_q_opt {S} loss (s : S) :
  In loss ["dcgan"; "lsgan"; "wgan"] ->
  exists opts, make_optimizers loss s = (Ok opts, s) /\ Q_opt opts = None.
Proof.
  intros [<- | [<- | [<- | []]]]; eexists; split; reflexivity.
Qed.

Lemma apply_updates_without_q_opt `{Backend} tape opts w :
  Q_opt opts = None ->
  exists w', apply_updates tape opts w = (Raise (UnboundLocalError "Q_opt"), w').
Proof.
  intros HQ. unfold apply_updates, apply_to_model. rewrite HQ.
  unfold bind. cbn [get].
  destruct (apply_gradients (G_opt opts) _) as [G_opt' vals].
  cbn [modify ret].
  destruct (apply_gradients (D_opt opts) _) as [D_opt' vals'].
  cbn [modify ret load_fast raise].
  eexists. reflexivity.
Qed.

(** C5.  For dcgan, lsgan and wgan a training step never completes: it ends
    in an exception and leaves every model and the summaries as they were.
    Once the step gets as far as [compute_loss], the exception is a failure
    of name resolution: [compute_loss] returns the name Q_loss, bound only
    in the wgan-gp branch (UnboundLocalError), and under wgan it reads the
    unbound global D_vars first (NameError).  Besides, Q_opt is not
    constructed for these variants, and applying the updates without it
    fails on the unbound name Q_opt. *)
Theorem step_cannot_complete_without_wgan_gp `{Backend} (args : Args)
        (opts : Optimizers) (names : list string) (steps : Z) (w : World) :
  In (wavegan_loss args) ["dcgan"; "lsgan"; "wgan"] ->
  (exists e w',
      train_step args opts names steps w = (Raise e, w')
      /\ same_models w w'
      /\ (is_ok (fst (before_loss args names w)) = true ->
          e = name_resolution_failure (wavegan_loss args)
          /\ is_name_error e = true))
  /\ (forall D_G_z D_x x G_z tape z Q_G_z w1,
         length D_G_z = Z.to_nat (train_batch_size args) ->
         length D_x = Z.to_nat (train_batch_size args) ->
         compute_loss args D_G_z D_x x G_z inter_discriminator tape z Q_G_z w1
         = (Raise (name_resolution_failure (wavegan_loss args)), w1))
  /\ (exists opts0,
         make_optimizers (wavegan_loss args) w = (Ok opts0, w)
         /\ Q_opt opts0 = None
         /\ forall tape w1, exists w2,
             apply_updates tape opts0 w1
             = (Raise (UnboundLocalError "Q_opt"), w2)).
Proof.
  intros Hloss. split; [|split].
  - destruct (step_raises_without_q_loss args opts names steps w Hloss)
      as (e & w' & Hstep & Hsame & Hname).
    exists e, w'. split; [exact Hstep|]. split; [exact Hsame|].
    intros Hok. split; [exact (Hname Hok)|].
    rewrite (Hname Hok). unfold name_resolution_failure.
    destruct (String.eqb _ _); reflexivity.
  - intros D_G_z D_x x G_z tape z Q_G_z w1 Hf Hx.
    destruct (compute_loss_without_q_loss args D_G_z D_x x G_z
                inter_discriminator tape z Q_G_z w1 Hloss) as (e & He & Hname).
    rewrite He, (Hname Hf Hx). reflexivity.
  - destruct (make_optimizers_without_q_opt (wavegan_loss args) w Hloss)
      as (opts0 & Hmake & HQ).
    exists opts0. split; [exact Hmake|]. split; [exact HQ|].
    intros tape w1. apply apply_updates_without_q_opt. exact HQ.
Qed.

(** ** Weight clipping under wgan *)

Lemma apply_updates_discriminator `{Backend} tape opts w opts' w' :
  apply_updates tape opts w = (Ok opts', w') ->
  D_layers w'
  = assign_variables (D_layers w)
      (snd (apply_gradients (D_opt opts)
              (combine (tape T_D_loss (Variables [D_x_discriminator]))
                       (variables (D_layers w))))).
Proof.
  unfold apply_updates, apply_to_model, bind. cbn [get].
  destruct (apply_gradients (G_opt opts) _) as [G_opt' Gvals].
  cbn [modify ret model_layers set_model_layers D_layers].
  destruct (apply_gradients (D_opt opts) _) as [D_opt' Dvals] eqn:HD.
  cbn [modify ret model_layers set_model_layers D_layers G_layers Q_layers].
  destruct (Q_opt opts) as [q|]; cbn [load_fast ret raise]; [|discriminate].
  destruct (apply_gradients q _) as [Q_opt' Qvals].
  cbn [modify ret set_model_layers D_layers].
  intros Hrun. inversion Hrun; subst. reflexivity.
Qed.

(** C2, what the code does.  Under wgan a step ends in an exception before
    the discriminator's update: the discriminator's variables are left as
    they were, neither updated nor clipped, and once the step reaches
    [compute_loss] the exception is the NameError on D_vars, raised where
    the clip operations were to be built.  And the update itself, for any
    variant, stores what the optimizer returns with no clipping after it. *)
Theorem wgan_update_is_never_clipped `{Backend} (args : Args) (opts : Optimizers)
        (names : list string) (steps : Z) (w : World) :
  wavegan_loss args = "wgan" ->
  (exists e w',
      train_step args opts names steps w = (Raise e, w')
      /\ D_layers w' = D_layers w
      /\ (is_ok (fst (before_loss args names w)) = true ->
          e = NameError "D_vars"))
  /\ (forall tape w1 opts' w2,
         apply_updates tape opts w1 = (Ok opts', w2) ->
         D_layers w2
         = assign_variables (D_layers w1)
             (snd (apply_gradients (D_opt opts)
                     (combine (tape T_D_loss (Variables [D_x_discriminator]))
                              (variables (D_layers w1)))))).
Proof.
  intros Hloss. split.
  - destruct (step_raises_without_q_loss args opts names steps w)
      as (e & w' & Hstep & Hsame & Hname).
    { rewrite Hloss. simpl. auto. }
    exists e, w'. split; [exact Hstep|].
    split; [exact (proj1 (proj2 Hsame))|].
    intros Hok. rewrite (Hname Hok), Hloss. reflexivity.
  - intros tape w1 opts' w2. apply apply_updates_discriminator.
Qed.

(** ** A step reaches [compute_loss] in every supported configuration *)

Lemma total_call_model {A} (m : model_id) (f : M Net A) :
  total f -> total (call_model m f).
Proof.
  intros Hf w. unfold call_model.
  destruct (Hf {| layers := model_layers m w; net_rng := rng w |})
    as (a & n & Hrun).
  rewrite Hrun. eexists _, _. reflexivity.
Qed.

Lemma total_WaveGANQ x kernel_len dim use_batchnorm rad num_categ :
  total (WaveGANQ x kernel_len dim use_batchnorm rad num_categ).
Proof.
  unfold WaveGANQ.
  apply total_bind; [apply total_conv_trunk|]. intros t.
  apply total_bind; [apply total_Dense|]. intros d. apply total_ret.
Qed.

Lemma total_generator_model `{Backend} args z :
  valid_config args -> total (generator_model args z).
Proof.
  intros (Hslice & Hup & Hops & _). unfold generator_model.
  apply total_bind.
  - apply total_WaveGANGenerator; [exact Hslice | exact Hup | exact Hops].
  - intros g. destruct (wavegan_genr_pp args);
      [apply total_Conv1D | apply total_ret].
Qed.

Lemma total_forward `{Backend} args z dataset :
  valid_config args -> total (forward args z dataset).
Proof.
  intros Hvalid. unfold forward.
  apply total_bind; [apply total_call_model, total_generator_model, Hvalid|].
  intros G_z.
  apply total_bind;
    [apply total_call_model; unfold discriminator_model;
     apply total_WaveGANDiscriminator|].
  intros D_G_z.
  apply total_bind;
    [apply total_call_model; unfold discriminator_model;
     apply total_WaveGANDiscriminator|].
  intros D_x.
  apply total_bind;
    [apply total_call_model; unfold q_model; apply total_WaveGANQ|].
  intros Q_G_z. apply total_ret.
Qed.

Lemma before_loss_returns `{Backend} args names w :
  valid_config args ->
  has_shape (decode_extract_and_batch names args) (train_batch_size args)
            (data_slice_len args) (data_num_channels args) = true ->
  is_ok (fst (before_loss args names w)) = true.
Proof.
  intros Hvalid Hshape. unfold before_loss. cbv zeta.
  rewrite Hshape. unfold assert. unfold bind at 1. cbn [ret].
  destruct Hvalid as (Hs & Hu & Ho & HB & HC).
  destruct (sample_latent_total args w HB HC) as (z & w1 & Hz).
  rewrite (bind_ok _ Hz). unfold bind at 1. cbn [get].
  destruct (@total_forward _ args z (decode_extract_and_batch names args)
              (conj Hs (conj Hu (conj Ho (conj HB HC)))) w1)
    as (r & w2 & Hr).
  rewrite (bind_ok _ Hr). reflexivity.
Qed.

Lemma forallb_repeat {A} (f : A -> bool) a n :
  f a = true -> forallb f (repeat a n) = true.
Proof. intros Ha. induction n; simpl; [reflexivity|]. rewrite Ha. exact IHn. Qed.

Lemma has_shape_placeholder3 b l c :
  (0 <= b)%Z -> (0 <= l)%Z -> (0 <= c)%Z ->
  has_shape (placeholder3 b l c) b l c = true.
Proof.
  intros Hb Hl Hc. unfold has_shape, placeholder3.
  rewrite repeat_length, Z2Nat.id, Z.eqb_refl by exact Hb.
  apply forallb_repeat.
  rewrite repeat_length, Z2Nat.id, Z.eqb_refl by exact Hl.
  apply forallb_repeat.
  rewrite repeat_length, Z2Nat.id by exact Hc. apply Z.eqb_refl.
Qed.

Lemma small_config_valid loss pp :
  @valid_config Examples.backend (Examples.small_args loss pp).
Proof.
  repeat split; simpl; try lia; try discriminate.
  - left. reflexivity.
  - left. reflexivity.
Qed.

Lemma small_step_reaches_loss loss pp names w :
  is_ok (fst (@before_loss Examples.backend (Examples.small_args loss pp)
                           names w)) = true.
Proof.
  apply before_loss_returns; [apply small_config_valid|].
  apply has_shape_placeholder3; simpl; lia.
Qed.

Lemma step_cannot_complete_without_wgan_gp_witness :
  exists w',
    @train_step Examples.backend (Examples.small_args "dcgan" false)
                Examples.dcgan_optimizers ["a.wav"] 0 Examples.small_world
    = (Raise (UnboundLocalError "Q_loss"), w')
    /\ same_models Examples.small_world w'.
Proof.
  destruct (proj1 (@step_cannot_complete_without_wgan_gp Examples.backend
                     (Examples.small_args "dcgan" false)
                     Examples.dcgan_optimizers ["a.wav"] 0%Z
                     Examples.small_world (or_introl eq_refl)))
    as (e & w' & Hstep & Hsame & Hname).
  destruct (Hname (small_step_reaches_loss _ _ _ _)) as [He _].
  exists w'. split; [rewrite Hstep, He; reflexivity | exact Hsame].
Defined.

Lemma wgan_update_is_never_clipped_witness :
  exists w',
    @train_step Examples.backend (Examples.small_args "wgan" false)
                Examples.wgan_optimizers ["a.wav"] 0 Examples.small_world
    = (Raise (NameError "D_vars"), w')
    /\ D_layers w' = Examples.small_discriminator_layers 0.5.
Proof.
  destruct (proj1 (@wgan_update_is_never_clipped Examples.backend
                     (Examples.small_args "wgan" false)
                     Examples.wgan_optimizers ["a.wav"] 0%Z
                     Examples.small_world eq_refl))
    as (e & w' & Hstep & HD & Hname).
  exists w'. split; [|exact HD].
  rewrite Hstep, (Hname (small_step_reaches_loss _ _ _ _)). reflexivity.
Defined.

(** ** The gradient penalty *)

Lemma uniform_n11_returns n lo hi g :
  (0 <= n)%Z ->
  exists alpha g',
    random.uniform_n11 n lo hi g = (Ok alpha, g')
    /\ shape_n11 alpha /\ length alpha = Z.to_nat n.
Proof.
  intros Hn. unfold random.uniform_n11, valid_shape. cbn [forallb].
  rewrite (proj2 (Z.leb_le 0 n) Hn). cbn [andb].
  destruct (replicateM_total (fun _ => True) next_raw next_raw_total
                             (Z.to_nat n) g) as (ws & g' & Hws & Hlen & _).
  eexists _, g'. rewrite (bind_ok _ Hws). split; [reflexivity|]. split.
  - apply Forall_map, Forall_forall. intros v _. eexists. reflexivity.
  - rewrite length_map. exact Hlen.
Qed.

(** C1, what the code does.  Under wgan-gp, [compute_loss] returns
    G_loss = -mean(d_fake) and
    D_loss = mean(d_fake) - mean(d_real) + 10 * mean((slopes - 1)^2), where
    slopes is the square root of the sum over axes 1 and 2 of the squared
    tensor g, and g is the first gradient the tape returns for the
    variables of [inter_discriminator] - the gradient with respect to its
    first convolution kernel - and not the gradient with respect to the
    interpolated input, for which the tape is never asked. *)
Theorem gradient_penalty_differentiates_variables (args : Args)
        (D_G_z D_x : T1) (x G_z : T3) (tape : Tape) (z Q_G_z : T2) (w : World)
        (g : T3) (rest : list weight) :
  wavegan_loss args = "wgan-gp" ->
  (0 <= train_batch_size args)%Z ->
  length x = Z.to_nat (train_batch_size args) ->
  same_shape3 x G_z ->
  tf.same_shape2 (tf.take_columns (num_categ args) z)
                 (tf.take_columns (num_categ args) Q_G_z) = true ->
  tape T_D_interp (Variables [inter_discriminator]) = W3 g :: rest ->
  exists Q_loss w',
    compute_loss args D_G_z D_x x G_z inter_discriminator tape z Q_G_z w
    = (Ok (- tf.reduce_mean D_G_z,
           tf.reduce_mean D_G_z - tf.reduce_mean D_x
           + 10 * tf.reduce_mean
                    (map (fun s => (s - 1) ^ 2)
                         (map sqrt (tf.reduce_sum_12 (tf.square3 g)))),
           Q_loss), w').
Proof.
  intros Hloss HB Hlen Hshape Hq Htape.
  unfold compute_loss, compute_loss_body. rewrite Hloss.
  cbn [String.eqb Ascii.eqb Bool.eqb]. cbv iota.
  unfold tf.sigmoid_cross_entropy_with_logits2. rewrite Hq.
  unfold bind, lift. cbv beta iota.
  destruct (uniform_n11_returns (train_batch_size args) 0 1 (rng w) HB)
    as (alpha & g' & Halpha & Hn11 & Hlena).
  rewrite (with_rng_ok w Halpha).
  rewrite (interpolate_same_shape x G_z alpha Hshape Hn11) by congruence.
  match goal with
  | |- context [call_model inter_discriminator ?f ?w1] =>
      destruct (@total_call_model _ inter_discriminator f
                  (total_WaveGANDiscriminator _ _ _ _ _) w1)
        as (D_interp & w2 & Hinterp)
  end.
  unfold discriminator_model in *. rewrite Hinterp, Htape.
  cbn [ret slopes_of load_fast D_G_z_loss D_loss Q_loss].
  eexists _, _. reflexivity.
Qed.

Lemma gradient_penalty_differentiates_variables_witness :
  exists Q_loss w',
    compute_loss (Examples.small_args "wgan-gp" false) [0.5] [0.5]
                 Examples.one_real Examples.one_fake inter_discriminator
                 Examples.kernel_gradient_tape Examples.one_latent
                 Examples.one_code Examples.small_world
    = (Ok (- tf.reduce_mean [0.5],
           tf.reduce_mean [0.5] - tf.reduce_mean [0.5]
           + 10 * tf.reduce_mean
                    (map (fun s => (s - 1) ^ 2)
                         (map sqrt (tf.reduce_sum_12 (tf.square3 [[[3; 4]]])))),
           Q_loss), w').
Proof.
  apply (@gradient_penalty_differentiates_variables
           (Examples.small_args "wgan-gp" false) [0.5] [0.5]
           Examples.one_real Examples.one_fake Examples.kernel_gradient_tape
           Examples.one_latent Examples.one_code Examples.small_world
           [[[3; 4]]] []).
  - reflexivity.
  - simpl. lia.
  - reflexivity.
  - repeat constructor.
  - reflexivity.
  - reflexivity.
Defined.

(** ** Which variables score the interpolates *)

(** [compute_loss] never reads the variables of [D_x_discriminator]:
    replacing them changes neither its result nor what it does to the rest
    of the world. *)
Lemma compute_loss_ignores_discriminator_variables args D_G_z D_x x G_z tape
      z Q_G_z w ls :
  compute_loss args D_G_z D_x x G_z inter_discriminator tape z Q_G_z
               (set_model_layers D_x_discriminator ls w)
  = (fst (compute_loss args D_G_z D_x x G_z inter_discriminator tape z Q_G_z w),
     set_model_layers D_x_discriminator ls
       (snd (compute_loss args D_G_z D_x x G_z inter_discriminator tape z
                          Q_G_z w))).
Proof.
  unfold compute_loss, compute_loss_body.
  destruct (String.eqb (wavegan_loss args) "dcgan").
  { unfold bind, lift.
    repeat match goal with
           | |- context [match ?r with Ok _ => _ | Raise _ => _ end] =>
               destruct r
           end; reflexivity. }
  destruct (String.eqb (wavegan_loss args) "lsgan"); [reflexivity|].
  destruct (String.eqb (wavegan_loss args) "wgan"); [reflexivity|].
  destruct (String.eqb (wavegan_loss args) "wgan-gp"); [|reflexivity].
  unfold bind, lift, with_rng, call_model.
  cbn [get_rng set_rng World_HasRng rng model_layers set_model_layers
       inter_layers].
  destruct (tf.sigmoid_cross_entropy_with_logits2 _ _); [|reflexivity].
  destruct (random.uniform_n11 _ _ _ _) as [[alpha | e] g']; [|reflexivity].
  destruct (interpolate x G_z alpha); [|reflexivity].
  cbn [rng inter_layers].
  destruct (discriminator_model _ _ _) as [[D_interp | e] n]; [|reflexivity].
  destruct (tape T_D_interp _) as [|g0 gs]; [reflexivity|].
  cbn [ret]. destruct (slopes_of g0); reflexivity.
Qed.

Lemma vecmat_zero_kernel row n : vecmat 1 row (repeat [0] n) = [0].
Proof.
  unfold vecmat.
  assert (Hall : Forall (fun p : R * list R => snd p = [0])
                        (combine row (repeat [0] n))).
  { apply Forall_forall. intros [a k] Hin. apply in_combine_r in Hin.
    apply repeat_spec in Hin. exact Hin. }
  induction Hall as [|[a k] pairs Hk _ IH]; cbn [fold_right]; [reflexivity|].
  cbn [snd fst] in *. subst k. rewrite IH. unfold vadd, vscale. simpl.
  f_equal. ring.
Qed.

Lemma dense_zero_scores {B} (t : T2) (x : list B) n b :
  length t = length x ->
  map tf.sigmoid
      (map (fun row : T1 => nth 0 row 0)
           (map (fun row : T1 => vadd (vecmat 1 row (repeat [0] n)) [b]) t))
  = map (fun _ => tf.sigmoid (0 + b)) x.
Proof.
  revert x. induction t as [|row t IH]; intros [|e x] Hlen; simpl in Hlen;
    try discriminate; [reflexivity|].
  cbn [map]. rewrite vecmat_zero_kernel. f_equal.
  apply IH. congruence.
Qed.

Lemma small_discriminator_scores b (x : T3) g :
  Z.of_nat (length (hd [] x)) = 16384%Z ->
  exists net',
    WaveGANDiscriminator x 25 1 false 2
      {| layers := Examples.small_discriminator_layers b; net_rng := g |}
    = (Ok (map (fun _ => tf.sigmoid (0 + b)) x), net').
Proof.
  intros Hslice. unfold WaveGANDiscriminator, conv_trunk. cbv zeta beta.
  rewrite Hslice.
  change (16384 =? 32768)%Z with false. change (16384 =? 65536)%Z with false.
  change (2 >? 0)%Z with true. cbv iota.
  unfold apply_phaseshuffle, random.uniform_int.
  change (Z.ltb (Z.opp 2) (2 + 1)) with true. cbv iota.
  cbv [bind ret keras.Conv1D keras.Dense next_layer layers net_rng with_rng
       get_rng set_rng Net_HasRng next_raw Examples.small_discriminator_layers
       Examples.small_trunk Examples.zero_conv app].
  eexists. apply f_equal2; [apply f_equal | reflexivity].
  change (Z.to_nat 1) with 1%nat.
  change (Examples.zeros2 256 1) with (repeat [0] 256).
  apply dense_zero_scores.
  unfold map3. rewrite !length_map. reflexivity.
Qed.


Lemma sigmoid_injective a b : tf.sigmoid a = tf.sigmoid b -> a = b.
Proof.
  unfold tf.sigmoid, Rdiv. rewrite !Rmult_1_l. intros Heq.
  apply (f_equal Rinv) in Heq. rewrite !Rinv_inv in Heq.
  assert (He : exp (- a) = exp (- b)) by lra.
  apply exp_inv in He. lra.
Qed.

Lemma zero_batch_slice_len :
  Z.of_nat (length (hd [] (placeholder3 1 16384 1))) = 16384%Z.
Proof.
  unfold placeholder3. change (Z.to_nat 1) with 1%nat. cbn [repeat hd].
  rewrite repeat_length. apply Z2Nat.id. lia.
Qed.

(** C4, what the code does.  [compute_loss], which scores the interpolates,
    never reads the variables of [D_x_discriminator], the model that scores
    the real and the fake batch: the interpolates are scored by
    [inter_discriminator], a second model with variables of its own.  In
    the small world, where the two models differ in their dense bias, the
    same batch of zeros gets the score sigmoid(1/2) from the one and
    sigmoid(1) from the other. *)
Theorem interpolates_scored_by_separate_discriminator :
  (forall args D_G_z D_x x G_z tape z Q_G_z w ls,
      compute_loss args D_G_z D_x x G_z inter_discriminator tape z Q_G_z
                   (set_model_layers D_x_discriminator ls w)
      = (fst (compute_loss args D_G_z D_x x G_z inter_discriminator tape z
                           Q_G_z w),
         set_model_layers D_x_discriminator ls
           (snd (compute_loss args D_G_z D_x x G_z inter_discriminator tape z
                              Q_G_z w))))
  /\ (exists w1 w2,
         call_model D_x_discriminator
                    (discriminator_model (Examples.small_args "wgan-gp" false)
                                          (placeholder3 1 16384 1))
                    Examples.small_world
         = (Ok [tf.sigmoid (0 + 0.5)], w1)
         /\ call_model inter_discriminator
                       (discriminator_model (Examples.small_args "wgan-gp" false)
                                             (placeholder3 1 16384 1))
                       Examples.small_world
            = (Ok [tf.sigmoid (0 + 1)], w2)
         /\ tf.sigmoid (0 + 0.5) <> tf.sigmoid (0 + 1)).
Proof.
  split; [exact compute_loss_ignores_discriminator_variables|].
  destruct (small_discriminator_scores 0.5 (placeholder3 1 16384 1)
              (Examples.counter_rng 0) zero_batch_slice_len) as (n1 & H1).
  destruct (small_discriminator_scores 1 (placeholder3 1 16384 1)
              (Examples.counter_rng 0) zero_batch_slice_len) as (n2 & H2).
  eexists _, _. split; [|split].
  - unfold call_model, discriminator_model.
    cbn [model_layers Examples.small_world D_layers rng wavegan_kernel_len
         wavegan_dim wavegan_batchnorm wavegan_disc_phaseshuffle
         Examples.small_args].
    rewrite H1. reflexivity.
  - unfold call_model, discriminator_model.
    cbn [model_layers Examples.small_world inter_layers rng wavegan_kernel_len
         wavegan_dim wavegan_batchnorm wavegan_disc_phaseshuffle
         Examples.small_args].
    rewrite H2. reflexivity.
  - intros Heq. apply sigmoid_injective in Heq. lra.
Qed.

(** ** Runs that return *)

Lemma total_build_models `{Backend} args :
  valid_config args -> total (build_models args).
Proof.
  intros Hvalid. unfold build_models. cbv zeta.
  apply total_bind; [apply total_call_model, total_generator_model, Hvalid|].
  intros _.
  apply total_bind;
    [apply total_call_model; unfold discriminator_model;
     apply total_WaveGANDiscriminator|].
  intros _.
  apply total_bind;
    [apply total_call_model; unfold q_model; apply total_WaveGANQ|].
  intros _.
  apply total_bind;
    [apply total_call_model; unfold discriminator_model;
     apply total_WaveGANDiscriminator|].
  intros _. apply total_ret.
Qed.

(** With Q_opt bound, the three updates are applied and the step goes on
    to write its summaries. *)
Lemma apply_updates_returns `{Backend} tape opts q w :
  Q_opt opts = Some q ->
  exists opts' w', apply_updates tape opts w = (Ok opts', w').
Proof.
  intros HQ. unfold apply_updates, apply_to_model. rewrite HQ.
  unfold bind. cbn [get].
  destruct (apply_gradients (G_opt opts) _) as [G_opt' vals].
  cbn [modify ret].
  destruct (apply_gradients (D_opt opts) _) as [D_opt' vals'].
  cbn [modify ret load_fast get].
  destruct (apply_gradients q _) as [Q_opt' vals''].
  cbn [modify ret]. eexists _, _. reflexivity.
Qed.

(** [compute_loss] asks the tape for gradients with respect to variables
    only: what the tape would answer for a tensor is irrelevant. *)
Lemma compute_loss_asks_for_variable_gradients args D_G_z D_x x G_z inter
      (tape tape' : Tape) z Q_G_z w :
  (forall t ms, tape t (Variables ms) = tape' t (Variables ms)) ->
  compute_loss args D_G_z D_x x G_z inter tape z Q_G_z w
  = compute_loss args D_G_z D_x x G_z inter tape' z Q_G_z w.
Proof.
  intros Hsame. unfold compute_loss, compute_loss_body.
  rewrite (Hsame T_D_interp [inter]). reflexivity.
Qed.

Lemma unsupported_loss_fails_at_startup_witness :
  exists w',
    @train Examples.backend ["a.wav"] (Examples.small_args "hinge" false)
           Examples.small_world = (Raise NotImplementedError, w')
    /\ same_models Examples.small_world w'.
Proof.
  destruct (@unsupported_loss_fails_at_startup Examples.backend
              ["a.wav"] (Examples.small_args "hinge" false)
              Examples.small_world)
    as (e & w' & Htrain & Hsame & He).
  { simpl. intros [H | [H | [H | [H | []]]]]; discriminate H. }
  exists w'. split; [|exact Hsame].
  rewrite Htrain, He; [reflexivity | discriminate |].
  destruct (@total_build_models Examples.backend
              (Examples.small_args "hinge" false)
              (small_config_valid "hinge" false) Examples.small_world)
    as (u & w1 & Hbuild).
  rewrite Hbuild. reflexivity.
Defined.

(** * Further properties of the two files *)

(** ** The shape of the generator's output and its failures *)

Lemma frames_map_map (f : T1 -> T1) n t :
  frames n t -> frames n (map (map f) t).
Proof.
  unfold frames. intros H. apply Forall_map.
  eapply Forall_impl; [|exact H]. intros ex Hex. cbn beta.
  rewrite length_map. exact Hex.
Qed.

Lemma frames_map3 f n t : frames n t -> frames n (map3 f t).
Proof. unfold map3. apply frames_map_map. Qed.

Lemma frames_reshape n c t : (0 <= n)%Z -> frames n (reshape_frames n c t).
Proof.
  intros Hn. unfold frames, reshape_frames. apply Forall_map, Forall_forall.
  intros row _. rewrite length_map, length_seq. apply Z2Nat.id, Hn.
Qed.

Lemma post_frames_batchnorm (b : bool) n (x : T3) :
  frames n x ->
  post (if b then keras.BatchNormalization x else ret x) (frames n).
Proof.
  intros Hx. destruct b; [|apply post_ret; exact Hx].
  unfold keras.BatchNormalization. eapply post_bind; [apply post_true|].
  intros l _. destruct l; apply post_ret; apply frames_map_map, Hx.
Qed.

Lemma length_resize_nearest s (x : T2) :
  length (resize_nearest s x) = (length x * Z.to_nat s)%nat.
Proof.
  unfold resize_nearest. induction x as [|fr x IH]; [reflexivity|].
  cbn [flat_map]. rewrite length_app, repeat_length, IH. simpl. lia.
Qed.

Lemma length_conv1d_example_unit f k kernel b (x : T2) :
  length (keras.conv1d_example f k 1 kernel b x) = length x.
Proof.
  unfold keras.conv1d_example. rewrite length_map, length_seq.
  rewrite Nat.div_1_r. lia.
Qed.

Lemma length_conv1d_transpose_example f k s kernel b (x : T2) :
  length (keras.conv1d_transpose_example f k s kernel b x)
  = (length x * s)%nat.
Proof.
  unfold keras.conv1d_transpose_example. rewrite length_map, length_seq.
  reflexivity.
Qed.

(** Upsampling multiplies the number of frames by the stride, in both
    modes. *)
Lemma post_frames_conv1d_transpose (x : T3) n f k s upsample :
  (0 <= s)%Z -> frames n x ->
  post (conv1d_transpose x f k s upsample) (frames (n * s)).
Proof.
  intros Hs Hx. unfold conv1d_transpose.
  destruct (String.eqb upsample "zeros").
  - unfold keras.Conv2DTranspose. eapply post_bind; [apply post_true|].
    intros l _. destruct l; apply post_ret; unfold frames in *;
      apply Forall_map; (eapply Forall_impl; [|exact Hx]); intros ex Hex;
      cbn beta; rewrite length_conv1d_transpose_example, Nat2Z.inj_mul,
        Z2Nat.id, Hex by exact Hs; reflexivity.
  - destruct (String.eqb upsample "nn"); [|intros s0 a s' H; discriminate H].
    unfold keras.Conv1D. eapply post_bind; [apply post_true|].
    intros l _. destruct l; apply post_ret; unfold frames in *;
      apply Forall_map, Forall_map; (eapply Forall_impl; [|exact Hx]);
      intros ex Hex; cbn beta; change (Z.to_nat 1) with 1%nat;
      rewrite length_conv1d_example_unit, length_resize_nearest,
        Nat2Z.inj_mul, Z2Nat.id, Hex by exact Hs; reflexivity.
Qed.

Lemma post_conj {S A} (m : M S A) (P Q : A -> Prop) :
  post m P -> post m Q -> post m (fun a => P a /\ Q a).
Proof. intros HP HQ s a s' H. split; [exact (HP _ _ _ H) | exact (HQ _ _ _ H)]. Qed.

Ltac frames_fact := first [eassumption | apply frames_map3; eassumption].

Ltac frames_layer :=
  first [ apply post_frames_batchnorm; frames_fact
        | apply post_frames_conv1d_transpose; [lia | frames_fact] ].

Ltac frames_chain := repeat (eapply post_bind; [frames_layer | intros ? ?]).

Lemma post_frames_WaveGANGenerator update_ops (z : T2) slice_len nch kernel_len
      dim use_batchnorm upsample train :
  post (WaveGANGenerator update_ops z slice_len nch kernel_len dim
                         use_batchnorm upsample train)
       (frames slice_len).
Proof.
  unfold WaveGANGenerator. cbv beta zeta.
  intros s out s' H.
  apply bind_ok_inv in H. destruct H as (u & n0 & Hassert & H).
  unfold assert in Hassert.
  destruct (existsb (Z.eqb slice_len) [16384; 32768; 65536]%Z) eqn:Hslice;
    [|discriminate Hassert].
  clear Hassert. revert H. generalize n0 out s'.
  match goal with |- forall n o s1, ?m n = (Ok o, s1) -> _ =>
    change (post m (frames slice_len)) end.
  eapply post_bind; [apply post_true | intros d _].
  pose proof (frames_reshape 16 (dim * (if (slice_len =? 16384)%Z then 16 else 32)) d
                ltac:(lia)) as H0.
  frames_chain.
  eapply post_bind with (P := frames slice_len).
  - cbn [existsb] in Hslice.
    destruct (slice_len =? 16384)%Z eqn:E1.
    + apply Z.eqb_eq in E1. frames_chain.
      apply post_ret. apply frames_map3. rewrite E1. assumption.
    + destruct (slice_len =? 32768)%Z eqn:E2.
      * apply Z.eqb_eq in E2. frames_chain.
        apply post_ret. apply frames_map3. rewrite E2. assumption.
      * destruct (slice_len =? 65536)%Z eqn:E3; [|discriminate Hslice].
        apply Z.eqb_eq in E3. frames_chain.
        apply post_ret. apply frames_map3. rewrite E3. assumption.
  - intros o Ho. eapply post_bind; [apply post_true | intros _ _].
    apply post_ret. exact Ho.
Qed.

Lemma raises_bind_later {S A B} (m : M S A) (k : A -> M S B) e :
  total m -> (forall a, raises (k a) e) -> raises (bind m k) e.
Proof.
  intros Hm Hk s. destruct (Hm s) as (a & s1 & Hrun).
  rewrite (bind_ok _ Hrun). apply Hk.
Qed.

Lemma raises_bind_now {S A B} (m : M S A) (k : A -> M S B) e :
  raises m e -> raises (bind m k) e.
Proof.
  intros Hm s. destruct (Hm s) as (s1 & Hrun).
  rewrite (bind_raise _ Hrun). eexists. reflexivity.
Qed.

Lemma total_batchnorm (b : bool) (x : T3) :
  total (if b then keras.BatchNormalization x else ret x).
Proof. destruct b; [apply total_BatchNormalization | apply total_ret]. Qed.

Lemma raises_conv1d_transpose inputs f k s upsample :
  upsample <> "zeros" -> upsample <> "nn" ->
  raises (conv1d_transpose inputs f k s upsample) NotImplementedError.
Proof.
  intros Hz Hn. unfold conv1d_transpose.
  apply String.eqb_neq in Hz, Hn. rewrite Hz, Hn.
  intros s0. eexists. reflexivity.
Qed.

Lemma post_frames_Conv1D_unit f k b n (x : T3) :
  frames n x -> post (keras.Conv1D f k 1 b x) (frames n).
Proof.
  intros Hx. unfold keras.Conv1D. eapply post_bind; [apply post_true|].
  intros l _. destruct l; apply post_ret; unfold frames in *;
    apply Forall_map; (eapply Forall_impl; [|exact Hx]); intros ex Hex;
    cbn beta; change (Z.to_nat 1) with 1%nat;
    rewrite length_conv1d_example_unit; exact Hex.
Qed.

(** X1.  The generator model of [train] (the generator, followed by the
    post-processing filter when it is enabled) returns one example per
    latent row and data_slice_len frames per example, for each of the three
    slice lengths, both upsampling modes and every value of its variables:
    the five or six upsampling layers take the 16 frames of the dense layer
    to exactly 16384, 32768 or 65536. *)
Theorem generator_output_shape `{Backend} (args : Args) (z : T2) (net : Net) :
  valid_slice_len (data_slice_len args) ->
  wavegan_genr_upsample args = "zeros" \/ wavegan_genr_upsample args = "nn" ->
  (wavegan_batchnorm args = true ->
   update_ops = expected_update_ops (data_slice_len args)) ->
  exists out net',
    generator_model args z net = (Ok out, net')
    /\ length out = length z
    /\ frames (data_slice_len args) out.
Proof.
  intros Hslice Hup Hops.
  assert (Htotal : total (generator_model args z)).
  { unfold generator_model. apply total_bind.
    - apply total_WaveGANGenerator; [exact Hslice | exact Hup | exact Hops].
    - intros g. destruct (wavegan_genr_pp args);
        [apply total_Conv1D | apply total_ret]. }
  destruct (Htotal net) as (out & net' & Hrun).
  exists out, net'. split; [exact Hrun|]. split.
  - exact (post_generator_model args z _ _ _ Hrun).
  - revert Hrun. generalize net out net'.
    change (post (generator_model args z) (frames (data_slice_len args))).
    unfold generator_model.
    eapply post_bind; [apply post_frames_WaveGANGenerator | intros g Hg].
    destruct (wavegan_genr_pp args).
    + apply post_frames_Conv1D_unit. exact Hg.
    + apply post_ret. exact Hg.
Qed.

Lemma generator_output_shape_witness :
  exists out net',
    @generator_model Examples.backend (Examples.small_args "wgan-gp" true)
                     Examples.zero_latent Examples.pp_net = (Ok out, net')
    /\ length out = 1%nat
    /\ frames 16384 out.
Proof.
  apply (@generator_output_shape Examples.backend
           (Examples.small_args "wgan-gp" true) Examples.zero_latent
           Examples.pp_net).
  - left. reflexivity.
  - left. reflexivity.
  - intros Hbn. discriminate Hbn.
Defined.

(** X2.  The three failures of [WaveGANGenerator].  A slice length other
    than 16384, 32768 and 65536 is an AssertionError before any layer is
    used, whatever the other arguments.  With a supported slice length and
    arguments the layers accept, an upsampling mode other than zeros and nn
    is a NotImplementedError, raised by the first upsampling layer; and a
    training-mode call with batch normalisation ends in an AssertionError
    when the number of update operations is not the expected one (10 for
    16384, else 12). *)
Theorem generator_failure_modes (update_ops : nat) (z : T2)
        (slice_len nch kernel_len dim : Z) (use_batchnorm : bool)
        (upsample : string) (train : bool) (net : Net) :
  let G := WaveGANGenerator update_ops z slice_len nch kernel_len dim
                            use_batchnorm upsample train in
  (~ valid_slice_len slice_len -> G net = (Raise AssertionError, net))
  /\ (valid_slice_len slice_len ->
      generator_arguments_ok z nch kernel_len dim ->
      upsample <> "zeros" -> upsample <> "nn" ->
      exists net', G net = (Raise NotImplementedError, net'))
  /\ (valid_slice_len slice_len ->
      generator_arguments_ok z nch kernel_len dim ->
      upsample = "zeros" \/ upsample = "nn" ->
      train = true -> use_batchnorm = true ->
      update_ops <> expected_update_ops slice_len ->
      exists net', G net = (Raise AssertionError, net')).
Proof.
  cbv zeta. split; [|split].
  - intros Hbad. unfold WaveGANGenerator.
    assert (Hex : existsb (Z.eqb slice_len) [16384; 32768; 65536]%Z = false).
    { cbn [existsb]. unfold valid_slice_len in Hbad.
      destruct (Z.eqb_spec slice_len 16384); [tauto|].
      destruct (Z.eqb_spec slice_len 32768); [tauto|].
      destruct (Z.eqb_spec slice_len 65536); [tauto|]. reflexivity. }
    rewrite Hex. reflexivity.
  - intros Hslice _ Hz Hn.
    assert (Hraise : raises (WaveGANGenerator update_ops z slice_len nch
                               kernel_len dim use_batchnorm upsample train)
                            NotImplementedError).
    { unfold WaveGANGenerator. cbv beta zeta.
      assert (Hex : existsb (Z.eqb slice_len) [16384; 32768; 65536]%Z = true)
        by (destruct Hslice as [-> | [-> | ->]]; reflexivity).
      rewrite Hex. unfold assert.
      apply raises_bind_later; [apply total_ret | intros _].
      apply raises_bind_later; [apply total_Dense | intros d].
      apply raises_bind_later; [apply total_batchnorm | intros o].
      apply raises_bind_now. apply raises_conv1d_transpose; assumption. }
    exact (Hraise net).
  - intros Hslice _ Hup -> -> Hops.
    assert (Hraise : raises (WaveGANGenerator update_ops z slice_len nch
                               kernel_len dim true upsample true)
                            AssertionError).
    { unfold WaveGANGenerator, expected_update_ops in *. cbv beta zeta.
      apply Nat.eqb_neq in Hops.
      destruct Hslice as [-> | [-> | ->]];
        cbn [existsb Z.eqb Pos.eqb orb andb] in *; cbv iota;
        unfold assert at 1;
        repeat (apply raises_bind_later; [solve [total_steps] | intros ?]);
        apply raises_bind_now; rewrite Hops;
        intros s0; eexists; reflexivity. }
    exact (Hraise net).
Qed.

Lemma generator_failure_modes_witness :
  WaveGANGenerator 10 Examples.zero_latent 16000 1 25 1 false "zeros" true
                   Examples.small_net
  = (Raise AssertionError, Examples.small_net)
  /\ (exists net',
        WaveGANGenerator 10 Examples.zero_latent 16384 1 25 1 false "linear"
                         true Examples.small_net
        = (Raise NotImplementedError, net'))
  /\ (exists net',
        WaveGANGenerator 0 Examples.zero_latent 16384 1 25 1 true "zeros" true
                         Examples.small_net
        = (Raise AssertionError, net')).
Proof.
  assert (Hargs : generator_arguments_ok Examples.zero_latent 1 25 1).
  { repeat split; try lia; [discriminate|].
    repeat constructor; discriminate. }
  split; [|split].
  - apply (proj1 (generator_failure_modes 10 Examples.zero_latent 16000 1 25 1
                    false "zeros" true Examples.small_net)).
    intros [H | [H | H]]; discriminate H.
  - apply (proj1 (proj2 (generator_failure_modes 10 Examples.zero_latent 16384
                           1 25 1 false "linear" true Examples.small_net)));
      [left; reflexivity | exact Hargs | discriminate | discriminate].
  - apply (proj2 (proj2 (generator_failure_modes 0 Examples.zero_latent 16384
                           1 25 1 true "zeros" true Examples.small_net)));
      [left; reflexivity | exact Hargs | left; reflexivity | reflexivity
      | reflexivity | discriminate].
Defined.

(** ** The code predictor, the activation and phase shuffle *)

(** X3.  On a batch of the configured shape, with a supported slice length
    and arguments its layers accept, the code predictor returns, for every
    value of its variables, one row per example, and every entry of it is a
    sigmoid: strictly between 0 and 1. *)
Theorem q_network_output_is_squashed (args : Args) (x : T3) (net : Net) :
  trunk_arguments_ok args x ->
  (0 < num_categ args)%Z ->
  exists out net',
    q_model args x net = (Ok out, net')
    /\ Z.of_nat (length out) = train_batch_size args
    /\ Forall (Forall (fun v => 0 < v < 1)) out.
Proof.
  intros (_ & HB & _ & Hshape & _) _.
  unfold q_model, WaveGANQ.
  destruct (total_conv_trunk x (wavegan_kernel_len args) (wavegan_dim args)
              (wavegan_batchnorm args) (wavegan_disc_phaseshuffle args) net)
    as (t & n1 & Htrunk).
  destruct (total_Dense (num_categ args) t n1) as (d & n2 & Hdense).
  exists (map (map tf.sigmoid) d), n2.
  rewrite (bind_ok _ Htrunk), (bind_ok _ Hdense). split; [reflexivity|].
  split.
  - rewrite length_map.
    rewrite (post_Dense _ _ _ _ _ Hdense).
    rewrite (post_conv_trunk _ _ _ _ _ _ _ _ Htrunk).
    unfold has_shape in Hshape. apply andb_prop in Hshape.
    apply Z.eqb_eq, (proj1 Hshape).
  - apply Forall_map, Forall_forall. intros row _.
    apply Forall_map, Forall_forall. intros v _. apply sigmoid_range.
Qed.

Lemma q_network_output_is_squashed_witness :
  exists out net',
    q_model (Examples.small_args "wgan-gp" false) (placeholder3 1 16384 1)
            {| layers := Examples.small_q_layers;
               net_rng := Examples.counter_rng 0 |}
    = (Ok out, net')
    /\ Z.of_nat (length out) = 1%Z
    /\ Forall (Forall (fun v => 0 < v < 1)) out.
Proof.
  apply (q_network_output_is_squashed (Examples.small_args "wgan-gp" false)
           (placeholder3 1 16384 1)
           {| layers := Examples.small_q_layers;
              net_rng := Examples.counter_rng 0 |}).
  - unfold trunk_arguments_ok.
    cbn [Examples.small_args train_batch_size data_slice_len data_num_channels
         wavegan_kernel_len wavegan_dim wavegan_disc_phaseshuffle].
    split; [left; reflexivity|]. split; [lia|]. split; [lia|].
    split; [apply has_shape_placeholder3; lia|]. lia.
  - simpl. lia.
Defined.

(** X4.  [lrelu] is the identity on non-negative inputs and multiplies
    negative inputs by 0.2; it is strictly increasing. *)
Theorem lrelu_is_leaky_identity (x y : R) :
  (0 <= x -> lrelu x = x)
  /\ (x <= 0 -> lrelu x = 0.2 * x)
  /\ (x < y -> lrelu x < lrelu y).
Proof.
  unfold lrelu, tf.maximum. split; [|split].
  - intros Hx. apply Rmax_right. lra.
  - intros Hx. apply Rmax_left. lra.
  - intros Hxy. unfold Rmax.
    destruct (Rle_dec (0.2 * x) x), (Rle_dec (0.2 * y) y); lra.
Qed.

Lemma nth_firstn_lt {A} (l : list A) n t d :
  (t < n)%nat -> nth t (firstn n l) d = nth t l d.
Proof.
  revert n t. induction l as [|a l IH]; intros [|n] [|t] Ht; simpl;
    try reflexivity; try lia.
  apply IH. lia.
Qed.

Lemma nth_skipn_add {A} (l : list A) n t d :
  nth t (skipn n l) d = nth (n + t) l d.
Proof.
  revert l. induction n as [|n IH]; intros [|a l]; simpl; try reflexivity.
  - destruct t; reflexivity.
  - apply IH.
Qed.

(** One example shifted by [phase], as [apply_phaseshuffle] computes it. *)
Lemma shifted_example (ex : T2) (phase : Z) :
  (Z.abs phase < Z.of_nat (length ex))%Z ->
  let out :=
    firstn (length ex)
           (skipn (Z.to_nat (Z.max (- phase) 0))
                  (reflect_pad (Z.to_nat (Z.max phase 0))
                               (Z.to_nat (Z.max (- phase) 0)) ex)) in
  length out = length ex
  /\ forall t, (t < length ex)%nat ->
               nth t out [] = nth (reflect_index (length ex) (Z.of_nat t - phase)) ex [].
Proof.
  intros Hphase. cbv zeta. unfold reflect_pad, reflect_index.
  destruct (Z.le_gt_cases 0 phase) as [Hpos | Hneg].
  - (* a shift to the right: the left end is mirrored *)
    rewrite (Z.max_l phase 0), (Z.max_r (- phase) 0) by lia.
    change (Z.to_nat 0) with 0%nat. rewrite firstn_O, skipn_O, app_nil_r.
    remember (Z.to_nat phase) as p eqn:Hpd.
    assert (Hp : (p < length ex)%nat) by lia.
    assert (Hlen : length (rev (firstn p (skipn 1 ex))) = p).
    { rewrite length_rev, length_firstn, length_skipn. lia. }
    split.
    + rewrite length_firstn, length_app, Hlen. lia.
    + intros t Ht. rewrite nth_firstn_lt by exact Ht.
      destruct (Z.ltb_spec (Z.of_nat t - phase) 0) as [Hlt | Hge].
      * rewrite app_nth1 by (rewrite Hlen; lia).
        rewrite length_rev in Hlen.
        rewrite rev_nth by (rewrite Hlen; lia).
        rewrite Hlen, nth_firstn_lt by lia. rewrite nth_skipn_add.
        f_equal. lia.
      * destruct (Z.ltb_spec (Z.of_nat t - phase) (Z.of_nat (length ex)));
          [|lia].
        rewrite app_nth2 by (rewrite Hlen; lia). rewrite Hlen. f_equal. lia.
  - (* a shift to the left: the right end is mirrored *)
    rewrite (Z.max_r phase 0), (Z.max_l (- phase) 0) by lia.
    change (Z.to_nat 0) with 0%nat. rewrite firstn_O. cbn [rev app].
    remember (Z.to_nat (- phase)) as q eqn:Hqd.
    assert (Hq : (0 < q < length ex)%nat) by lia.
    assert (Hlen : length (firstn q (skipn 1 (rev ex))) = q).
    { rewrite length_firstn, length_skipn, length_rev. lia. }
    split.
    + rewrite length_firstn, length_skipn, length_app, Hlen. lia.
    + intros t Ht.
      rewrite nth_firstn_lt by exact Ht. rewrite nth_skipn_add.
      destruct (Z.ltb_spec (Z.of_nat t - phase) 0) as [Hlt | Hge]; [lia|].
      destruct (Z.ltb_spec (Z.of_nat t - phase) (Z.of_nat (length ex)))
        as [Hin | Hout].
      * rewrite app_nth1 by lia. f_equal. lia.
      * rewrite app_nth2 by lia.
        rewrite nth_firstn_lt by lia. rewrite nth_skipn_add.
        rewrite rev_nth by lia. f_equal. lia.
Qed.

(** X5.  Phase shuffle with radius rad, on examples of more than rad
    frames, draws one phase in [-rad, rad] for the whole batch, uses no
    layer, and returns every example with its length unchanged and shifted
    by the phase: output frame t is input frame t - phase, mirrored at the
    two ends of the example. *)
Theorem phaseshuffle_shifts_with_reflection (x : T3) (rad : Z) (net : Net) :
  (0 <= rad)%Z ->
  Forall (fun ex => (rad < Z.of_nat (length ex))%Z) x ->
  exists phase out net',
    apply_phaseshuffle x rad net = (Ok out, net')
    /\ layers net' = layers net
    /\ (- rad <= phase <= rad)%Z
    /\ Forall2 (fun ex o =>
                  length o = length ex
                  /\ forall t, (t < length ex)%nat ->
                       nth t o []
                       = nth (reflect_index (length ex) (Z.of_nat t - phase))
                             ex []) x out.
Proof.
  intros Hrad Hlen. unfold apply_phaseshuffle, random.uniform_int.
  destruct (Z.ltb_spec (- rad) (rad + 1)) as [_ | Hbad]; [|lia].
  unfold with_rng, bind, next_raw, ret.
  cbn [get_rng set_rng Net_HasRng layers].
  set (w := raw (net_rng net) (cursor (net_rng net))).
  set (phase := (- rad + w mod (rad + 1 - - rad))%Z).
  assert (Hphase : (- rad <= phase <= rad)%Z).
  { subst phase. pose proof (Z.mod_pos_bound w (rad + 1 - - rad)). lia. }
  exists phase. eexists _, _. split; [reflexivity|].
  split; [reflexivity|]. split; [exact Hphase|].
  induction Hlen as [|ex x Hex _ IH]; cbn [map]; constructor; [|exact IH].
  apply shifted_example. lia.
Qed.

Lemma phaseshuffle_shifts_with_reflection_witness :
  exists phase out net',
    apply_phaseshuffle [[[1]; [2]; [3]; [4]]] 2
                       {| layers := []; net_rng := Examples.counter_rng 0 |}
    = (Ok out, net')
    /\ layers net' = []
    /\ (- 2 <= phase <= 2)%Z
    /\ Forall2 (fun ex o =>
                  length o = length ex
                  /\ forall t, (t < length ex)%nat ->
                       nth t o []
                       = nth (reflect_index (length ex) (Z.of_nat t - phase))
                             ex []) [[[1]; [2]; [3]; [4]]] out.
Proof.
  apply (phaseshuffle_shifts_with_reflection
           [[[1]; [2]; [3]; [4]]] 2
           {| layers := []; net_rng := Examples.counter_rng 0 |}).
  - lia.
  - repeat constructor.
Defined.

(** ** Edges of the training driver *)

(** The shape assertion opens the step: when it fails nothing else has
    happened. *)
Lemma step_stops_at_shape_assertion `{Backend} args opts names steps w :
  has_shape (decode_extract_and_batch names args) (train_batch_size args)
            (data_slice_len args) (data_num_channels args) = false ->
  train_step args opts names steps w = (Raise AssertionError, w).
Proof.
  intros Hshape. unfold train_step. cbv zeta. rewrite Hshape. reflexivity.
Qed.

Lemma keeps_of_preserves {A} (m : M World A) :
  preserves_models m -> keeps_inter m.
Proof. intros Hm w r w' Hrun. exact (proj1 (proj2 (proj2 (proj2 (Hm _ _ _ Hrun))))). Qed.

Lemma keeps_bind {A B} (m : M World A) (k : A -> M World B) :
  keeps_inter m -> (forall a, keeps_inter (k a)) -> keeps_inter (bind m k).
Proof.
  intros Hm Hk w r w' Hrun. unfold bind in Hrun.
  destruct (m w) as [[a | e] w1] eqn:Hmw.
  - rewrite (Hk a _ _ _ Hrun). exact (Hm _ _ _ Hmw).
  - inversion Hrun; subst. exact (Hm _ _ _ Hmw).
Qed.

Lemma keeps_foldM {A B} (f : A -> B -> M World A) l :
  (forall a b, keeps_inter (f a b)) -> forall a, keeps_inter (foldM f a l).
Proof.
  intros Hf. induction l as [|b l IH]; intros a; cbn [foldM].
  - apply keeps_of_preserves, preserves_ret.
  - apply keeps_bind; [apply Hf | exact IH].
Qed.

Lemma preserves_compute_loss args D_G_z D_x x G_z inter tape z Q_G_z :
  preserves_models (compute_loss args D_G_z D_x x G_z inter tape z Q_G_z).
Proof.
  unfold compute_loss. apply preserves_bind.
  - unfold compute_loss_body.
    destruct (String.eqb (wavegan_loss args) "dcgan"); [preserves_steps|].
    destruct (String.eqb (wavegan_loss args) "lsgan"); [preserves_steps|].
    destruct (String.eqb (wavegan_loss args) "wgan").
    { intros w r w' Hrun. inversion Hrun; subst. apply same_models_refl. }
    destruct (String.eqb (wavegan_loss args) "wgan-gp"); preserves_steps.
  - intros l. preserves_steps.
Qed.

Lemma keeps_apply_updates `{Backend} tape opts : keeps_inter (apply_updates tape opts).
Proof.
  intros w r w'. unfold apply_updates, apply_to_model, bind. cbn [get].
  destruct (apply_gradients (G_opt opts) _) as [G_opt' Gvals].
  cbn [modify ret model_layers set_model_layers].
  destruct (apply_gradients (D_opt opts) _) as [D_opt' Dvals].
  cbn [modify ret model_layers set_model_layers].
  destruct (Q_opt opts) as [q|]; cbn [load_fast ret raise].
  - destruct (apply_gradients q _) as [Q_opt' Qvals].
    cbn [modify ret set_model_layers]. intros Hrun. inversion Hrun; subst.
    reflexivity.
  - intros Hrun. inversion Hrun; subst. reflexivity.
Qed.

Lemma keeps_add_summary name v i : keeps_inter (add_summary name v i).
Proof. intros w r w' Hrun. inversion Hrun; subst. reflexivity. Qed.

Lemma keeps_train_step `{Backend} args opts names steps :
  keeps_inter (train_step args opts names steps).
Proof.
  intros w r w' Hrun. rewrite train_step_split in Hrun. revert w r w' Hrun.
  change (keeps_inter (bind (before_loss args names) (from_loss args opts steps))).
  apply keeps_bind; [apply keeps_of_preserves, preserves_before_loss|].
  intros [[[dataset z] tape] [[[G_z D_G_z] D_x] Q_G_z]]. unfold from_loss.
  apply keeps_bind; [apply keeps_of_preserves, preserves_compute_loss|].
  intros [[g d] q].
  apply keeps_bind; [apply keeps_apply_updates | intros opts'].
  repeat (apply keeps_bind; [apply keeps_add_summary | intros _]).
  apply keeps_of_preserves, preserves_ret.
Qed.

Lemma keeps_train_batch `{Backend} args batches epoch a b :
  keeps_inter (train_batch args batches epoch a b).
Proof.
  destruct b as [batch names]. unfold train_batch.
  apply keeps_bind; [apply keeps_train_step | intros [opts' G_z]].
  apply keeps_of_preserves, preserves_ret.
Qed.

Lemma keeps_end_of_epoch args locals : keeps_inter (end_of_epoch args locals).
Proof.
  unfold end_of_epoch.
  apply keeps_bind; [apply keeps_of_preserves, preserves_load_fast | intros steps].
  apply keeps_bind; [apply keeps_of_preserves, preserves_load_fast | intros G_z].
  repeat (apply keeps_bind;
          [intros w r w' Hrun; inversion Hrun; subst; reflexivity | intros _]).
  intros w r w' Hrun. inversion Hrun; subst. reflexivity.
Qed.

(** X6.  Whatever the configuration, the loader and the optimizer, and
    however the run ends, [train] leaves the variables of
    [inter_discriminator], the model that scores the interpolates, as they
    were: no optimizer is ever applied to them. *)
Theorem inter_discriminator_is_never_trained `{Backend} (fps : list string)
        (args : Args) (w : World) :
  inter_layers (snd (train fps args w)) = inter_layers w.
Proof.
  destruct (train fps args w) as [r w'] eqn:Hrun. cbn [snd].
  revert w r w' Hrun. change (keeps_inter (train fps args)).
  unfold train. cbv zeta.
  apply keeps_bind.
  { destruct (generate_file_name_batch fps (train_batch_size args));
      apply keeps_of_preserves; [apply preserves_raise | apply preserves_ret]. }
  intros _.
  apply keeps_bind; [apply keeps_of_preserves, preserves_build_models | intros _].
  apply keeps_bind.
  { apply keeps_of_preserves. intros w0 r w1 Hrun.
    unfold make_optimizers in Hrun.
    repeat match type of Hrun with
           | (if ?b then _ else _) _ = _ => destruct b
           end; inversion Hrun; subst; apply same_models_refl. }
  intros opts.
  apply keeps_bind; [|intros _; apply keeps_of_preserves, preserves_ret].
  apply keeps_foldM. intros a epoch.
  apply keeps_bind; [apply keeps_foldM; intros a1 b; apply keeps_train_batch|].
  intros a1.
  apply keeps_bind; [apply keeps_end_of_epoch | intros _].
  apply keeps_of_preserves, preserves_ret.
Qed.

Lemma make_optimizers_supported {S} loss (s : S) :
  In loss ["dcgan"; "lsgan"; "wgan"; "wgan-gp"] ->
  exists opts, make_optimizers loss s = (Ok opts, s).
Proof.
  intros [<- | [<- | [<- | [<- | []]]]]; eexists; reflexivity.
Qed.

(** X7.  When the loader yields no batch, [train] raises IndexError at
    once, the world untouched: it reads the first batch before it builds
    anything.  When there is a batch, the configuration is one the models
    accept, the loss is supported and num_epoch is zero or negative, [train]
    builds the models and returns without a training step: variables and
    summaries are as before. *)
Theorem driver_edge_cases `{Backend} (fps : list string) (args : Args)
        (w : World) :
  (generate_file_name_batch fps (train_batch_size args) = [] ->
   train fps args w = (Raise IndexError, w))
  /\ (generate_file_name_batch fps (train_batch_size args) <> [] ->
      valid_config args ->
      In (wavegan_loss args) ["dcgan"; "lsgan"; "wgan"; "wgan-gp"] ->
      (num_epoch args <= 0)%Z ->
      exists w', train fps args w = (Ok tt, w') /\ same_models w w').
Proof.
  split.
  - intros Hnone. unfold train. cbv zeta. rewrite Hnone. reflexivity.
  - intros Hsome Hvalid Hloss Hepochs. unfold train. cbv zeta.
    destruct (generate_file_name_batch fps (train_batch_size args))
      as [|names rest] eqn:Hbatches; [contradiction|].
    unfold bind at 1. cbn [ret].
    destruct (total_build_models args Hvalid w) as (u & w1 & Hbuild).
    rewrite (bind_ok _ Hbuild).
    destruct (make_optimizers_supported (wavegan_loss args) w1 Hloss)
      as (opts & Hopts).
    rewrite (bind_ok _ Hopts).
    replace (Z.to_nat (num_epoch args)) with 0%nat by lia.
    cbn [seq]. exists w1. split; [reflexivity|].
    exact (preserves_build_models args _ _ _ Hbuild).
Qed.

Lemma driver_edge_cases_witness :
  @train Examples.no_batches ["a.wav"] (Examples.small_args "wgan-gp" false)
         Examples.small_world
  = (Raise IndexError, Examples.small_world)
  /\ exists w',
      @train Examples.backend ["a.wav"] (Examples.no_epochs "dcgan") Examples.small_world
      = (Ok tt, w')
      /\ same_models Examples.small_world w'.
Proof.
  split.
  - apply (proj1 (@driver_edge_cases Examples.no_batches ["a.wav"]
                    (Examples.small_args "wgan-gp" false) Examples.small_world)).
    reflexivity.
  - apply (proj2 (@driver_edge_cases Examples.backend ["a.wav"]
                    (Examples.no_epochs "dcgan") Examples.small_world)).
    + discriminate.
    + repeat split; simpl; try lia; try discriminate; left; reflexivity.
    + left. reflexivity.
    + simpl. lia.
Defined.

Lemma replicateM_next_raw_cursor n g :
  exists ws, replicateM n next_raw g
             = (Ok ws, {| raw := raw g; cursor := (cursor g + n)%nat |})
             /\ length ws = n.
Proof.
  revert g. induction n as [|n IH]; intros g; cbn [replicateM].
  - exists []. unfold ret. rewrite Nat.add_0_r. destruct g. split; reflexivity.
  - unfold bind at 1. unfold next_raw at 1.
    destruct (IH {| raw := raw g; cursor := S (cursor g) |}) as (ws & Hws & Hlen).
    rewrite (bind_ok _ Hws). cbn [raw cursor ret].
    exists (raw g (cursor g) :: ws). split; [|simpl; congruence].
    unfold ret. do 2 f_equal. lia.
Qed.

Lemma replicateM_rows_cursor rows cols g :
  exists t, replicateM rows (replicateM cols next_raw) g
            = (Ok t, {| raw := raw g; cursor := (cursor g + rows * cols)%nat |}).
Proof.
  revert g. induction rows as [|rows IH]; intros g; cbn [replicateM].
  - exists []. unfold ret. cbn [Nat.mul]. rewrite Nat.add_0_r. destruct g.
    reflexivity.
  - destruct (replicateM_next_raw_cursor cols g) as (ws & Hws & _).
    rewrite (bind_ok _ Hws).
    destruct (IH {| raw := raw g; cursor := (cursor g + cols)%nat |}) as (t & Ht).
    rewrite (bind_ok _ Ht). cbn [raw cursor ret].
    exists (ws :: t). unfold ret. do 2 f_equal. lia.
Qed.

(** X8.  When num_categ exceeds the latent dimension the latent sampler
    raises InvalidArgumentError - the uniform part would have a negative
    width - after the code part has been drawn: the random generator has
    advanced by batch size times num_categ words (by none when num_categ is
    negative). *)
Theorem latent_sampler_rejects_oversized_code (args : Args) (w : World) :
  (0 <= train_batch_size args)%Z ->
  (wavegan_latent_dim args < num_categ args)%Z ->
  sample_latent args w
  = (Raise InvalidArgumentError,
     set_rng {| raw := raw (rng w);
                cursor := (cursor (rng w)
                           + Z.to_nat (train_batch_size args)
                             * Z.to_nat (num_categ args))%nat |} w).
Proof.
  intros HB Hcode. unfold sample_latent, random.bernoulli, random.uniform.
  assert (HC : (0 <= num_categ args)%Z \/ (num_categ args < 0)%Z) by lia.
  destruct HC as [HC | HC].
  - rewrite (valid_shape_pair HB HC).
    destruct (replicateM_rows_cursor (Z.to_nat (train_batch_size args))
                (Z.to_nat (num_categ args)) (rng w)) as (t & Ht).
    unfold with_rng at 1. unfold bind at 1 2 3. cbn [get_rng World_HasRng].
    rewrite Ht. cbn [ret set_rng World_HasRng].
    unfold bind at 1. unfold with_rng. cbn [get_rng World_HasRng rng].
    unfold valid_shape. cbn [forallb].
    destruct (Z.leb_spec 0 (wavegan_latent_dim args - num_categ args)); [lia|].
    rewrite andb_false_r. cbn [raise set_rng World_HasRng].
    reflexivity.
  - unfold valid_shape. cbn [forallb].
    destruct (Z.leb_spec 0 (num_categ args)); [lia|].
    rewrite andb_false_r. unfold bind, with_rng.
    cbn [raise get_rng set_rng World_HasRng].
    replace (Z.to_nat (num_categ args)) with 0%nat by lia.
    rewrite Nat.mul_0_r, Nat.add_0_r. destruct (rng w). reflexivity.
Qed.

Lemma latent_sampler_rejects_oversized_code_witness :
  sample_latent Examples.oversized_code Examples.empty_world
  = (Raise InvalidArgumentError,
     set_rng {| raw := raw (Examples.counter_rng 0); cursor := 10 |}
             Examples.empty_world).
Proof.
  apply (latent_sampler_rejects_oversized_code Examples.oversized_code
           Examples.empty_world); simpl; lia.
Defined.

(** X9.  When the first batch decodes to a tensor whose shape is not
    (train_batch_size, data_slice_len, data_num_channels), [train] - with a
    configuration the models accept, a supported loss and at least one epoch
    - ends in the AssertionError of the step's shape check: the models have
    been built, but no variable is updated and no summary is written. *)
Theorem misshapen_first_batch_aborts_training `{Backend} (fps : list string)
        (args : Args) (w : World) (names : list string)
        (rest : list (list string)) :
  generate_file_name_batch fps (train_batch_size args) = names :: rest ->
  valid_config args ->
  In (wavegan_loss args) ["dcgan"; "lsgan"; "wgan"; "wgan-gp"] ->
  (0 < num_epoch args)%Z ->
  has_shape (decode_extract_and_batch names args) (train_batch_size args)
            (data_slice_len args) (data_num_channels args) = false ->
  exists w',
    train fps args w = (Raise AssertionError, w') /\ same_models w w'.
Proof.
  intros Hbatches Hvalid Hloss Hepochs Hshape. unfold train. cbv zeta.
  rewrite Hbatches. unfold bind at 1. cbn [ret].
  destruct (total_build_models args Hvalid w) as (u & w1 & Hbuild).
  rewrite (bind_ok _ Hbuild).
  destruct (make_optimizers_supported (wavegan_loss args) w1 Hloss)
    as (opts & Hopts).
  rewrite (bind_ok _ Hopts).
  destruct (Z.to_nat (num_epoch args)) as [|e] eqn:He; [lia|].
  cbn [length seq combine foldM].
  exists w1. split; [|exact (preserves_build_models args _ _ _ Hbuild)].
  apply bind_raise, bind_raise, bind_raise, bind_raise.
  unfold train_batch. cbn [fst]. apply bind_raise.
  apply step_stops_at_shape_assertion. exact Hshape.
Qed.

Lemma misshapen_first_batch_aborts_training_witness :
  exists w',
    @train Examples.short_batches ["a.wav"]
           (Examples.small_args "wgan-gp" false) Examples.small_world
    = (Raise AssertionError, w')
    /\ same_models Examples.small_world w'.
Proof.
  apply (@misshapen_first_batch_aborts_training Examples.short_batches
           ["a.wav"] (Examples.small_args "wgan-gp" false)
           Examples.small_world ["a.wav"] []).
  - reflexivity.
  - repeat split; simpl; try lia; try discriminate; left; reflexivity.
  - simpl. tauto.
  - simpl. lia.
  - reflexivity.
Defined.

(** ** The small world, run in full *)

Lemma map_const_seq {A} (c : A) a n : map (fun _ => c) (seq a n) = repeat c n.
Proof.
  revert a. induction n as [|n IH]; intros a; [reflexivity|].
  cbn [seq map repeat]. rewrite IH. reflexivity.
Qed.

Lemma conv1d_transpose_zero_all K s b (e : T2) :
  keras.conv1d_transpose_example 1 K s (repeat [[0]] K) [b] e
  = repeat [0 + b] (length e * s).
Proof.
  unfold keras.conv1d_transpose_example.
  rewrite <- (map_const_seq [0 + b] 0 (length e * s)).
  apply map_ext. intros o.
  rewrite conv1d_transpose_zero_fold; [reflexivity|].
  apply Forall_forall. intros [i j] Hin.
  apply in_prod_iff in Hin. destruct Hin as [_ Hin].
  apply in_seq in Hin. simpl. lia.
Qed.

Lemma frames_conv1d_transpose_map f K s k b n (t : T3) :
  frames n t ->
  frames (n * Z.of_nat s) (map (keras.conv1d_transpose_example f K s k b) t).
Proof.
  unfold frames. intros Ht. apply Forall_map.
  eapply Forall_impl; [|exact Ht]. intros ex Hex. cbn beta.
  rewrite length_conv1d_transpose_example, Nat2Z.inj_mul, Hex. reflexivity.
Qed.

Lemma map_const_image {A B} (f : A -> B) c l :
  Forall (fun x => f x = c) l -> map f l = repeat c (length l).
Proof.
  induction 1 as [|x l Hx _ IH]; [reflexivity|].
  simpl. rewrite Hx, IH. reflexivity.
Qed.

(** The small generator outputs tanh 1 in every frame. *)
Lemma small_generator_output loss (z : T2) g :
  exists net',
    @generator_model Examples.backend (Examples.small_args loss false) z
      {| layers := Examples.small_generator_layers; net_rng := g |}
    = (Ok (repeat (repeat [tanh (0 + 1)] (Z.to_nat 16384)) (length z)), net').
Proof.
  eexists.
  unfold generator_model, WaveGANGenerator,
    Examples.small_generator_layers, conv1d_transpose, assert.
  cbn [data_slice_len data_num_channels wavegan_kernel_len wavegan_dim
       wavegan_batchnorm wavegan_genr_upsample wavegan_genr_pp
       wavegan_genr_pp_len Examples.small_args Examples.backend update_ops
       existsb Z.eqb Pos.eqb orb andb String.eqb Ascii.eqb Bool.eqb app].
  cbv [bind ret keras.Dense keras.Conv2DTranspose keras.Conv1D next_layer
       layers net_rng hd].
  apply f_equal2; [apply f_equal | reflexivity].
  change (Z.to_nat 1) with 1%nat. change (Z.to_nat 25) with 25%nat.
  change (Z.to_nat 4) with 4%nat.
  change (Examples.zeros3 25 1 1) with (repeat [[0]] 25).
  match goal with
  | |- context [map (keras.conv1d_transpose_example 1 25 4 _ [1]) ?X] =>
      assert (HX : length X = length z /\ frames 4096 X);
        [ split;
          [ unfold map3, reshape_frames; rewrite !length_map; reflexivity
          | repeat first
              [ apply frames_map3
              | apply (frames_conv1d_transpose_map _ _ 4 _ _ 1024)
              | apply (frames_conv1d_transpose_map _ _ 4 _ _ 256)
              | apply (frames_conv1d_transpose_map _ _ 4 _ _ 64)
              | apply (frames_conv1d_transpose_map _ _ 4 _ _ 16)
              | apply frames_reshape; lia ] ]
        | generalize dependent X ]
  end.
  intros X [HlenX HfrX]. rewrite <- HlenX. clear HlenX.
  unfold map3. rewrite map_map. apply map_const_image.
  eapply Forall_impl; [|exact HfrX]. intros e He. cbn beta in *.
  rewrite conv1d_transpose_zero_all.
  replace (length e * 4)%nat with (Z.to_nat 16384) by lia.
  rewrite map_repeat. reflexivity.
Qed.

Lemma vecmat_zero_kernel_pair row n : vecmat 2 row (repeat [0; 0] n) = [0; 0].
Proof.
  unfold vecmat.
  assert (Hall : Forall (fun p : R * list R => snd p = [0; 0])
                        (combine row (repeat [0; 0] n))).
  { apply Forall_forall. intros [a k] Hin. apply in_combine_r in Hin.
    apply repeat_spec in Hin. exact Hin. }
  induction Hall as [|[a k] pairs Hk _ IH]; cbn [fold_right]; [reflexivity|].
  cbn [snd fst] in *. subst k. rewrite IH. unfold vadd, vscale. simpl.
  f_equal; [ring | f_equal; ring].
Qed.

(** The small code predictor answers sigmoid 0 for every code entry. *)
Lemma small_q_codes (x : T3) g :
  Z.of_nat (length (hd [] x)) = 16384%Z ->
  exists net',
    WaveGANQ x 25 1 false 2 2
      {| layers := Examples.small_q_layers; net_rng := g |}
    = (Ok (map (fun _ => [tf.sigmoid (0 + 0); tf.sigmoid (0 + 0)]) x), net').
Proof.
  intros Hslice. unfold WaveGANQ, conv_trunk. cbv zeta beta.
  rewrite Hslice.
  change (16384 =? 32768)%Z with false. change (16384 =? 65536)%Z with false.
  change (2 >? 0)%Z with true. cbv iota.
  unfold apply_phaseshuffle, random.uniform_int.
  change (Z.ltb (Z.opp 2) (2 + 1)) with true. cbv iota.
  cbv [bind ret keras.Conv1D keras.Dense next_layer layers net_rng with_rng
       get_rng set_rng Net_HasRng next_raw Examples.small_q_layers
       Examples.small_trunk Examples.zero_conv app].
  eexists. apply f_equal2; [apply f_equal | reflexivity].
  change (Z.to_nat 2) with 2%nat.
  change (Examples.zeros2 256 2) with (repeat [0; 0] 256).
  rewrite !map_map.
  match goal with
  | |- map _ ?T = _ =>
      assert (HT : length T = length x)
        by (unfold map3; rewrite !length_map; reflexivity);
        generalize dependent T
  end.
  intros T HT. revert x Hslice HT.
  induction T as [|row T IH]; intros [|e x] _ HT; simpl in HT;
    try discriminate; [reflexivity|].
  cbn [map]. rewrite vecmat_zero_kernel_pair.
  f_equal.
  clear IH. revert x HT. induction T as [|row' T IH]; intros [|e' x] HT;
    simpl in HT; try discriminate; [reflexivity|].
  cbn [map]. rewrite vecmat_zero_kernel_pair. f_equal. apply IH. congruence.
Qed.

Lemma call_model_run {A} (m : model_id) (f : M Net A) w a n :
  f {| layers := model_layers m w; net_rng := rng w |} = (Ok a, n) ->
  call_model m f w = (Ok a, set_rng (net_rng n) w).
Proof. intros Hrun. unfold call_model. rewrite Hrun. reflexivity. Qed.

Lemma Forall2_repeat {A B} (P : A -> B -> Prop) a b n :
  P a b -> Forall2 P (repeat a n) (repeat b n).
Proof. intros Hab. induction n; simpl; constructor; assumption. Qed.

(** The latent batch has the configured shape. *)
Lemma sample_latent_rows (args : Args) (w : World) :
  (0 <= train_batch_size args)%Z ->
  (0 <= num_categ args <= wavegan_latent_dim args)%Z ->
  exists z w',
    sample_latent args w = (Ok z, w')
    /\ length z = Z.to_nat (train_batch_size args)
    /\ Forall (fun row => length row = Z.to_nat (wavegan_latent_dim args)) z.
Proof.
  intros HB [HC HCD]. unfold sample_latent.
  destruct (@bernoulli_total (train_batch_size args) (num_categ args) 0.5 (rng w))
    as (categ & g1 & Hcateg & Hlc & Hac); [lia | lia |].
  rewrite (bind_ok _ (with_rng_ok w Hcateg)).
  destruct (@uniform_total (train_batch_size args)
                           (wavegan_latent_dim args - num_categ args) (-1) 1 g1)
    as (uniform & g2 & Huni & Hlu & Hau); [lia | lia | lra |].
  assert (Hu' : with_rng (random.uniform (train_batch_size args)
                  (wavegan_latent_dim args - num_categ args) (-1) 1)
                  (set_rng g1 w) = (Ok uniform, set_rng g2 (set_rng g1 w))).
  { apply (with_rng_ok (set_rng g1 w)). exact Huni. }
  rewrite (bind_ok _ Hu').
  unfold lift, tf.concat1. rewrite Hlc, Hlu, Nat.eqb_refl.
  eexists _, _. split; [reflexivity|]. split.
  - rewrite zipWith_length by exact (eq_trans Hlc (eq_sym Hlu)). exact Hlc.
  - eapply Forall_zipWith; [|exact Hac|exact Hau].
    intros c u [Hc1 _] [Hu1 _]. simpl in *.
    rewrite length_app, Hc1, Hu1. lia.
Qed.

(** The value [compute_loss] returns under wgan-gp. *)
Lemma compute_loss_wgan_gp_returns args D_G_z D_x x G_z tape z Q_G_z w g rest :
  wavegan_loss args = "wgan-gp" ->
  (0 <= train_batch_size args)%Z ->
  length x = Z.to_nat (train_batch_size args) ->
  same_shape3 x G_z ->
  tf.same_shape2 (tf.take_columns (num_categ args) z)
                 (tf.take_columns (num_categ args) Q_G_z) = true ->
  tape T_D_interp (Variables [inter_discriminator]) = W3 g :: rest ->
  exists w',
    compute_loss args D_G_z D_x x G_z inter_discriminator tape z Q_G_z w
    = (Ok (- tf.reduce_mean D_G_z,
           tf.reduce_mean D_G_z - tf.reduce_mean D_x
           + 10 * tf.reduce_mean
                    (map (fun s => (s - 1) ^ 2)
                         (map sqrt (tf.reduce_sum_12 (tf.square3 g)))),
           tf.reduce_mean2
             (zipWith (zipWith tf.sigmoid_ce)
                      (tf.take_columns (num_categ args) z)
                      (tf.take_columns (num_categ args) Q_G_z))), w')
    /\ same_models w w'.
Proof.
  intros Hloss HB Hlen Hshape Hq Htape.
  assert (Hrun : exists w',
             compute_loss args D_G_z D_x x G_z inter_discriminator tape z
                          Q_G_z w
             = (Ok (- tf.reduce_mean D_G_z,
                    tf.reduce_mean D_G_z - tf.reduce_mean D_x
                    + 10 * tf.reduce_mean
                             (map (fun s => (s - 1) ^ 2)
                                  (map sqrt (tf.reduce_sum_12 (tf.square3 g)))),
                    tf.reduce_mean2
                      (zipWith (zipWith tf.sigmoid_ce)
                               (tf.take_columns (num_categ args) z)
                               (tf.take_columns (num_categ args) Q_G_z))), w')).
  { unfold compute_loss, compute_loss_body. rewrite Hloss.
    cbn [String.eqb Ascii.eqb Bool.eqb]. cbv iota.
    unfold tf.sigmoid_cross_entropy_with_logits2. rewrite Hq.
    unfold bind, lift. cbv beta iota.
    destruct (uniform_n11_returns (train_batch_size args) 0 1 (rng w) HB)
      as (alpha & g' & Halpha & Hn11 & Hlena).
    rewrite (with_rng_ok w Halpha).
    rewrite (interpolate_same_shape x G_z alpha Hshape Hn11) by congruence.
    match goal with
    | |- context [call_model inter_discriminator ?f ?w1] =>
        destruct (@total_call_model _ inter_discriminator f
                    (total_WaveGANDiscriminator _ _ _ _ _) w1)
          as (D_interp & w2 & Hinterp)
    end.
    unfold discriminator_model in *. rewrite Hinterp, Htape.
    cbn [ret slopes_of load_fast D_G_z_loss D_loss Q_loss].
    eexists. reflexivity. }
  destruct Hrun as (w' & Hrun). exists w'. split; [exact Hrun|].
  exact (preserves_compute_loss _ _ _ _ _ _ _ _ _ _ _ _ Hrun).
Qed.

Lemma small_models_same bD bI w w' :
  same_models w w' -> small_models bD bI w -> small_models bD bI w'.
Proof.
  intros (HG & HD & HQ & HI & _) (H1 & H2 & H3 & H4).
  repeat split; congruence.
Qed.

Lemma small_output_slice_len (v : R) :
  Z.of_nat (length (hd [] (repeat (repeat [v] (Z.to_nat 16384)) 1))) = 16384%Z.
Proof. cbn [repeat hd]. rewrite repeat_length. lia. Qed.

(** The forward calls of a step in the small world. *)
Lemma small_forward loss (z : T2) (dataset : T3) bD bI w :
  small_models bD bI w ->
  length z = 1%nat ->
  Z.of_nat (length (hd [] dataset)) = 16384%Z ->
  exists w',
    @forward Examples.backend (Examples.small_args loss false) z dataset w
    = (Ok (repeat (repeat [tanh (0 + 1)] (Z.to_nat 16384)) 1,
           [tf.sigmoid (0 + bD)],
           map (fun _ => tf.sigmoid (0 + bD)) dataset,
           [[tf.sigmoid (0 + 0); tf.sigmoid (0 + 0)]]), w')
    /\ same_models w w'.
Proof.
  intros (HG & HD & HQ & HI) Hz Hdata.
  assert (Hrun : exists w',
             @forward Examples.backend (Examples.small_args loss false) z
                      dataset w
             = (Ok (repeat (repeat [tanh (0 + 1)] (Z.to_nat 16384)) 1,
                    [tf.sigmoid (0 + bD)],
                    map (fun _ => tf.sigmoid (0 + bD)) dataset,
                    [[tf.sigmoid (0 + 0); tf.sigmoid (0 + 0)]]), w')).
  { unfold forward.
    destruct (small_generator_output loss z (rng w)) as (n1 & HrunG).
    rewrite <- HG, Hz in HrunG.
    rewrite (bind_ok _ (call_model_run G_z_generator _ w _ _ HrunG)).
    set (G_z := repeat (repeat [tanh (0 + 1)] (Z.to_nat 16384)) 1).
    set (w1 := set_rng (net_rng n1) w).
    destruct (small_discriminator_scores bD G_z (rng w1)
                (small_output_slice_len _)) as (n2 & HrunDG).
    rewrite <- HD in HrunDG.
    rewrite (bind_ok _ (call_model_run D_x_discriminator _ w1 _ _ HrunDG)).
    set (w2 := set_rng (net_rng n2) w1).
    destruct (small_discriminator_scores bD dataset (rng w2) Hdata)
      as (n3 & HrunDx).
    rewrite <- HD in HrunDx.
    rewrite (bind_ok _ (call_model_run D_x_discriminator _ w2 _ _ HrunDx)).
    set (w3 := set_rng (net_rng n3) w2).
    destruct (small_q_codes G_z (rng w3) (small_output_slice_len _))
      as (n4 & HrunQ).
    rewrite <- HQ in HrunQ.
    rewrite (bind_ok _ (call_model_run waveganq _ w3 _ _ HrunQ)).
    eexists. reflexivity. }
  destruct Hrun as (w' & Hrun). exists w'. split; [exact Hrun|].
  exact (preserves_forward _ _ _ _ _ _ Hrun).
Qed.

Lemma set_layer_weights_same l : set_layer_weights l (layer_weights l) = l.
Proof. destruct l as [k b | k [b|] | k b | g b m v]; reflexivity. Qed.

Lemma layer_weights_length_firstn l rest :
  firstn (length (layer_weights l)) (layer_weights l ++ rest) = layer_weights l.
Proof.
  rewrite firstn_app, Nat.sub_diag, firstn_all. cbn [firstn]. apply app_nil_r.
Qed.

Lemma layer_weights_length_skipn l rest :
  skipn (length (layer_weights l)) (layer_weights l ++ rest) = rest.
Proof.
  rewrite skipn_app, Nat.sub_diag, skipn_all. reflexivity.
Qed.

(** Writing a model's own variables back leaves the model as it was. *)
Lemma assign_variables_same ls rest :
  assign_variables ls (variables ls ++ rest) = ls.
Proof.
  induction ls as [|l ls IH]; [reflexivity|].
  unfold variables in *. cbn [flat_map assign_variables].
  rewrite <- app_assoc, layer_weights_length_firstn,
    layer_weights_length_skipn, set_layer_weights_same, IH.
  reflexivity.
Qed.

Lemma map_snd_combine_same {A} (l rest : list A) :
  map snd (combine (l ++ rest) l) = l.
Proof.
  induction l as [|a l IH]; [destruct rest; reflexivity|].
  simpl. rewrite IH. reflexivity.
Qed.

Lemma assign_variables_own ls : assign_variables ls (variables ls) = ls.
Proof.
  rewrite <- (app_nil_r (variables ls)). apply assign_variables_same.
Qed.

Lemma map_snd_combine_own {A} (l : list A) : map snd (combine l l) = l.
Proof.
  rewrite <- (app_nil_r l) at 1. apply map_snd_combine_same.
Qed.

(** With the stand-in optimizer the three updates write every variable
    back unchanged. *)
Lemma small_apply_updates w0 z dataset opts q w :
  Q_opt opts = Some q ->
  G_layers w0 = G_layers w -> D_layers w0 = D_layers w ->
  Q_layers w0 = Q_layers w ->
  @apply_updates Examples.backend (@GradientTape Examples.backend w0 z dataset)
                 opts w
  = (Ok opts, w).
Proof.
  intros HQ HG HD HQl. destruct opts as [Go Do Qo]. cbn [Q_opt] in HQ. subst Qo.
  destruct w as [g G D Q I sm]. cbn [G_layers D_layers Q_layers] in *.
  unfold apply_updates, apply_to_model, bind.
  cbn [get GradientTape apply_gradients Examples.backend flat_map model_layers
       G_layers D_layers Q_layers G_opt D_opt Q_opt load_fast ret modify
       set_model_layers rng inter_layers summaries].
  rewrite HG, HD, HQl.
  rewrite !map_snd_combine_same, !assign_variables_own, app_nil_r.
  rewrite map_snd_combine_own.
  rewrite firstn_app, Nat.sub_diag, firstn_all. cbn [firstn].
  rewrite skipn_app, Nat.sub_diag, skipn_all. cbn [skipn app].
  rewrite app_nil_r, !assign_variables_own.
  reflexivity.
Qed.

Lemma same_shape2_code_block (z : T2) (a b : R) :
  length z = 1%nat ->
  Forall (fun row => length row = 4%nat) z ->
  tf.same_shape2 (tf.take_columns 2 z) (tf.take_columns 2 [[a; b]]) = true.
Proof.
  intros Hlen Hrows. destruct z as [|row [|row' z]]; try discriminate Hlen.
  apply Forall_inv in Hrows. unfold tf.same_shape2, tf.take_columns.
  cbn [map Z.ltb Z.compare length combine forallb fst snd andb Nat.eqb].
  change (Z.to_nat 2) with 2%nat. rewrite length_firstn, Hrows. reflexivity.
Qed.

(** Under wgan-gp a step in the small world completes: it writes its three
    summaries and, the stand-in optimizer changing nothing, leaves the
    models as they were. *)
Lemma small_step_completes names steps opts q bD bI w :
  Q_opt opts = Some q ->
  small_models bD bI w ->
  exists w' g d,
    @train_step Examples.backend (Examples.small_args "wgan-gp" false) opts
                names steps w
    = (Ok (opts, repeat (repeat [tanh (0 + 1)] (Z.to_nat 16384)) 1), w')
    /\ summaries w' = summaries w ++ step_summaries steps g d
    /\ small_models bD bI w'.
Proof.
  intros HQ Hsmall. unfold train_step. cbv zeta.
  cbn [decode_extract_and_batch Examples.backend train_batch_size
       data_slice_len data_num_channels Examples.small_args].
  rewrite has_shape_placeholder3 by lia.
  unfold assert. unfold bind at 1. cbn [ret].
  destruct (sample_latent_rows (Examples.small_args "wgan-gp" false) w)
    as (z & w1 & Hz & Hlenz & Hrows); [simpl; lia | simpl; lia |].
  pose proof (preserves_sample_latent _ _ _ _ Hz) as Hsame1.
  rewrite (bind_ok _ Hz). unfold bind at 1. cbn [get].
  destruct (small_forward "wgan-gp" z (placeholder3 1 16384 1) bD bI w1
              (small_models_same _ _ _ _ Hsame1 Hsmall) Hlenz
              zero_batch_slice_len) as (w2 & Hfwd & Hsame2).
  rewrite (bind_ok _ Hfwd). cbv beta iota.
  pose proof (small_models_same _ _ _ _ Hsame1 Hsmall) as Hsmall1.
  destruct (compute_loss_wgan_gp_returns
              (Examples.small_args "wgan-gp" false)
              [tf.sigmoid (0 + bD)]
              (map (fun _ => tf.sigmoid (0 + bD)) (placeholder3 1 16384 1))
              (placeholder3 1 16384 1)
              (repeat (repeat [tanh (0 + 1)] (Z.to_nat 16384)) 1)
              (@GradientTape Examples.backend w1 z (placeholder3 1 16384 1))
              z [[tf.sigmoid (0 + 0); tf.sigmoid (0 + 0)]] w2
              (Examples.zeros3 25 1 1)
              (tl (variables (Examples.small_discriminator_layers bI))))
    as (w3 & Hloss & Hsame3).
  { reflexivity. }
  { simpl. lia. }
  { unfold placeholder3. rewrite repeat_length. reflexivity. }
  { unfold placeholder3. change (Z.to_nat 1) with 1%nat.
    apply Forall2_repeat, Forall2_repeat. reflexivity. }
  { apply same_shape2_code_block; [exact Hlenz | exact Hrows]. }
  { cbn [GradientTape Examples.backend flat_map model_layers].
    rewrite (proj2 (proj2 (proj2 Hsmall1))). rewrite app_nil_r. reflexivity. }
  rewrite (bind_ok _ Hloss). cbv beta iota.
  assert (Hupd : @apply_updates Examples.backend
                   (@GradientTape Examples.backend w1 z (placeholder3 1 16384 1))
                   opts w3 = (Ok opts, w3)).
  { apply (small_apply_updates w1 z _ opts q w3 HQ).
    - destruct Hsame2 as (H2 & _), Hsame3 as (H3 & _). congruence.
    - destruct Hsame2 as (_ & H2 & _), Hsame3 as (_ & H3 & _). congruence.
    - destruct Hsame2 as (_ & _ & H2 & _), Hsame3 as (_ & _ & H3 & _).
      congruence. }
  rewrite (bind_ok _ Hupd).
  unfold add_summary, bind, modify, ret.
  cbn [summaries G_layers D_layers Q_layers inter_layers rng].
  eexists _, _, _. split; [reflexivity|].
  pose proof (same_models_trans _ _ _ Hsame1
                (same_models_trans _ _ _ Hsame2 Hsame3)) as Hsame.
  split.
  - cbn [summaries]. rewrite <- !app_assoc.
    rewrite (same_models_summaries _ _ Hsame). reflexivity.
  - destruct Hsame as (HG & HD & HQl & HI & _).
    destruct Hsmall as (H1 & H2 & H3 & H4).
    repeat split; cbn [G_layers D_layers Q_layers inter_layers]; congruence.
Qed.

(** ** What a step writes to the summary log *)

Lemma summaries_apply_updates `{Backend} tape opts w r w' :
  apply_updates tape opts w = (r, w') -> summaries w' = summaries w.
Proof.
  unfold apply_updates, apply_to_model, bind. cbn [get].
  destruct (apply_gradients (G_opt opts) _) as [G_opt' Gvals].
  cbn [modify ret model_layers set_model_layers].
  destruct (apply_gradients (D_opt opts) _) as [D_opt' Dvals].
  cbn [modify ret model_layers set_model_layers].
  destruct (Q_opt opts) as [q|]; cbn [load_fast ret raise].
  - destruct (apply_gradients q _) as [Q_opt' Qvals].
    cbn [modify ret set_model_layers]. intros Hrun. inversion Hrun; subst.
    reflexivity.
  - intros Hrun. inversion Hrun; subst. reflexivity.
Qed.

(** The optimizers write variables only: the audio summaries and the saved
    files are as before. *)
Lemma outputs_apply_updates `{Backend} tape opts w r w' :
  apply_updates tape opts w = (r, w') ->
  audio_summaries w' = audio_summaries w /\ saved w' = saved w.
Proof.
  unfold apply_updates, apply_to_model, bind. cbn [get].
  destruct (apply_gradients (G_opt opts) _) as [G_opt' Gvals].
  cbn [modify ret model_layers set_model_layers].
  destruct (apply_gradients (D_opt opts) _) as [D_opt' Dvals].
  cbn [modify ret model_layers set_model_layers].
  destruct (Q_opt opts) as [q|]; cbn [load_fast ret raise].
  - destruct (apply_gradients q _) as [Q_opt' Qvals].
    cbn [modify ret set_model_layers]. intros Hrun. inversion Hrun; subst.
    split; reflexivity.
  - intros Hrun. inversion Hrun; subst. split; reflexivity.
Qed.

Lemma same_models_outputs w w' :
  same_models w w' ->
  audio_summaries w' = audio_summaries w /\ saved w' = saved w.
Proof. intros (_ & _ & _ & _ & _ & Ha & Hs). split; assumption. Qed.

(** X10.  A training step that completes appends exactly three summaries at
    its step number: Generator_loss and Discriminator_loss carry the first
    two values [compute_loss] returned, and Q_loss carries the discriminator
    loss again - the Q loss itself is never logged.  A step that raises
    appends nothing. *)
Theorem step_logs_discriminator_loss_as_q_loss `{Backend} (args : Args)
        (opts : Optimizers) (names : list string) (steps : Z) (w : World)
        (r : result (Optimizers * T3)) (w' : World) :
  train_step args opts names steps w = (r, w') ->
  match r with
  | Ok _ =>
      exists dataset z tape G_z D_G_z D_x Q_G_z w1 g d q w2,
        before_loss args names w
        = (Ok (dataset, z, tape, (G_z, D_G_z, D_x, Q_G_z)), w1)
        /\ compute_loss args D_G_z D_x dataset G_z inter_discriminator tape z
                        Q_G_z w1 = (Ok (g, d, q), w2)
        /\ summaries w'
           = summaries w ++ [("Generator_loss", g, steps);
                             ("Discriminator_loss", d, steps);
                             ("Q_loss", d, steps)]
  | Raise _ => summaries w' = summaries w
  end.
Proof.
  rewrite train_step_split. unfold bind at 1.
  destruct (before_loss args names w) as [[s | e] w1] eqn:Hbefore.
  - pose proof (same_models_summaries _ _
                  (preserves_before_loss args names _ _ _ Hbefore)) as Hs1.
    destruct s as [[[dataset z] tape] [[[G_z D_G_z] D_x] Q_G_z]].
    unfold from_loss. unfold bind at 1.
    destruct (compute_loss args D_G_z D_x dataset G_z inter_discriminator
                           tape z Q_G_z w1) as [[[[g d] q] | e] w2] eqn:Hloss.
    + pose proof (same_models_summaries _ _
                    (preserves_compute_loss _ _ _ _ _ _ _ _ _ _ _ _ Hloss))
        as Hs2.
      unfold bind at 1.
      destruct (apply_updates tape opts w2) as [[opts' | e] w3] eqn:Hupd.
      * pose proof (summaries_apply_updates _ _ _ _ _ Hupd) as Hs3.
        unfold add_summary, bind, modify, ret. cbn [summaries].
        intros Hrun. inversion Hrun; subst. clear Hrun.
        exists dataset, z, tape, G_z, D_G_z, D_x, Q_G_z, w1, g, d, q, w2.
        split; [reflexivity|]. split; [exact Hloss|].
        cbn [summaries]. rewrite <- !app_assoc. cbn [app].
        rewrite Hs3, Hs2, Hs1. reflexivity.
      * intros Hrun. inversion Hrun; subst.
        rewrite (summaries_apply_updates _ _ _ _ _ Hupd), Hs2, Hs1.
        reflexivity.
    + intros Hrun. inversion Hrun; subst.
      rewrite (same_models_summaries _ _
                 (preserves_compute_loss _ _ _ _ _ _ _ _ _ _ _ _ Hloss)).
      exact Hs1.
  - intros Hrun. inversion Hrun; subst.
    exact (same_models_summaries _ _
             (preserves_before_loss args names _ _ _ Hbefore)).
Qed.

Lemma step_logs_discriminator_loss_as_q_loss_witness :
  exists w' dataset z tape G_z D_G_z D_x Q_G_z w1 g d q w2,
    @train_step Examples.backend (Examples.small_args "wgan-gp" false)
                (Examples.wgan_gp_optimizers) ["a.wav"] 7 Examples.small_world
    = (Ok (Examples.wgan_gp_optimizers,
           repeat (repeat [tanh (0 + 1)] (Z.to_nat 16384)) 1), w')
    /\ @before_loss Examples.backend (Examples.small_args "wgan-gp" false)
                    ["a.wav"] Examples.small_world
       = (Ok (dataset, z, tape, (G_z, D_G_z, D_x, Q_G_z)), w1)
    /\ compute_loss (Examples.small_args "wgan-gp" false) D_G_z D_x dataset
                    G_z inter_discriminator tape z Q_G_z w1
       = (Ok (g, d, q), w2)
    /\ summaries w'
       = [("Generator_loss", g, 7%Z); ("Discriminator_loss", d, 7%Z);
          ("Q_loss", d, 7%Z)].
Proof.
  destruct (small_step_completes ["a.wav"] 7 Examples.wgan_gp_optimizers _
              0.5 1 Examples.small_world eq_refl
              (conj eq_refl (conj eq_refl (conj eq_refl eq_refl))))
    as (w' & g0 & d0 & Hstep & _ & _).
  pose proof (@step_logs_discriminator_loss_as_q_loss Examples.backend
                _ _ _ _ _ _ _ Hstep) as Hlog.
  cbv beta iota in Hlog.
  destruct Hlog as (dataset & z & tape & G_z & D_G_z & D_x & Q_G_z & w1 & g
                    & d & q & w2 & Hbefore & Hloss & Hsum).
  exists w', dataset, z, tape, G_z, D_G_z, D_x, Q_G_z, w1, g, d, q, w2.
  split; [exact Hstep|]. split; [exact Hbefore|]. split; [exact Hloss|].
  exact Hsum.
Defined.

(** ** The step counter of the training loop *)

Lemma logged_app s1 s2 l1 l2 :
  length s1 = length l1 ->
  logged (s1 ++ s2) (l1 ++ l2) = logged s1 l1 ++ logged s2 l2.
Proof.
  intros Hlen. unfold logged.
  revert l1 Hlen. induction s1 as [|a s1 IH]; intros [|b l1] Hlen;
    simpl in Hlen; try discriminate; [reflexivity|].
  cbn [app combine flat_map]. rewrite IH by congruence.
  rewrite <- app_assoc. reflexivity.
Qed.

(** A completed step appends its three summaries and writes neither an
    audio summary nor a file. *)
Lemma step_appends_summaries `{Backend} args opts names steps w r w' :
  train_step args opts names steps w = (Ok r, w') ->
  (exists g d, summaries w' = summaries w ++ step_summaries steps g d)
  /\ audio_summaries w' = audio_summaries w /\ saved w' = saved w.
Proof.
  rewrite train_step_split. intros Hrun.
  apply bind_ok_inv in Hrun. destruct Hrun as (s & w1 & Hbefore & Hrun).
  pose proof (preserves_before_loss args names _ _ _ Hbefore) as Hsame1.
  destruct s as [[[dataset z] tape] [[[G_z D_G_z] D_x] Q_G_z]].
  unfold from_loss in Hrun.
  apply bind_ok_inv in Hrun. destruct Hrun as ([[g d] q] & w2 & Hloss & Hrun).
  pose proof (preserves_compute_loss _ _ _ _ _ _ _ _ _ _ _ _ Hloss) as Hsame2.
  apply bind_ok_inv in Hrun. destruct Hrun as (o & w3 & Hupd & Hrun).
  pose proof (summaries_apply_updates _ _ _ _ _ Hupd) as Hs3.
  destruct (outputs_apply_updates _ _ _ _ _ Hupd) as (Ha3 & Hf3).
  pose proof (same_models_trans _ _ _ Hsame1 Hsame2) as Hsame.
  pose proof (same_models_summaries _ _ Hsame) as Hs.
  destruct (same_models_outputs _ _ Hsame) as (Ha & Hf).
  unfold add_summary, bind, modify, ret in Hrun. inversion Hrun; subst.
  cbn [summaries audio_summaries saved]. split; [|split].
  - exists g, d. rewrite <- !app_assoc. cbn [app]. rewrite Hs3, Hs.
    reflexivity.
  - congruence.
  - congruence.
Qed.

(** One epoch: the batches from index [a] on, in epoch [e].  The locals
    end as those of the last batch. *)
Lemma epoch_appends_summaries `{Backend} args (N : Z) (e : nat) names_list :
  forall a acc w acc' w',
    foldM (train_batch args N e) acc
          (combine (seq a (length names_list)) names_list) w
    = (Ok acc', w') ->
    exists losses,
      length losses = length names_list
      /\ summaries w'
         = summaries w
           ++ logged (map (fun b => (N * Z.of_nat e + Z.of_nat b)%Z)
                          (seq a (length names_list))) losses
      /\ audio_summaries w' = audio_summaries w
      /\ saved w' = saved w
      /\ (names_list <> [] ->
          exists G_z,
            snd acc'
            = Some ((N * Z.of_nat e
                     + Z.of_nat (a + length names_list - 1))%Z, G_z)).
Proof.
  induction names_list as [|names rest IH]; intros a acc w acc' w' Hrun.
  - inversion Hrun; subst. exists []. split; [reflexivity|].
    split; [cbn; rewrite app_nil_r; reflexivity|].
    split; [reflexivity|]. split; [reflexivity|]. intros Hne. contradiction.
  - cbn [length seq combine foldM] in Hrun.
    apply bind_ok_inv in Hrun. destruct Hrun as (acc1 & w1 & Hbatch & Hrun).
    unfold train_batch in Hbatch.
    apply bind_ok_inv in Hbatch.
    destruct Hbatch as ([opts1 G_z] & w0 & Hstep & Hret).
    inversion Hret; subst acc1 w0. clear Hret.
    apply step_appends_summaries in Hstep.
    destruct Hstep as ((g & d & Hs1) & Ha1 & Hf1).
    pose proof Hrun as Hrest.
    apply IH in Hrun.
    destruct Hrun as (losses & Hlen & Hs2 & Ha2 & Hf2 & Hlocals).
    exists ((g, d) :: losses). split; [simpl; congruence|].
    split; [rewrite Hs2, Hs1, <- app_assoc; reflexivity|].
    split; [congruence|]. split; [congruence|]. intros _.
    destruct rest as [|names' rest'].
    + inversion Hrest; subst. exists G_z. cbn [snd length].
      do 2 f_equal. lia.
    + destruct Hlocals as (G_z' & Hl); [discriminate|].
      exists G_z'. rewrite Hl. do 2 f_equal. cbn [length]. lia.
Qed.

Lemma map_add_seq k a n : map (Nat.add k) (seq a n) = seq (k + a) n.
Proof.
  revert a. induction n as [|n IH]; intros a; [reflexivity|].
  cbn [seq map]. rewrite IH. f_equal. f_equal. lia.
Qed.

(** In epoch [e] of a run with [N] batches the steps are
    e * N, ..., e * N + N - 1. *)
Lemma epoch_steps_consecutive (N e : nat) :
  map (fun b => (Z.of_nat N * Z.of_nat e + Z.of_nat b)%Z) (seq 0 N)
  = map Z.of_nat (seq (e * N) N).
Proof.
  rewrite <- (Nat.add_0_r (e * N)), <- map_add_seq, map_map.
  apply map_ext. intros b. lia.
Qed.

(** What the end of an epoch writes, the locals being bound. *)
Lemma end_of_epoch_writes args steps G_z w :
  exists w',
    end_of_epoch args (Some (steps, G_z)) w = (Ok tt, w')
    /\ same_variables w w'
    /\ summaries w' = summaries w
    /\ audio_summaries w' = audio_summaries w ++ [audio_entry args steps G_z]
    /\ saved w' = saved w ++ model_files w.
Proof.
  eexists. split; [reflexivity|].
  cbn [summaries audio_summaries saved G_layers D_layers Q_layers
       model_layers].
  split; [repeat split|]. split; [reflexivity|]. split; [reflexivity|].
  rewrite <- !app_assoc. reflexivity.
Qed.

(** The loop over the epochs, from epoch [e0] on. *)
Lemma epochs_append_summaries `{Backend} args names_list k :
  names_list <> [] ->
  forall e0 acc w acc' w',
    foldM (fun (a : Optimizers * LoopLocals) epoch =>
             a <- foldM (train_batch args (Z.of_nat (length names_list)) epoch)
                        a (combine (seq 0 (length names_list)) names_list) ;;
             end_of_epoch args (snd a) ;;;
             ret a)
          acc (seq e0 k) w
    = (Ok acc', w') ->
    exists losses audio,
      length losses = (k * length names_list)%nat
      /\ summaries w'
         = summaries w
           ++ logged (map Z.of_nat (seq (e0 * length names_list)
                                        (k * length names_list))) losses
      /\ length audio = k
      /\ audio_summaries w'
         = audio_summaries w
           ++ epoch_audio args (length names_list) (seq e0 k) audio.
Proof.
  intros Hne.
  induction k as [|k IH]; intros e0 acc w acc' w' Hrun.
  - inversion Hrun; subst. exists [], []. split; [reflexivity|].
    split; [cbn; rewrite app_nil_r; reflexivity|]. split; [reflexivity|].
    cbn. rewrite app_nil_r. reflexivity.
  - cbn [seq foldM] in Hrun.
    apply bind_ok_inv in Hrun. destruct Hrun as (acc1 & w1 & Hepoch & Hrun).
    apply bind_ok_inv in Hepoch. destruct Hepoch as (acc2 & w2 & Hloop & Hend).
    apply epoch_appends_summaries in Hloop.
    destruct Hloop as (l1 & Hlen1 & Hs1 & Ha1 & _ & Hlocals).
    destruct (Hlocals Hne) as (G_z & Hl). rewrite Hl in Hend.
    destruct (end_of_epoch_writes args
                (Z.of_nat (length names_list) * Z.of_nat e0
                 + Z.of_nat (0 + length names_list - 1)) G_z w2)
      as (w3 & Hwrite & _ & Hs3 & Ha3 & _).
    rewrite (bind_ok _ Hwrite) in Hend. inversion Hend; subst acc1 w1.
    clear Hend.
    apply IH in Hrun. destruct Hrun as (l2 & audio & Hlen2 & Hs2 & Hlena & Ha2).
    exists (l1 ++ l2), (G_z :: audio).
    split; [rewrite length_app; simpl; lia|].
    split; [|split; [simpl; congruence|]].
    + rewrite Hs2, Hs3, Hs1, <- app_assoc. f_equal.
      rewrite epoch_steps_consecutive.
      cbn [Nat.mul]. rewrite seq_app, map_app, logged_app.
      * rewrite (Nat.add_comm (length names_list)). reflexivity.
      * rewrite length_map, length_seq. congruence.
    + rewrite Ha2, Ha3, Ha1, <- app_assoc. f_equal.
      unfold epoch_audio. cbn [seq combine map app fst snd]. f_equal.
      f_equal. destruct names_list as [|names rest]; [contradiction|].
      cbn [length]. nia.
Qed.

(** X11.  When [train] returns, the scalar summaries have grown by three
    entries per step, and the steps are numbered 0, 1, ..., E * N - 1 in the
    order they ran, for E epochs of N batches: steps = batches * epoch +
    batch counts without gap or repetition.  The audio summaries have grown
    by one entry per epoch, named G_Audio_ and the number of the epoch's last
    step, written at that step number - a number its three scalar summaries
    carry too - with the configured sample rate. *)
Theorem train_numbers_steps_consecutively `{Backend} (fps : list string)
        (args : Args) (w w' : World) :
  train fps args w = (Ok tt, w') ->
  let N := length (generate_file_name_batch fps (train_batch_size args)) in
  let E := Z.to_nat (num_epoch args) in
  exists (losses : list (R * R)) (audio : list T3),
    length losses = (E * N)%nat
    /\ summaries w'
       = summaries w ++ logged (map Z.of_nat (seq 0 (E * N))) losses
    /\ length audio = E
    /\ audio_summaries w'
       = audio_summaries w ++ epoch_audio args N (seq 0 E) audio.
Proof.
  unfold train. cbv zeta. intros Hrun.
  apply bind_ok_inv in Hrun. destruct Hrun as (u & w0 & Hcheck & Hrun).
  assert (Hne : generate_file_name_batch fps (train_batch_size args) <> []).
  { destruct (generate_file_name_batch fps (train_batch_size args));
      [discriminate Hcheck | discriminate]. }
  assert (Hw0 : w0 = w).
  { destruct (generate_file_name_batch fps (train_batch_size args));
      inversion Hcheck; reflexivity. }
  subst w0. clear Hcheck.
  apply bind_ok_inv in Hrun. destruct Hrun as (u1 & w1 & Hbuild & Hrun).
  pose proof (preserves_build_models args _ _ _ Hbuild) as Hsame.
  pose proof (same_models_summaries _ _ Hsame) as Hs1.
  destruct (same_models_outputs _ _ Hsame) as (Ha1 & _).
  apply bind_ok_inv in Hrun. destruct Hrun as (opts & w2 & Hopts & Hrun).
  assert (Hw2 : w2 = w1).
  { unfold make_optimizers in Hopts.
    repeat match type of Hopts with
           | (if ?b then _ else _) _ = _ => destruct b
           end; inversion Hopts; reflexivity. }
  subst w2. clear Hopts.
  apply bind_ok_inv in Hrun. destruct Hrun as (acc' & w3 & Hloop & Hrun).
  inversion Hrun; subst. clear Hrun.
  apply (epochs_append_summaries args _ _ Hne) in Hloop.
  destruct Hloop as (losses & audio & Hlen & Hs & Hlena & Ha).
  exists losses, audio. split; [exact Hlen|].
  split; [rewrite Hs, Hs1; reflexivity|]. split; [exact Hlena|].
  rewrite Ha, Ha1. reflexivity.
Qed.

(** Two steps of one epoch in the small world. *)
Lemma small_train_completes :
  exists w',
    @train Examples.two_batches ["a.wav"] (Examples.small_args "wgan-gp" false)
           Examples.small_world = (Ok tt, w').
Proof.
  unfold train. cbv zeta.
  cbn [generate_file_name_batch Examples.two_batches].
  unfold bind at 1. cbn [ret].
  destruct (@total_build_models Examples.two_batches
              (Examples.small_args "wgan-gp" false)) with (s := Examples.small_world)
    as (u & w1 & Hbuild).
  { repeat split; simpl; try lia; try discriminate; left; reflexivity. }
  pose proof (preserves_build_models _ _ _ _ Hbuild) as Hsame.
  rewrite (bind_ok _ Hbuild).
  unfold make_optimizers.
  cbn [wavegan_loss Examples.small_args String.eqb Ascii.eqb Bool.eqb].
  unfold bind at 1. cbn [ret].
  cbn [num_epoch Examples.small_args]. change (Z.to_nat 1) with 1%nat.
  cbn [seq length combine foldM]. unfold train_batch. cbn [fst].
  change (@train_step Examples.two_batches) with (@train_step Examples.backend).
  assert (Hsmall : small_models 0.5 1 w1).
  { apply (small_models_same _ _ _ _ Hsame). repeat split; reflexivity. }
  destruct (small_step_completes ["a.wav"]
              (Z.of_nat 2 * Z.of_nat 0 + Z.of_nat 0)
              {| G_opt := new_optimizer (Adam 1e-4 0.5 0.9);
                 D_opt := new_optimizer (Adam 1e-4 0.5 0.9);
                 Q_opt := Some (new_optimizer (RMSprop 1e-4)) |}
              _ 0.5 1 w1 eq_refl Hsmall)
    as (w2 & g1 & d1 & Hstep1 & _ & Hsmall2).
  unfold bind. rewrite Hstep1. cbv beta iota. cbn [ret fst].
  destruct (small_step_completes ["a.wav"]
              (Z.of_nat 2 * Z.of_nat 0 + Z.of_nat 1)
              {| G_opt := new_optimizer (Adam 1e-4 0.5 0.9);
                 D_opt := new_optimizer (Adam 1e-4 0.5 0.9);
                 Q_opt := Some (new_optimizer (RMSprop 1e-4)) |}
              _ 0.5 1 w2 eq_refl Hsmall2)
    as (w3 & g2 & d2 & Hstep2 & _ & _).
  rewrite Hstep2. cbv beta iota. eexists. reflexivity.
Qed.

Lemma train_numbers_steps_consecutively_witness :
  exists w' g0 d0 g1 d1 G_z,
    @train Examples.two_batches ["a.wav"] (Examples.small_args "wgan-gp" false)
           Examples.small_world = (Ok tt, w')
    /\ summaries w'
       = [("Generator_loss", g0, 0%Z); ("Discriminator_loss", d0, 0%Z);
          ("Q_loss", d0, 0%Z);
          ("Generator_loss", g1, 1%Z); ("Discriminator_loss", d1, 1%Z);
          ("Q_loss", d1, 1%Z)]
    /\ audio_summaries w' = [("G_Audio_1", G_z, 16000%Z, 1%Z)].
Proof.
  destruct small_train_completes as (w' & Hrun).
  destruct (@train_numbers_steps_consecutively Examples.two_batches _ _ _ _
              Hrun) as (losses & audio & Hlen & Hsum & Hlena & Haudio).
  cbn in Hlen, Hlena.
  destruct losses as [|[g0 d0] [|[g1 d1] [|]]]; try discriminate Hlen.
  destruct audio as [|G_z [|]]; try discriminate Hlena.
  exists w', g0, d0, g1, d1, G_z. split; [exact Hrun|].
  split; [exact Hsum | exact Haudio].
Defined.

(** ** The model files *)





(** ** Bounds on the wgan-gp losses *)

Lemma rsum_lower_bound c l :
  Forall (fun v => c < v) l -> l <> [] -> c * INR (length l) < rsum l.
Proof.
  intros Hall Hne. induction Hall as [|v l Hv Hall IH]; [contradiction|].
  unfold rsum in *. cbn [fold_right length]. rewrite S_INR.
  destruct l as [|v' l].
  - simpl. lra.
  - assert (Hne' : v' :: l <> []) by discriminate. specialize (IH Hne'). lra.
Qed.

Lemma rsum_upper_bound c l :
  Forall (fun v => v < c) l -> l <> [] -> rsum l < c * INR (length l).
Proof.
  intros Hall Hne. induction Hall as [|v l Hv Hall IH]; [contradiction|].
  unfold rsum in *. cbn [fold_right length]. rewrite S_INR.
  destruct l as [|v' l].
  - simpl. lra.
  - assert (Hne' : v' :: l <> []) by discriminate. specialize (IH Hne'). lra.
Qed.

Lemma INR_length_pos {A} (l : list A) : l <> [] -> 0 < INR (length l).
Proof.
  intros Hne. destruct l; [contradiction|]. apply lt_0_INR. simpl. lia.
Qed.

Lemma reduce_mean_above c l :
  Forall (fun v => c < v) l -> l <> [] -> c < tf.reduce_mean l.
Proof.
  intros Hall Hne. unfold tf.reduce_mean.
  pose proof (rsum_lower_bound c l Hall Hne) as Hsum.
  pose proof (INR_length_pos l Hne) as Hpos.
  apply Rmult_lt_reg_r with (r := INR (length l)); [exact Hpos|].
  unfold Rdiv. rewrite Rmult_assoc, Rinv_l by lra. lra.
Qed.

Lemma reduce_mean_below c l :
  Forall (fun v => v < c) l -> l <> [] -> tf.reduce_mean l < c.
Proof.
  intros Hall Hne. unfold tf.reduce_mean.
  pose proof (rsum_upper_bound c l Hall Hne) as Hsum.
  pose proof (INR_length_pos l Hne) as Hpos.
  apply Rmult_lt_reg_r with (r := INR (length l)); [exact Hpos|].
  unfold Rdiv. rewrite Rmult_assoc, Rinv_l by lra. lra.
Qed.

Lemma rsum_nonneg l : Forall (fun v => 0 <= v) l -> 0 <= rsum l.
Proof.
  induction 1 as [|v l Hv _ IH]; unfold rsum in *; simpl; lra.
Qed.

Lemma reduce_mean_nonneg l : Forall (fun v => 0 <= v) l -> 0 <= tf.reduce_mean l.
Proof.
  intros Hall. unfold tf.reduce_mean, Rdiv.
  destruct l as [|v l].
  - unfold rsum. simpl. lra.
  - apply Rmult_le_pos; [apply rsum_nonneg, Hall|].
    apply Rlt_le, Rinv_0_lt_compat, INR_length_pos. discriminate.
Qed.

(** A logit in (0, 1) against a label in [0, 1] costs more than
    ln(1 + exp(-1)). *)
Lemma sigmoid_ce_squashed_logit label logit :
  0 <= label <= 1 -> 0 < logit < 1 ->
  ln (1 + exp (- 1)) < tf.sigmoid_ce label logit.
Proof.
  intros Hl Hq. unfold tf.sigmoid_ce.
  rewrite Rmax_left by lra. rewrite Rabs_right by lra.
  assert (Hexp : exp (- 1) < exp (- logit)) by (apply exp_increasing; lra).
  assert (Hln : ln (1 + exp (- 1)) < ln (1 + exp (- logit))).
  { apply ln_increasing; [|lra]. pose proof (exp_pos (- 1)). lra. }
  assert (Hprod : 0 <= logit * (1 - label)) by (apply Rmult_le_pos; lra).
  lra.
Qed.

Lemma same_shape2_cons a b (ra rb : T1) :
  tf.same_shape2 (ra :: a) (rb :: b) = true ->
  length ra = length rb /\ tf.same_shape2 a b = true.
Proof.
  unfold tf.same_shape2. cbn [length combine forallb fst snd Nat.eqb].
  intros H. apply andb_prop in H. destruct H as [Hlen H].
  apply andb_prop in H. destruct H as [Hrow Hrest].
  apply Nat.eqb_eq in Hrow. split; [exact Hrow|].
  rewrite Hlen, Hrest. reflexivity.
Qed.

Lemma same_shape2_nil_r a : tf.same_shape2 a [] = true -> a = [].
Proof.
  unfold tf.same_shape2. intros H. apply andb_prop in H. destruct H as [H _].
  apply Nat.eqb_eq in H. destruct a; [reflexivity | discriminate H].
Qed.

(** The cross-entropy matrix over a code block and squashed logits. *)
Lemma code_cross_entropy_above (labels logits : T2) :
  tf.same_shape2 labels logits = true ->
  Forall (Forall (fun v => 0 <= v <= 1)) labels ->
  Forall (Forall (fun v => 0 < v < 1)) logits ->
  Forall (fun v => ln (1 + exp (- 1)) < v)
         (concat (zipWith (zipWith tf.sigmoid_ce) labels logits))
  /\ length (concat (zipWith (zipWith tf.sigmoid_ce) labels logits))
     = length (concat labels).
Proof.
  revert logits. induction labels as [|ra labels IH]; intros [|rb logits] Hs Hl Hq;
    try (split; [constructor | reflexivity]).
  - apply same_shape2_nil_r in Hs. discriminate Hs.
  - apply same_shape2_cons in Hs. destruct Hs as [Hrow Hs].
    inversion Hl as [|? ? Hla Hl']; subst. inversion Hq as [|? ? Hqa Hq']; subst.
    destruct (IH logits Hs Hl' Hq') as [IHall IHlen].
    cbn [zipWith concat]. split.
    + apply Forall_app. split; [|exact IHall].
      eapply Forall_zipWith; [|exact Hla|exact Hqa].
      intros l q Hlv Hqv. apply sigmoid_ce_squashed_logit; assumption.
    + rewrite !length_app, IHlen, zipWith_length by exact Hrow. reflexivity.
Qed.

Lemma Forall_firstn_keeps {A} (P : A -> Prop) n (l : list A) :
  Forall P l -> Forall P (firstn n l).
Proof.
  intros H. revert n. induction H as [|a l Ha _ IH]; intros [|n]; simpl;
    constructor; auto.
Qed.

Lemma Forall_take_columns (P : R -> Prop) n (t : T2) :
  Forall (Forall P) t -> Forall (Forall P) (tf.take_columns n t).
Proof.
  intros H. unfold tf.take_columns. apply Forall_map.
  eapply Forall_impl; [|exact H]. intros row Hrow. cbn beta.
  destruct (n <? 0)%Z; apply Forall_firstn_keeps; exact Hrow.
Qed.

(** X12.  Under wgan-gp, with code labels in [0, 1] and code predictions
    strictly between 0 and 1 (the code predictor's sigmoid outputs, which
    [compute_loss] uses as logits), the Q loss [compute_loss] returns
    exceeds ln(1 + exp(-1)), about 0.31: it cannot be driven to 0. *)
Theorem q_loss_is_bounded_away_from_zero (args : Args) (D_G_z D_x : T1)
        (x G_z : T3) (tape : Tape) (z Q_G_z : T2) (w : World) (g : T3)
        (rest : list weight) :
  wavegan_loss args = "wgan-gp" ->
  (0 <= train_batch_size args)%Z ->
  length x = Z.to_nat (train_batch_size args) ->
  same_shape3 x G_z ->
  tf.same_shape2 (tf.take_columns (num_categ args) z)
                 (tf.take_columns (num_categ args) Q_G_z) = true ->
  tape T_D_interp (Variables [inter_discriminator]) = W3 g :: rest ->
  Forall (Forall (fun v => 0 <= v <= 1)) (tf.take_columns (num_categ args) z) ->
  concat (tf.take_columns (num_categ args) z) <> [] ->
  Forall (Forall (fun v => 0 < v < 1)) Q_G_z ->
  exists G_loss D_loss Q_loss w',
    compute_loss args D_G_z D_x x G_z inter_discriminator tape z Q_G_z w
    = (Ok (G_loss, D_loss, Q_loss), w')
    /\ ln (1 + exp (- 1)) < Q_loss.
Proof.
  intros Hloss HB Hlen Hshape Hq Htape Hlabels Hsome Hlogits.
  destruct (compute_loss_wgan_gp_returns args D_G_z D_x x G_z tape z Q_G_z w
              g rest Hloss HB Hlen Hshape Hq Htape) as (w' & Hrun & _).
  eexists _, _, _, w'. split; [exact Hrun|].
  destruct (code_cross_entropy_above _ _ Hq Hlabels
              (Forall_take_columns _ _ _ Hlogits)) as [Hall Hcount].
  unfold tf.reduce_mean2. apply reduce_mean_above; [exact Hall|].
  intros Hnil. apply Hsome. apply length_zero_iff_nil.
  rewrite <- Hcount, Hnil. reflexivity.
Qed.

Lemma q_loss_is_bounded_away_from_zero_witness :
  exists G_loss D_loss Q_loss w',
    compute_loss (Examples.small_args "wgan-gp" false) [0.5] [0.5]
                 Examples.one_real Examples.one_fake inter_discriminator
                 Examples.kernel_gradient_tape Examples.one_latent
                 Examples.one_code Examples.small_world
    = (Ok (G_loss, D_loss, Q_loss), w')
    /\ ln (1 + exp (- 1)) < Q_loss.
Proof.
  apply (@q_loss_is_bounded_away_from_zero
           (Examples.small_args "wgan-gp" false) [0.5] [0.5]
           Examples.one_real Examples.one_fake Examples.kernel_gradient_tape
           Examples.one_latent Examples.one_code Examples.small_world
           [[[3; 4]]] []).
  - reflexivity.
  - simpl. lia.
  - reflexivity.
  - repeat constructor.
  - reflexivity.
  - reflexivity.
  - repeat constructor; lra.
  - discriminate.
  - repeat constructor; lra.
Defined.

(** X13.  Under wgan-gp, with discriminator scores strictly between 0 and 1
    (as the discriminator produces them), the generator loss [compute_loss]
    returns lies strictly between -1 and 0, and the discriminator loss is at
    least mean(D_G_z) - mean(D_x), the gradient penalty being non-negative,
    hence above -1. *)
Theorem wgan_gp_losses_are_bounded (args : Args) (D_G_z D_x : T1)
        (x G_z : T3) (tape : Tape) (z Q_G_z : T2) (w : World) (g : T3)
        (rest : list weight) :
  wavegan_loss args = "wgan-gp" ->
  (0 <= train_batch_size args)%Z ->
  length x = Z.to_nat (train_batch_size args) ->
  same_shape3 x G_z ->
  tf.same_shape2 (tf.take_columns (num_categ args) z)
                 (tf.take_columns (num_categ args) Q_G_z) = true ->
  tape T_D_interp (Variables [inter_discriminator]) = W3 g :: rest ->
  Forall (fun score => 0 < score < 1) D_G_z -> D_G_z <> [] ->
  Forall (fun score => 0 < score < 1) D_x -> D_x <> [] ->
  exists G_loss D_loss Q_loss w',
    compute_loss args D_G_z D_x x G_z inter_discriminator tape z Q_G_z w
    = (Ok (G_loss, D_loss, Q_loss), w')
    /\ - 1 < G_loss < 0
    /\ tf.reduce_mean D_G_z - tf.reduce_mean D_x <= D_loss
    /\ - 1 < D_loss.
Proof.
  intros Hloss HB Hlen Hshape Hq Htape Hfake Hfake_some Hreal Hreal_some.
  destruct (compute_loss_wgan_gp_returns args D_G_z D_x x G_z tape z Q_G_z w
              g rest Hloss HB Hlen Hshape Hq Htape) as (w' & Hrun & _).
  eexists _, _, _, w'. split; [exact Hrun|].
  assert (Hf0 : 0 < tf.reduce_mean D_G_z).
  { apply reduce_mean_above; [|exact Hfake_some].
    eapply Forall_impl; [|exact Hfake]. intros v Hv. cbn beta in Hv. lra. }
  assert (Hf1 : tf.reduce_mean D_G_z < 1).
  { apply reduce_mean_below; [|exact Hfake_some].
    eapply Forall_impl; [|exact Hfake]. intros v Hv. cbn beta in Hv. lra. }
  assert (Hr1 : tf.reduce_mean D_x < 1).
  { apply reduce_mean_below; [|exact Hreal_some].
    eapply Forall_impl; [|exact Hreal]. intros v Hv. cbn beta in Hv. lra. }
  assert (Hpen : 0 <= tf.reduce_mean
                        (map (fun s => (s - 1) ^ 2)
                             (map sqrt (tf.reduce_sum_12 (tf.square3 g))))).
  { apply reduce_mean_nonneg. apply Forall_map, Forall_forall.
    intros s _. apply pow2_ge_0. }
  repeat split; lra.
Qed.

Lemma wgan_gp_losses_are_bounded_witness :
  exists G_loss D_loss Q_loss w',
    compute_loss (Examples.small_args "wgan-gp" false) [0.5] [0.5]
                 Examples.one_real Examples.one_fake inter_discriminator
                 Examples.kernel_gradient_tape Examples.one_latent
                 Examples.one_code Examples.small_world
    = (Ok (G_loss, D_loss, Q_loss), w')
    /\ - 1 < G_loss < 0
    /\ tf.reduce_mean [0.5] - tf.reduce_mean [0.5] <= D_loss
    /\ - 1 < D_loss.
Proof.
  apply (@wgan_gp_losses_are_bounded
           (Examples.small_args "wgan-gp" false) [0.5] [0.5]
           Examples.one_real Examples.one_fake Examples.kernel_gradient_tape
           Examples.one_latent Examples.one_code Examples.small_world
           [[[3; 4]]] []).
  - reflexivity.
  - simpl. lia.
  - reflexivity.
  - repeat constructor.
  - reflexivity.
  - reflexivity.
  - repeat constructor; lra.
  - discriminate.
  - repeat constructor; lra.
  - discriminate.
Defined.

(** ** Where the interpolates lie *)

(** The interpolation coefficients: one per example, in [0, 1). *)
Lemma uniform_n11_unit n g :
  (0 <= n)%Z ->
  exists alpha g',
    random.uniform_n11 n 0 1 g = (Ok alpha, g')
    /\ length alpha = Z.to_nat n
    /\ Forall (fun e => exists s, e = [[s]] /\ 0 <= s < 1) alpha.
Proof.
  intros Hn. unfold random.uniform_n11, valid_shape. cbn [forallb].
  rewrite (proj2 (Z.leb_le 0 n) Hn). cbn [andb].
  destruct (replicateM_total (fun _ => True) next_raw next_raw_total
                             (Z.to_nat n) g) as (ws & g' & Hws & Hlen & _).
  eexists _, g'. rewrite (bind_ok _ Hws). split; [reflexivity|]. split.
  - rewrite length_map. exact Hlen.
  - apply Forall_map, Forall_forall. intros v _. eexists. split; [reflexivity|].
    pose proof (unit_float_range v). lra.
Qed.

Lemma between_endpoints a xv gv :
  0 <= a < 1 -> Rmin xv gv <= xv + a * (gv - xv) <= Rmax xv gv.
Proof.
  intros Ha. unfold Rmin, Rmax. destruct (Rle_dec xv gv) as [Hle | Hgt].
  - assert (0 <= a * (gv - xv)) by (apply Rmult_le_pos; lra).
    assert (a * (gv - xv) <= 1 * (gv - xv))
      by (apply Rmult_le_compat_r; lra).
    lra.
  - assert (0 <= a * (xv - gv)) by (apply Rmult_le_pos; lra).
    assert (a * (xv - gv) <= 1 * (xv - gv))
      by (apply Rmult_le_compat_r; lra).
    lra.
Qed.

Lemma nth_error_map_some {A B} (f : A -> B) l i b :
  nth_error (map f l) i = Some b ->
  exists a, nth_error l i = Some a /\ b = f a.
Proof.
  rewrite nth_error_map. destruct (nth_error l i) as [a|]; [|discriminate].
  intros H. inversion H. eauto.
Qed.

(** X14.  For a real and a generated batch of the same shape, the
    interpolation coefficients are drawn, the interpolation is defined, and
    every entry of the interpolated batch lies between the real and the
    generated entry at the same position: the coefficients lie in [0, 1). *)
Theorem interpolates_lie_between (x G_z : T3) (n : Z) (g : Rng) :
  (0 <= n)%Z -> length x = Z.to_nat n -> same_shape3 x G_z ->
  exists alpha g' interpolates,
    random.uniform_n11 n 0 1 g = (Ok alpha, g')
    /\ interpolate x G_z alpha = Ok interpolates
    /\ forall i j k v,
        value_at interpolates i j k = Some v ->
        exists real fake,
          value_at x i j k = Some real /\ value_at G_z i j k = Some fake
          /\ Rmin real fake <= v <= Rmax real fake.
Proof.
  intros Hn Hlen Hshape.
  destruct (uniform_n11_unit n g Hn) as (alpha & g' & Halpha & Hlena & Hunit).
  assert (Hn11 : shape_n11 alpha).
  { eapply Forall_impl; [|exact Hunit]. intros e (s & He & _). eauto. }
  exists alpha, g'. eexists. split; [exact Halpha|].
  split; [apply (interpolate_same_shape x G_z alpha Hshape Hn11); congruence|].
  intros i j k v Hv. unfold value_at in *.
  destruct (nth_error (zipWith _ x _) i) as [ie|] eqn:Hi; [|discriminate Hv].
  apply zipWith_nth_error_inv in Hi.
  destruct Hi as (xe & se & Hxe & Hse & ->).
  apply zipWith_nth_error_inv in Hse.
  destruct Hse as (ae & de & Hae & Hde & ->).
  apply zipWith_nth_error_inv in Hde.
  destruct Hde as (ge & xe' & Hge & Hxe' & ->).
  rewrite Hxe in Hxe'. inversion Hxe'; subst xe'. clear Hxe'.
  rewrite Hxe, Hge.
  pose proof (proj1 (Forall_forall _ _) Hunit ae (nth_error_In _ _ Hae))
    as (a & -> & Ha).
  unfold scalar_of in Hv. cbn [nth] in Hv.
  destruct (nth_error (zipWith _ xe _) j) as [fr|] eqn:Hj; [|discriminate Hv].
  apply zipWith_nth_error_inv in Hj.
  destruct Hj as (xf & sf & Hxf & Hsf & ->).
  apply nth_error_map_some in Hsf. destruct Hsf as (df & Hdf & ->).
  apply zipWith_nth_error_inv in Hdf.
  destruct Hdf as (gf & xf' & Hgf & Hxf' & ->).
  rewrite Hxf in Hxf'. inversion Hxf'; subst xf'. clear Hxf'.
  rewrite Hxf, Hgf.
  apply zipWith_nth_error_inv in Hv.
  destruct Hv as (xv & sv & Hxv & Hsv & ->).
  apply nth_error_map_some in Hsv. destruct Hsv as (dv & Hdv & ->).
  apply zipWith_nth_error_inv in Hdv.
  destruct Hdv as (gv & xv' & Hgv & Hxv' & ->).
  rewrite Hxv in Hxv'. inversion Hxv'; subst xv'. clear Hxv'.
  exists xv, gv. split; [exact Hxv|]. split; [exact Hgv|].
  apply between_endpoints. exact Ha.
Qed.

Lemma interpolates_lie_between_witness :
  exists alpha g' interpolates,
    random.uniform_n11 2 0 1 (Examples.counter_rng 0) = (Ok alpha, g')
    /\ interpolate Examples.real_batch Examples.fake_batch alpha
       = Ok interpolates
    /\ forall i j k v,
        value_at interpolates i j k = Some v ->
        exists real fake,
          value_at Examples.real_batch i j k = Some real
          /\ value_at Examples.fake_batch i j k = Some fake
          /\ Rmin real fake <= v <= Rmax real fake.
Proof.
  apply (interpolates_lie_between Examples.real_batch Examples.fake_batch 2
           (Examples.counter_rng 0)).
  - lia.
  - reflexivity.
  - repeat constructor.
Defined.

(** ** 16-bit encoding of the generated audio *)

Lemma cast_int16_nonneg x : 0 <= x -> cast_int16 x = Int_part x.
Proof. intros Hx. unfold cast_int16. destruct (Rle_dec 0 x); [reflexivity | contradiction]. Qed.

Lemma cast_int16_neg x : x < 0 -> cast_int16 x = (- Int_part (- x))%Z.
Proof. intros Hx. unfold cast_int16. destruct (Rle_dec 0 x); [lra | reflexivity]. Qed.

Lemma Int_part_IZR z : Int_part (IZR z) = z.
Proof. symmetry. apply Int_part_spec. lra. Qed.

Lemma Int_part_nonneg x : 0 <= x -> (0 <= Int_part x)%Z.
Proof.
  intros Hx. destruct (base_Int_part x) as [_ Hup].
  assert (H : -1 < IZR (Int_part x)) by lra.
  apply lt_IZR in H. lia.
Qed.

Lemma Int_part_le x y : x <= y -> (Int_part x <= Int_part y)%Z.
Proof.
  intros Hxy. destruct (base_Int_part x) as [Hx _].
  destruct (base_Int_part y) as [_ Hy].
  assert (H : IZR (Int_part x) < IZR (Int_part y) + 1) by lra.
  rewrite <- plus_IZR in H. apply lt_IZR in H. lia.
Qed.

Lemma cast_int16_odd x : cast_int16 (- x) = (- cast_int16 x)%Z.
Proof.
  destruct (Rtotal_order x 0) as [Hneg | [Hzero | Hpos]].
  - rewrite (cast_int16_nonneg (- x)), (cast_int16_neg x) by lra. lia.
  - subst x. rewrite Ropp_0, cast_int16_nonneg by lra.
    change 0 with (IZR 0). rewrite Int_part_IZR. reflexivity.
  - rewrite (cast_int16_neg (- x)), (cast_int16_nonneg x) by lra.
    rewrite Ropp_involutive. reflexivity.
Qed.

Lemma cast_int16_le x y : x <= y -> (cast_int16 x <= cast_int16 y)%Z.
Proof.
  intros Hxy. destruct (Rle_dec 0 x) as [Hx | Hx].
  - rewrite !cast_int16_nonneg by lra. apply Int_part_le, Hxy.
  - destruct (Rle_dec 0 y) as [Hy | Hy].
    + rewrite (cast_int16_neg x), (cast_int16_nonneg y) by lra.
      pose proof (Int_part_nonneg (- x) ltac:(lra)).
      pose proof (Int_part_nonneg y ltac:(lra)). lia.
    + rewrite !cast_int16_neg by lra.
      pose proof (Int_part_le (- y) (- x) ltac:(lra)). lia.
Qed.

Lemma clip_range x lo hi : lo <= hi -> lo <= tf.clip_by_value x lo hi <= hi.
Proof.
  intros Hlh. unfold tf.clip_by_value, Rmax, Rmin.
  destruct (Rle_dec x hi); destruct (Rle_dec lo _); lra.
Qed.

Lemma clip_inside x lo hi : lo <= x <= hi -> tf.clip_by_value x lo hi = x.
Proof.
  intros Hx. unfold tf.clip_by_value, Rmax, Rmin.
  destruct (Rle_dec x hi); destruct (Rle_dec lo _); lra.
Qed.

Lemma clip_odd x c : 0 <= c ->
  tf.clip_by_value (- x) (- c) c = - tf.clip_by_value x (- c) c.
Proof.
  intros Hc. unfold tf.clip_by_value, Rmax, Rmin.
  destruct (Rle_dec (- x) c); destruct (Rle_dec x c);
    repeat match goal with |- context [Rle_dec ?a ?b] => destruct (Rle_dec a b) end;
    lra.
Qed.

Lemma clip_le x y lo hi :
  x <= y -> tf.clip_by_value x lo hi <= tf.clip_by_value y lo hi.
Proof.
  intros Hxy. unfold tf.clip_by_value, Rmax, Rmin.
  destruct (Rle_dec x hi); destruct (Rle_dec y hi);
    repeat match goal with |- context [Rle_dec ?a ?b] => destruct (Rle_dec a b) end;
    lra.
Qed.

Lemma cast_int16_IZR z : cast_int16 (IZR z) = z.
Proof.
  destruct (Z.le_gt_cases 0 z) as [Hz | Hz].
  - rewrite cast_int16_nonneg by (apply IZR_le in Hz; exact Hz).
    apply Int_part_IZR.
  - rewrite cast_int16_neg by (apply IZR_lt in Hz; exact Hz).
    rewrite <- opp_IZR, Int_part_IZR. lia.
Qed.

Lemma round_to_halves_rounds : rounds_like_float32 Examples.round_to_halves.
Proof.
  unfold Examples.round_to_halves. split; [|split].
  - intros p q Hpq.
    pose proof (cast_int16_le (2 * p) (2 * q) ltac:(lra)) as H.
    apply IZR_le in H. lra.
  - intros n _. rewrite <- mult_IZR, cast_int16_IZR, mult_IZR. lra.
  - intros p. replace (2 * - p) with (- (2 * p)) by ring.
    rewrite cast_int16_odd, opp_IZR. lra.
Qed.

(** X15.  Whatever the rounding of the float32 product x * 32767, as long
    as it is monotone, exact on the integers of the int16 range and
    symmetric - rounding to nearest is, and so is the exact product -
    [float_to_int16] returns a value in [-32767, 32767] for every input
    (never -32768), saturates at 32767 from 1 upwards and at -32767 from -1
    downwards, and is odd. *)
Theorem float_to_int16_saturates (rnd : R -> R) (x : R) :
  rounds_like_float32 rnd ->
  (- 32767 <= float_to_int16 rnd x <= 32767)%Z
  /\ (1 <= x -> float_to_int16 rnd x = 32767%Z)
  /\ (x <= - 1 -> float_to_int16 rnd x = (- 32767)%Z)
  /\ float_to_int16 rnd (- x) = (- float_to_int16 rnd x)%Z.
Proof.
  intros (Hmono & Hint & Hsym).
  unfold float_to_int16. cbv zeta.
  assert (Hhi : forall y, 32767 <= y ->
                  cast_int16 (tf.clip_by_value y (- 32767) 32767) = 32767%Z).
  { intros y Hy. unfold tf.clip_by_value. rewrite Rmin_right by lra.
    rewrite Rmax_right by lra. rewrite cast_int16_nonneg by lra.
    apply Int_part_IZR. }
  assert (Hodd : forall y,
             cast_int16 (tf.clip_by_value (- y) (- 32767) 32767)
             = (- cast_int16 (tf.clip_by_value y (- 32767) 32767))%Z).
  { intros y. change (-32767) with (Ropp 32767).
    rewrite clip_odd by lra. apply cast_int16_odd. }
  assert (Hneg : rnd (- x * 32767) = - rnd (x * 32767)).
  { replace (- x * 32767) with (- (x * 32767)) by ring. apply Hsym. }
  assert (Hsat : forall v, 1 <= v -> 32767 <= rnd (v * 32767)).
  { intros v Hv. pose proof (Hmono 32767 (v * 32767) ltac:(lra)) as H.
    rewrite (Hint 32767%Z) in H by lia. exact H. }
  split; [|split; [|split]].
  - pose proof (clip_range (rnd (x * 32767)) (- 32767) 32767 ltac:(lra))
      as [Hlo Hup].
    pose proof (cast_int16_le _ _ Hlo) as H1.
    pose proof (cast_int16_le _ _ Hup) as H2.
    rewrite (cast_int16_IZR (- 32767)) in H1.
    rewrite (cast_int16_IZR 32767) in H2.
    lia.
  - intros Hx. apply Hhi, Hsat, Hx.
  - intros Hx. replace (x * 32767) with (- (- x * 32767)) by ring.
    rewrite Hsym, Hodd, Hhi by (apply Hsat; lra). reflexivity.
  - rewrite Hneg. apply Hodd.
Qed.

Lemma float_to_int16_saturates_witness :
  (- 32767 <= float_to_int16 Examples.round_to_halves 2 <= 32767)%Z
  /\ float_to_int16 Examples.round_to_halves 2 = 32767%Z
  /\ float_to_int16 Examples.round_to_halves (- 2) = (- 32767)%Z.
Proof.
  destruct (float_to_int16_saturates Examples.round_to_halves 2
              round_to_halves_rounds) as (Hrange & Hhi & _ & _).
  destruct (float_to_int16_saturates Examples.round_to_halves (- 2)
              round_to_halves_rounds) as (_ & _ & Hlo & _).
  split; [exact Hrange|]. split; [apply Hhi; lra | apply Hlo; lra].
Defined.

Lemma Int_part_between (v : R) (k : Z) :
  IZR k <= v <= IZR k + 1 -> Int_part v = k \/ (Int_part v = (k + 1)%Z /\ v = IZR k + 1).
Proof.
  intros [Hlo Hhi]. destruct (Req_dec v (IZR k + 1)) as [Heq | Hne].
  - right. split; [|exact Heq]. subst v. rewrite <- plus_IZR. apply Int_part_IZR.
  - left. symmetry. apply Int_part_spec. lra.
Qed.

(** The rounded product of a value of [-1, 1] lies between the two integers
    around the exact product. *)
Lemma rounded_product_between rnd (p : R) (k : Z) :
  rounds_like_float32 rnd ->
  (0 <= k)%Z -> IZR k <= p < IZR k + 1 -> p <= 32767 ->
  IZR k <= rnd p <= IZR k + 1 /\ (p = IZR k -> rnd p = IZR k)
  /\ IZR k <= rnd p <= 32767.
Proof.
  intros (Hmono & Hint & _) Hk [Hlo Hhi] Hmax.
  assert (Hk' : (k <= 32767)%Z).
  { apply le_IZR. lra. }
  pose proof (Hmono _ _ Hlo) as H1. rewrite (Hint k) in H1 by lia.
  assert (H2 : rnd p <= IZR k + 1 /\ rnd p <= 32767).
  { destruct (Z.eq_dec k 32767) as [-> | Hne].
    - assert (p = 32767) by lra. subst p. rewrite (Hint 32767%Z) by lia. lra.
    - pose proof (Hmono p (IZR (k + 1)) ltac:(rewrite plus_IZR; lra)) as H2.
      rewrite (Hint (k + 1)%Z) in H2 by lia. rewrite plus_IZR in H2.
      assert (IZR (k + 1) <= 32767) by (apply IZR_le; lia).
      rewrite plus_IZR in *. lra. }
  split; [lra|]. split; [|lra].
  intros ->. apply Hint. lia.
Qed.

(** X16.  Under the same conditions on the rounding of the product,
    [float_to_int16] is monotone, and for x in [-1, 1] its result differs
    from the exact 32767 * x by less than 1.  (It need not be 32767 * x with
    the fraction dropped: the cast drops the fraction of the rounded
    product.) *)
Theorem float_to_int16_quantises (rnd : R -> R) (x y : R) :
  rounds_like_float32 rnd ->
  (x <= y -> (float_to_int16 rnd x <= float_to_int16 rnd y)%Z)
  /\ (- 1 <= x <= 1 ->
      Rabs (IZR (float_to_int16 rnd x) - x * 32767) < 1).
Proof.
  intros Hrnd. unfold float_to_int16. cbv zeta. split.
  - intros Hxy. apply cast_int16_le, clip_le. apply (proj1 Hrnd).
    apply Rmult_le_compat_r; lra.
  - intros Hx. set (p := x * 32767).
    assert (Hp : - 32767 <= p <= 32767) by (subst p; lra).
    destruct (Rle_dec 0 p) as [Hpos | Hneg].
    + destruct (base_Int_part p) as [Hlo Hup].
      pose proof (Int_part_nonneg p Hpos) as Hk.
      destruct (rounded_product_between rnd p (Int_part p) Hrnd Hk
                  ltac:(lra) ltac:(lra)) as (Hv & Hexact & Hrange).
      rewrite clip_inside by (apply IZR_le in Hk; lra).
      rewrite cast_int16_nonneg by (apply IZR_le in Hk; lra).
      destruct (Int_part_between _ _ Hv) as [-> | [-> Hv1]].
      * apply Rabs_def1; lra.
      * rewrite plus_IZR.
        destruct (Req_dec p (IZR (Int_part p))) as [Heq | Hne].
        -- rewrite (Hexact Heq) in Hv1. lra.
        -- apply Rabs_def1; lra.
    + assert (Hpos : 0 <= - p) by lra.
      destruct (base_Int_part (- p)) as [Hlo Hup].
      pose proof (Int_part_nonneg (- p) Hpos) as Hk.
      remember (Int_part (- p)) as k eqn:Hkdef.
      destruct Hrnd as (Hmono & Hint & _).
      assert (Hk' : (k <= 32767)%Z) by (apply le_IZR; lra).
      assert (Hhi : rnd p <= - IZR k).
      { pose proof (Hmono p (IZR (- k)) ltac:(rewrite opp_IZR; lra)) as H1.
        rewrite (Hint (- k)%Z) in H1 by lia. rewrite opp_IZR in H1. exact H1. }
      assert (Hexact : p = - IZR k -> rnd p = - IZR k).
      { intros ->. rewrite <- opp_IZR. apply Hint. lia. }
      assert (Hlow : - IZR k - 1 <= rnd p /\ - 32767 <= rnd p).
      { destruct (Z.eq_dec k 32767) as [Hk32 | Hne].
        - assert (Hk32' : IZR k = 32767) by (rewrite Hk32; reflexivity).
          assert (Hpe : p = - IZR k) by lra.
          rewrite (Hexact Hpe). lra.
        - pose proof (Hmono (IZR (- (k + 1))) p
                        ltac:(rewrite opp_IZR, plus_IZR; lra)) as H1.
          rewrite (Hint (- (k + 1))%Z) in H1 by lia.
          rewrite opp_IZR, plus_IZR in H1.
          assert (IZR (k + 1) <= 32767) by (apply IZR_le; lia).
          rewrite plus_IZR in *. lra. }
      apply IZR_le in Hk. change (IZR 0) with 0 in Hk.
      rewrite clip_inside by lra.
      destruct (Rle_dec 0 (rnd p)) as [Hz | Hnz].
      * assert (Hr0 : rnd p = 0) by lra.
        rewrite Hr0, cast_int16_nonneg by lra.
        change 0 with (IZR 0) at 1. rewrite Int_part_IZR.
        apply Rabs_def1; lra.
      * rewrite cast_int16_neg by lra. rewrite opp_IZR.
        destruct (Int_part_between (- rnd p) k ltac:(lra)) as [-> | [-> Hv1]].
        -- apply Rabs_def1; lra.
        -- rewrite plus_IZR.
           destruct (Req_dec p (- IZR k)) as [Heq | Hne].
           ++ rewrite (Hexact Heq) in Hv1. lra.
           ++ apply Rabs_def1; lra.
Qed.

Lemma float_to_int16_quantises_witness :
  (float_to_int16 Examples.round_to_halves (/ 4)
   <= float_to_int16 Examples.round_to_halves (/ 2))%Z
  /\ Rabs (IZR (float_to_int16 Examples.round_to_halves (/ 4))
           - / 4 * 32767) < 1.
Proof.
  destruct (float_to_int16_quantises Examples.round_to_halves (/ 4) (/ 2)
              round_to_halves_rounds) as [Hmono Herr].
  split; [apply Hmono; lra | apply Herr; lra].
Defined.

Lemma float_to_int16_zero rnd :
  rounds_like_float32 rnd -> float_to_int16 rnd 0 = 0%Z.
Proof.
  intros (_ & Hint & _). unfold float_to_int16. cbv zeta.
  rewrite Rmult_0_l. change 0 with (IZR 0) at 1. rewrite (Hint 0%Z) by lia.
  rewrite clip_inside by lra. apply cast_int16_IZR.
Qed.

(** ** The flattened preview audio *)

Lemma length_concat_uniform {A} (rows : list (list A)) n :
  Forall (fun r => length r = n) rows ->
  length (concat rows) = (length rows * n)%nat.
Proof.
  induction 1 as [|r rows Hr _ IH]; [reflexivity|].
  cbn [concat length]. rewrite length_app, IH, Hr. simpl. reflexivity.
Qed.

(** Cutting the values of equally long rows back into rows of that length
    returns the rows. *)
Lemma chunks_concat nch (rows : T2) :
  (0 < nch)%nat ->
  Forall (fun r => length r = nch) rows ->
  forall fuel, (length rows <= fuel)%nat ->
               chunks fuel nch (concat rows) = rows.
Proof.
  intros Hn Hrows. induction Hrows as [|r rows Hr _ IH]; intros fuel Hfuel.
  - destruct fuel; reflexivity.
  - destruct fuel as [|fuel]; [simpl in Hfuel; lia|].
    cbn [concat chunks].
    destruct (r ++ concat rows) as [|v rest] eqn:Hflat.
    { apply (f_equal (@length R)) in Hflat. rewrite length_app in Hflat.
      simpl in Hflat. lia. }
    rewrite <- Hflat. rewrite <- Hr at 1 3.
    rewrite firstn_app, Nat.sub_diag, firstn_all. cbn [firstn].
    rewrite app_nil_r.
    rewrite skipn_app, Nat.sub_diag, skipn_all. cbn [skipn app].
    rewrite IH by (simpl in Hfuel; lia). reflexivity.
Qed.

Lemma reshape_rows_frames nch (t : T3) :
  (0 < nch)%nat ->
  Forall (Forall (fun fr => length fr = nch)) t ->
  reshape_rows nch t = Ok (concat t).
Proof.
  intros Hn Hframes. unfold reshape_rows. cbv zeta.
  destruct (Nat.eqb_spec nch 0) as [H0 | _]; [lia|].
  assert (Hall : Forall (fun fr => length fr = nch) (concat t)).
  { apply Forall_concat. exact Hframes. }
  rewrite (length_concat_uniform _ _ Hall), Nat.Div0.mod_mul, Nat.eqb_refl.
  rewrite chunks_concat; [reflexivity | exact Hn | exact Hall |].
  destruct nch; [lia|]. nia.
Qed.

(** X17.  With a non-negative flat_pad and a batch whose frames have the
    generator's channel count, the flattened audio is the frames of the
    first example, then flat_pad frames of zeros, then the second example
    and its padding, and so on; quantising the flattened audio gives the
    same layout over the quantised frames, the padding being silence,
    whatever the rounding of the product (as above). *)
Theorem flat_audio_layout (rnd : R -> R) (args : Args) (flat_pad : Z)
        (G_z : T3) :
  rounds_like_float32 rnd ->
  (0 <= flat_pad)%Z ->
  (0 < infer_nch args)%nat ->
  Forall (Forall (fun fr => length fr = infer_nch args)) G_z ->
  G_z_flat args flat_pad G_z
  = Ok (concat (map (fun ex => ex ++ repeat (repeat 0 (infer_nch args))
                                            (Z.to_nat flat_pad)) G_z))
  /\ G_z_flat_int16 rnd args flat_pad G_z
     = Ok (concat (map (fun ex =>
                          map (map (float_to_int16 rnd)) ex
                          ++ repeat (repeat 0%Z (infer_nch args))
                                    (Z.to_nat flat_pad)) G_z)).
Proof.
  intros Hrnd Hpad Hn Hframes.
  assert (Hflat : G_z_flat args flat_pad G_z
                  = Ok (concat (map (fun ex =>
                                       ex ++ repeat (repeat 0 (infer_nch args))
                                                    (Z.to_nat flat_pad)) G_z))).
  { unfold G_z_flat, pad_frames. cbv zeta.
    destruct (Z.ltb_spec flat_pad 0) as [Hneg | _]; [lia|].
    apply reshape_rows_frames; [exact Hn|].
    apply Forall_map. eapply Forall_impl; [|exact Hframes].
    intros ex Hex. cbn beta. apply Forall_app. split; [exact Hex|].
    apply Forall_forall. intros fr Hin. apply repeat_spec in Hin. subst fr.
    apply repeat_length. }
  split; [exact Hflat|].
  unfold G_z_flat_int16. rewrite Hflat. f_equal.
  rewrite concat_map, map_map. f_equal. apply map_ext. intros ex.
  rewrite map_app, !map_repeat, (float_to_int16_zero rnd Hrnd). reflexivity.
Qed.

Lemma flat_audio_layout_witness :
  G_z_flat (Examples.small_args "wgan-gp" false) 2 [[[1]; [/ 2]]; [[0]; [- 1]]]
  = Ok [[1]; [/ 2]; [0]; [0]; [0]; [- 1]; [0]; [0]]
  /\ G_z_flat_int16 Examples.round_to_halves
                    (Examples.small_args "wgan-gp" false) 2
                    [[[1]; [/ 2]]; [[0]; [- 1]]]
     = Ok [[float_to_int16 Examples.round_to_halves 1];
           [float_to_int16 Examples.round_to_halves (/ 2)]; [0%Z]; [0%Z];
           [float_to_int16 Examples.round_to_halves 0];
           [float_to_int16 Examples.round_to_halves (- 1)]; [0%Z]; [0%Z]].
Proof.
  apply (flat_audio_layout Examples.round_to_halves
           (Examples.small_args "wgan-gp" false) 2
           [[[1]; [/ 2]]; [[0]; [- 1]]]).
  - exact round_to_halves_rounds.
  - lia.
  - apply Nat.lt_0_1.
  - repeat constructor.
Defined.

(** X18.  In the inference graph the generator is built with train=False:
    for a supported slice length and upsampling mode it returns whatever the
    number of update operations is, batch normalisation on or off, with one
    example per latent row and data_slice_len frames per example. *)
Theorem inference_generator_ignores_update_ops `{Backend} (args : Args)
        (z : T2) (net : Net) :
  valid_slice_len (data_slice_len args) ->
  wavegan_genr_upsample args = "zeros" \/ wavegan_genr_upsample args = "nn" ->
  exists G_z net',
    infer_G_z args z net = (Ok G_z, net')
    /\ length G_z = length z
    /\ frames (data_slice_len args) G_z.
Proof.
  intros Hslice Hup.
  assert (Htotal : total (infer_G_z args z)).
  { unfold infer_G_z. apply total_bind.
    - apply total_WaveGANGenerator; [exact Hslice | exact Hup |].
      intros Hbn. discriminate Hbn.
    - intros g. destruct (wavegan_genr_pp args);
        [apply total_Conv1D | apply total_ret]. }
  destruct (Htotal net) as (G_z & net' & Hrun).
  exists G_z, net'. split; [exact Hrun|].
  revert Hrun. generalize net G_z net'.
  change (post (infer_G_z args z)
               (fun G_z => length G_z = length z
                           /\ frames (data_slice_len args) G_z)).
  unfold infer_G_z.
  eapply post_bind.
  - apply post_conj;
      [apply post_WaveGANGenerator | apply post_frames_WaveGANGenerator].
  - intros g [Hlen Hfr]. destruct (wavegan_genr_pp args).
    + apply post_conj.
      * intros s a s' Hrun. apply post_Conv1D in Hrun. congruence.
      * apply post_frames_Conv1D_unit. exact Hfr.
    + apply post_ret. split; assumption.
Qed.

Lemma inference_generator_ignores_update_ops_witness :
  exists G_z net',
    @infer_G_z Examples.backend Examples.batchnorm_args Examples.zero_latent
               Examples.small_net = (Ok G_z, net')
    /\ length G_z = 1%nat
    /\ frames 16384 G_z.
Proof.
  apply (@inference_generator_ignores_update_ops Examples.backend
           Examples.batchnorm_args Examples.zero_latent Examples.small_net).
  - left. reflexivity.
  - left. reflexivity.
Defined.

(** X19.  The latent sampler of the inference graph returns samp_z_n rows of
    latent_dim entries, every entry in [-1, 1) - the whole vector is
    uniform, with no binary code part, and the value 1 never occurs - and
    uses samp_z_n * latent_dim words of the random generator. *)
Theorem inference_latents_are_uniform (args : Args) (n : Z) (g : Rng) :
  (0 <= wavegan_latent_dim args)%Z ->
  (0 <= n)%Z ->
  exists zs,
    samp_z args n g
    = (Ok zs,
       {| raw := raw g;
          cursor := (cursor g
                     + Z.to_nat n * Z.to_nat (wavegan_latent_dim args))%nat |})
    /\ length zs = Z.to_nat n
    /\ Forall (fun row =>
                 length row = Z.to_nat (wavegan_latent_dim args)
                 /\ Forall (fun v => - 1 <= v < 1) row) zs.
Proof.
  intros HD Hn. unfold samp_z, random.uniform.
  rewrite (valid_shape_pair Hn HD).
  destruct (replicateM_total
              (fun row : list Z => length row = Z.to_nat (wavegan_latent_dim args))
              (replicateM (Z.to_nat (wavegan_latent_dim args)) next_raw)) with
      (n := Z.to_nat n) (s := g) as (ws & g' & Hws & Hlen & Hall).
  { intros s.
    destruct (replicateM_total (fun _ => True) next_raw next_raw_total
                (Z.to_nat (wavegan_latent_dim args)) s)
      as (l & s' & Hl & Hlenl & _).
    exists l, s'. split; assumption. }
  destruct (replicateM_rows_cursor (Z.to_nat n)
              (Z.to_nat (wavegan_latent_dim args)) g) as (t & Ht).
  rewrite Hws in Ht. inversion Ht; subst t g'. clear Ht.
  eexists. rewrite (bind_ok _ Hws). split; [reflexivity|].
  split; [rewrite length_map; exact Hlen|].
  apply Forall_map. eapply Forall_impl; [|exact Hall].
  intros row Hrow. cbn beta in *. split; [rewrite length_map; exact Hrow|].
  apply Forall_map, Forall_forall. intros w _.
  pose proof (unit_float_range w) as [Hlo Hhi]. split; nra.
Qed.

Lemma inference_latents_are_uniform_witness :
  exists zs,
    samp_z (Examples.scenario "wgan-gp") 3 (Examples.counter_rng 0)
    = (Ok zs, {| raw := raw (Examples.counter_rng 0); cursor := 12 |})
    /\ length zs = 3%nat
    /\ Forall (fun row => length row = 4%nat
                          /\ Forall (fun v => - 1 <= v < 1) row) zs.
Proof.
  apply (inference_latents_are_uniform (Examples.scenario "wgan-gp") 3
           (Examples.counter_rng 0)); simpl; lia.
Defined.

(** ** The inception score *)

Lemma ln_le_minus_one t : 0 < t -> ln t <= t - 1.
Proof.
  intros Ht. pose proof (exp_ineq1_le (t - 1)) as He.
  replace (1 + (t - 1)) with t in He by ring.
  destruct He as [Hlt | Heq].
  - left. rewrite <- (ln_exp (t - 1)). apply ln_increasing; assumption.
  - right. rewrite Heq at 1. apply ln_exp.
Qed.

(** One term of the divergence against the difference of the two
    probabilities. *)
Lemma kl_term_bound p m : 0 < p -> 0 < m -> p - m <= p * (ln p - ln m).
Proof.
  intros Hp Hm.
  assert (Hq : 0 < m / p) by (apply Rdiv_lt_0_compat; assumption).
  pose proof (ln_le_minus_one (m / p) Hq) as Hln.
  unfold Rdiv in Hln. rewrite ln_mult in Hln; [|exact Hm|apply Rinv_0_lt_compat, Hp].
  rewrite ln_Rinv in Hln by exact Hp.
  assert (Hmul : p * (ln m + - ln p) <= p * (m * / p - 1))
    by (apply Rmult_le_compat_l; lra).
  replace (p * (m * / p - 1)) with (m - p) in Hmul by (field; lra).
  lra.
Qed.

Lemma rsum_vadd a b : length a = length b -> rsum (vadd a b) = rsum a + rsum b.
Proof.
  revert b. induction a as [|x a IH]; intros [|y b] Hlen; simpl in Hlen;
    try discriminate; unfold vadd, rsum in *; simpl; [lra|].
  rewrite IH by congruence. lra.
Qed.

Lemma rsum_scale c v : rsum (map (fun s => s / c) v) = rsum v / c.
Proof.
  induction v as [|x v IH]; unfold rsum in *; simpl; [unfold Rdiv; ring|].
  rewrite IH. unfold Rdiv. ring.
Qed.

Lemma column_sums_shape c (rows : T2) :
  Forall (fun row => length row = c /\ Forall (fun p => 0 < p) row) rows ->
  length (fold_right vadd (repeat 0 c) rows) = c
  /\ Forall (fun s => 0 <= s) (fold_right vadd (repeat 0 c) rows)
  /\ (rows <> [] -> Forall (fun s => 0 < s) (fold_right vadd (repeat 0 c) rows))
  /\ rsum (fold_right vadd (repeat 0 c) rows) = rsum (map rsum rows).
Proof.
  induction 1 as [|row rows [Hlen Hpos] _ (IHlen & IHnn & _ & IHsum)].
  - cbn [fold_right map]. rewrite repeat_length.
    split; [reflexivity|]. split.
    + apply Forall_forall. intros s Hin. apply repeat_spec in Hin. lra.
    + split; [intros Hne; contradiction|].
      unfold rsum. simpl. induction c; simpl; [reflexivity|]. lra.
  - cbn [fold_right map].
    set (F := fold_right vadd (repeat 0 c) rows) in *.
    assert (HlenF : length row = length F) by (rewrite IHlen; exact Hlen).
    assert (Hsum : Forall (fun s => 0 < s) (vadd row F)).
    { unfold vadd. eapply Forall_zipWith; [|exact Hpos|exact IHnn].
      intros x y Hx Hy. cbn beta in *. lra. }
    split; [unfold vadd; rewrite zipWith_length by exact HlenF; exact Hlen|].
    split.
    + eapply Forall_impl; [|exact Hsum]. intros s Hs. cbn beta in Hs. lra.
    + split; [intros _; exact Hsum|].
      rewrite rsum_vadd by exact HlenF. rewrite IHsum.
      unfold rsum. reflexivity.
Qed.

Lemma positive_rows_width c rows :
  positive_rows c rows -> length (hd [] rows) = c.
Proof.
  intros [Hne Hall]. destruct rows as [|row rows]; [contradiction|].
  apply Forall_inv in Hall. exact (proj1 Hall).
Qed.

(** The marginal of a group: positive, of the rows' width, and summing to
    the mean of the row sums. *)
Lemma column_means_shape c rows :
  positive_rows c rows ->
  length (column_means rows) = c
  /\ Forall (fun m => 0 < m) (column_means rows)
  /\ rsum (column_means rows) = rsum (map rsum rows) / INR (length rows).
Proof.
  intros Hrows. pose proof (positive_rows_width c rows Hrows) as Hw.
  destruct Hrows as [Hne Hall]. unfold column_means. rewrite Hw.
  destruct (column_sums_shape c rows Hall) as (Hlen & _ & Hpos & Hsum).
  pose proof (INR_length_pos rows Hne) as Hm.
  split; [rewrite length_map; exact Hlen|]. split.
  - apply Forall_map. eapply Forall_impl; [|exact (Hpos Hne)].
    intros s Hs. cbn beta in *. apply Rdiv_lt_0_compat; assumption.
  - rewrite rsum_scale, Hsum. reflexivity.
Qed.

Lemma rsum_kl_row row marginal :
  length row = length marginal ->
  Forall (fun p => 0 < p) row -> Forall (fun m => 0 < m) marginal ->
  rsum row - rsum marginal
  <= rsum (zipWith (fun p m => p * (ln p - ln m)) row marginal).
Proof.
  revert marginal. induction row as [|p row IH]; intros [|m marginal] Hlen Hp Hm;
    simpl in Hlen; try discriminate; unfold rsum in *; simpl; [lra|].
  inversion Hp; subst. inversion Hm; subst.
  pose proof (kl_term_bound p m ltac:(assumption) ltac:(assumption)).
  specialize (IH marginal ltac:(congruence) ltac:(assumption) ltac:(assumption)).
  lra.
Qed.

Lemma rsum_kl_rows c rows marginal :
  length marginal = c -> Forall (fun m => 0 < m) marginal ->
  Forall (fun row => length row = c /\ Forall (fun p => 0 < p) row) rows ->
  rsum (map rsum rows) - INR (length rows) * rsum marginal
  <= rsum (map rsum
             (map (fun row => zipWith (fun p m => p * (ln p - ln m)) row marginal)
                  rows)).
Proof.
  intros Hlen Hm. induction 1 as [|row rows [Hrow Hpos] _ IH].
  - unfold rsum. simpl. lra.
  - cbn [map length]. rewrite S_INR.
    pose proof (rsum_kl_row row marginal ltac:(congruence) Hpos Hm) as Hr.
    unfold rsum in *. cbn [fold_right]. lra.
Qed.

(** Gibbs' inequality for a group: the mean divergence of the rows from
    their marginal is not negative. *)
Lemma mean_divergence_nonneg c (_split : T2) :
  positive_rows c _split -> 0 <= mean_divergence _split.
Proof.
  intros Hrows. unfold mean_divergence.
  destruct (column_means_shape c _split Hrows) as (Hlen & Hpos & Hsum).
  destruct Hrows as [Hne Hall].
  pose proof (rsum_kl_rows c _split (column_means _split) Hlen Hpos Hall) as Hkl.
  pose proof (INR_length_pos _split Hne) as Hm.
  rewrite Hsum in Hkl.
  replace (INR (length _split) * (rsum (map rsum _split) / INR (length _split)))
    with (rsum (map rsum _split)) in Hkl by (field; lra).
  apply Rmult_le_pos; [lra | apply Rlt_le, Rinv_0_lt_compat, Hm].
Qed.

Lemma exp_at_least_one t : 0 <= t -> 1 <= exp t.
Proof.
  intros [Hlt | Heq].
  - left. rewrite <- exp_0. apply exp_increasing. exact Hlt.
  - right. rewrite <- Heq. symmetry. apply exp_0.
Qed.

Lemma numbers_map_Some (l : list R) : numbers (map Some l) = Some l.
Proof.
  induction l as [|x l IH]; [reflexivity|]. cbn [map numbers]. rewrite IH.
  reflexivity.
Qed.

Lemma np_mean_numbers (l : list R) :
  l <> [] -> np_mean (map Some l) = Some (rsum l / INR (length l)).
Proof.
  intros Hne. unfold np_mean. rewrite numbers_map_Some.
  destruct l; [contradiction | reflexivity].
Qed.

Lemma np_log_positive x : 0 < x -> np_log x = Some (ln x).
Proof. intros Hx. unfold np_log. destruct (Rlt_dec 0 x); [reflexivity | contradiction]. Qed.

Lemma np_log_not_positive x : x <= 0 -> np_log x = None.
Proof. intros Hx. unfold np_log. destruct (Rlt_dec 0 x); [lra | reflexivity]. Qed.

(** On positive predictions every term of the divergence is a number. *)
Lemma kl_row_numbers (row marginal : T1) :
  Forall (fun p => 0 < p) row -> Forall (fun m => 0 < m) marginal ->
  zipWith (fun p m =>
             match np_log p, np_log m with
             | Some log_p, Some log_m => Some (p * (log_p - log_m))
             | _, _ => None
             end) row marginal
  = map Some (zipWith (fun p m => p * (ln p - ln m)) row marginal).
Proof.
  intros Hrow. revert marginal.
  induction Hrow as [|p row Hp _ IH]; intros marginal Hm; [reflexivity|].
  destruct Hm as [|m marginal Hm Hrest]; [reflexivity|].
  cbn [zipWith map]. rewrite (np_log_positive p Hp), (np_log_positive m Hm).
  rewrite IH by exact Hrest. reflexivity.
Qed.

(** The score of a group of positive predictions is a number: the
    exponential of the mean divergence. *)
Lemma split_score_positive c (_split : T2) :
  positive_rows c _split ->
  split_score _split = Some (exp (mean_divergence _split)).
Proof.
  intros Hrows.
  destruct (column_means_shape c _split Hrows) as (_ & Hpos & _).
  destruct Hrows as [Hne Hall].
  unfold split_score, mean_divergence. cbv zeta.
  set (marginal := column_means _split) in *.
  assert (Hsums :
            map np_sum
                (map (fun row =>
                        zipWith (fun p m =>
                                   match np_log p, np_log m with
                                   | Some log_p, Some log_m =>
                                       Some (p * (log_p - log_m))
                                   | _, _ => None
                                   end) row marginal) _split)
            = map Some
                  (map rsum
                       (map (fun row =>
                               zipWith (fun p m => p * (ln p - ln m)) row
                                       marginal) _split))).
  { rewrite !map_map. apply map_ext_in. intros row Hin.
    rewrite Forall_forall in Hall. destruct (Hall row Hin) as [_ Hrow].
    rewrite (kl_row_numbers row marginal Hrow Hpos).
    unfold np_sum. rewrite numbers_map_Some. reflexivity. }
  rewrite Hsums, np_mean_numbers.
  - cbn [option_map]. rewrite !length_map. reflexivity.
  - destruct _split; [contradiction | discriminate].
Qed.

(** X20.  For a group of at least one prediction row, all rows of one width
    and with strictly positive entries, the group's score is a number, not
    nan; it is exp(mean KL) and at least 1, and the marginal it is measured
    against has that width and strictly positive entries. *)
Theorem inception_score_is_at_least_one (c : nat) (_split : T2) :
  positive_rows c _split ->
  exists score,
    split_score _split = Some score
    /\ 1 <= score
    /\ length (column_means _split) = c
    /\ Forall (fun m => 0 < m) (column_means _split).
Proof.
  intros Hrows.
  destruct (column_means_shape c _split Hrows) as (Hlen & Hpos & _).
  exists (exp (mean_divergence _split)).
  split; [exact (split_score_positive c _split Hrows)|].
  split; [|split; assumption].
  apply exp_at_least_one, (mean_divergence_nonneg c). exact Hrows.
Qed.

Lemma inception_score_is_at_least_one_witness :
  exists score,
    split_score [[/ 2; / 2]; [/ 4; 3 / 4]] = Some score
    /\ 1 <= score
    /\ length (column_means [[/ 2; / 2]; [/ 4; 3 / 4]]) = 2%nat
    /\ Forall (fun m => 0 < m) (column_means [[/ 2; / 2]; [/ 4; 3 / 4]]).
Proof.
  apply (inception_score_is_at_least_one 2 [[/ 2; / 2]; [/ 4; 3 / 4]]).
  split; [discriminate|].
  repeat constructor; lra.
Defined.

(** ** The best score *)

Lemma py_slice_inside {A} (a b : Z) (l : list A) :
  (0 <= a <= b)%Z -> (b <= Z.of_nat (length l))%Z ->
  py_slice a b l = firstn (Z.to_nat (b - a)) (skipn (Z.to_nat a) l).
Proof.
  intros Hab Hb. unfold py_slice. cbv zeta.
  destruct (Z.ltb_spec b 0) as [Hneg | _]; [lia|].
  destruct (Z.ltb_spec a 0) as [Hneg | _]; [lia|].
  rewrite !Z.min_l by lia. reflexivity.
Qed.

Lemma Forall_skipn_keeps {A} (P : A -> Prop) n (l : list A) :
  Forall P l -> Forall P (skipn n l).
Proof.
  intros H. revert n. induction H as [|a l Ha Hl IH]; intros [|n]; simpl;
    auto.
Qed.

(** A group cut out of positive predictions is a group of positive
    rows. *)
Lemma positive_group c (a b : Z) (_preds : T2) :
  (0 <= a < b)%Z -> (b <= Z.of_nat (length _preds))%Z ->
  Forall (fun row => length row = c /\ Forall (fun p => 0 < p) row) _preds ->
  positive_rows c (py_slice a b _preds).
Proof.
  intros Hab Hb Hall. rewrite py_slice_inside by lia. split.
  - intros Hnil. apply (f_equal (@length _)) in Hnil.
    rewrite length_firstn, length_skipn in Hnil. simpl in Hnil. lia.
  - apply Forall_firstn_keeps, Forall_skipn_keeps. exact Hall.
Qed.

Lemma mean_at_least c (l : list R) :
  Forall (fun v => c <= v) l -> l <> [] -> c <= rsum l / INR (length l).
Proof.
  intros Hall Hne.
  pose proof (INR_length_pos l Hne) as Hpos.
  assert (Hsum : c * INR (length l) <= rsum l).
  { clear Hne Hpos. induction Hall as [|v l Hv _ IH].
    - unfold rsum. simpl. lra.
    - unfold rsum in *. cbn [fold_right length]. rewrite S_INR. lra. }
  apply Rmult_le_reg_r with (r := INR (length l)); [exact Hpos|].
  unfold Rdiv. rewrite Rmult_assoc, Rinv_l by lra. lra.
Qed.

(** The scores of the groups of a checkpoint with positive predictions:
    numbers, each at least 1. *)
Lemma incept_scores_at_least_one (incept_n incept_k : Z) (c : nat) (_preds : T2) :
  (0 < incept_k <= incept_n)%Z ->
  (incept_n <= Z.of_nat (length _preds))%Z ->
  Forall (fun row => length row = c /\ Forall (fun p => 0 < p) row) _preds ->
  exists scores,
    incept_scores incept_n incept_k _preds = Some (map Some scores)
    /\ length scores = Z.to_nat incept_k
    /\ Forall (fun s => 1 <= s) scores.
Proof.
  intros Hk Hn Hall. unfold incept_scores. cbv zeta.
  destruct (Z.eqb_spec incept_k 0) as [H0 | _]; [lia|].
  set (group := fun i : nat =>
                  py_slice (Z.of_nat i * (incept_n / incept_k))
                           ((Z.of_nat i + 1) * (incept_n / incept_k)) _preds).
  assert (Hgroup : forall i, In i (seq 0 (Z.to_nat incept_k)) ->
                             positive_rows c (group i)).
  { intros i Hi. apply in_seq in Hi.
    assert (Hs : (1 <= incept_n / incept_k)%Z).
    { apply Z.div_le_lower_bound; lia. }
    assert (Hks : (incept_k * (incept_n / incept_k) <= incept_n)%Z).
    { apply Z.mul_div_le. lia. }
    apply positive_group; [nia | nia | exact Hall]. }
  exists (map (fun i => exp (mean_divergence (group i)))
              (seq 0 (Z.to_nat incept_k))).
  split; [|split].
  - f_equal. rewrite map_map. apply map_ext_in. intros i Hi.
    apply (split_score_positive c), Hgroup, Hi.
  - rewrite length_map, length_seq. reflexivity.
  - apply Forall_map, Forall_forall. intros i Hi.
    apply exp_at_least_one, (mean_divergence_nonneg c), Hgroup, Hi.
Qed.

(** X22.  With 0 < incept_k <= incept_n and at least incept_n prediction
    rows, all of one width and strictly positive, the first checkpoint the
    loop sees is scored, its mean score is at least 1 and so beats the
    initial best score 0: it is saved and becomes the best score.  Polling
    again while the latest checkpoint is the same changes nothing. *)
Theorem first_checkpoint_is_saved_as_best (incept_n incept_k : Z) (c : nat)
        (fp : string) (_preds : T2) :
  (0 < incept_k <= incept_n)%Z ->
  (incept_n <= Z.of_nat (length _preds))%Z ->
  Forall (fun row => length row = c /\ Forall (fun p => 0 < p) row) _preds ->
  exists mean,
    1 <= mean
    /\ incept_poll incept_n incept_k (Some fp) _preds incept_start
       = Some {| ckpt_fp := Some fp; _best_score := mean; best_saved := [mean] |}
    /\ forall later_preds,
        incept_poll incept_n incept_k (Some fp) later_preds
                    {| ckpt_fp := Some fp; _best_score := mean;
                       best_saved := [mean] |}
        = Some {| ckpt_fp := Some fp; _best_score := mean;
                  best_saved := [mean] |}.
Proof.
  intros Hk Hn Hall.
  destruct (incept_scores_at_least_one incept_n incept_k c _preds Hk Hn Hall)
    as (scores & Hscores & Hlen & Hone).
  assert (Hne : scores <> []).
  { intros Hnil. rewrite Hnil in Hlen. simpl in Hlen. lia. }
  pose proof (mean_at_least 1 scores Hone Hne) as Hmean.
  exists (rsum scores / INR (length scores)). split; [exact Hmean|]. split.
  - unfold incept_poll, incept_start. cbn [ckpt_fp _best_score best_saved].
    rewrite Hscores, (np_mean_numbers scores Hne).
    destruct (Rgt_dec (rsum scores / INR (length scores)) 0) as [_ | Hle];
      [reflexivity | lra].
  - intros later_preds. unfold incept_poll. cbn [ckpt_fp].
    rewrite String.eqb_refl. reflexivity.
Qed.

Lemma first_checkpoint_is_saved_as_best_witness :
  exists mean,
    1 <= mean
    /\ incept_poll 2 1 (Some "model.ckpt-1") [[/ 2; / 2]; [/ 4; 3 / 4]]
                   incept_start
       = Some {| ckpt_fp := Some "model.ckpt-1"; _best_score := mean;
                 best_saved := [mean] |}
    /\ forall later_preds,
        incept_poll 2 1 (Some "model.ckpt-1") later_preds
                    {| ckpt_fp := Some "model.ckpt-1"; _best_score := mean;
                       best_saved := [mean] |}
        = Some {| ckpt_fp := Some "model.ckpt-1"; _best_score := mean;
                  best_saved := [mean] |}.
Proof.
  apply (first_checkpoint_is_saved_as_best 2 1 2 "model.ckpt-1"
           [[/ 2; / 2]; [/ 4; 3 / 4]]).
  - lia.
  - simpl. lia.
  - repeat constructor; lra.
Defined.

(** ** A score that is nan *)

Lemma numbers_with_nan (v : list npfloat) : In None v -> numbers v = None.
Proof.
  induction v as [|[x|] v IH]; intros Hin; [contradiction| |reflexivity].
  destruct Hin as [Habs | Hin]; [discriminate|].
  cbn [numbers]. rewrite (IH Hin). reflexivity.
Qed.

Lemma np_mean_with_nan (v : list npfloat) : In None v -> np_mean v = None.
Proof. intros Hin. unfold np_mean. rewrite (numbers_with_nan v Hin). reflexivity. Qed.

(** A prediction that is not positive makes the divergence of its row
    nan. *)
Lemma kl_row_with_nan (row marginal : T1) :
  length row = length marginal ->
  Exists (fun p => p <= 0) row ->
  In None (zipWith (fun p m =>
                      match np_log p, np_log m with
                      | Some log_p, Some log_m => Some (p * (log_p - log_m))
                      | _, _ => None
                      end) row marginal).
Proof.
  intros Hlen Hex. revert marginal Hlen.
  induction Hex as [p row Hp | p row _ IH]; intros [|m marginal] Hlen;
    simpl in Hlen; try discriminate; cbn [zipWith].
  - left. rewrite (np_log_not_positive p Hp). reflexivity.
  - right. apply IH. congruence.
Qed.

Lemma column_means_length c (rows : T2) :
  rows <> [] -> Forall (fun row => length row = c) rows ->
  length (column_means rows) = c.
Proof.
  intros Hne Hall. unfold column_means. rewrite length_map.
  assert (Hw : length (hd [] rows) = c).
  { destruct rows as [|row0 rows]; [contradiction|]. exact (Forall_inv Hall). }
  rewrite Hw. clear Hne Hw. induction Hall as [|row rest Hrow _ IH].
  - apply repeat_length.
  - cbn [fold_right]. unfold vadd at 1.
    rewrite zipWith_length; [exact Hrow | congruence].
Qed.

(** The score of a group that holds a prediction of 0 or less is nan. *)
Lemma split_score_with_nan c (_split : T2) :
  Forall (fun row => length row = c) _split ->
  Exists (Exists (fun p => p <= 0)) _split ->
  split_score _split = None.
Proof.
  intros Hall Hex. unfold split_score. cbv zeta.
  assert (Hne : _split <> []) by (destruct Hex; discriminate).
  pose proof (column_means_length c _split Hne Hall) as Hlen.
  rewrite np_mean_with_nan; [reflexivity|].
  rewrite map_map. apply in_map_iff.
  apply Exists_exists in Hex. destruct Hex as (row & Hin & Hrow).
  exists row. split; [|exact Hin].
  unfold np_sum. rewrite numbers_with_nan; [reflexivity|].
  apply kl_row_with_nan; [|exact Hrow].
  rewrite Forall_forall in Hall. rewrite (Hall row Hin), Hlen. reflexivity.
Qed.

(** X24.  When a group of the predictions holds an entry that is 0 or less
    - a softmax output that has underflowed to 0 is one - the score of that
    group is nan, the mean score is nan, and the comparison with the best
    score is false: the checkpoint is recorded as seen, but nothing is saved
    and the best score stays as it was, whatever it was. *)
Theorem nan_score_is_never_saved (incept_n incept_k : Z) (c : nat)
        (fp : string) (_preds : T2) (st : InceptState) (i : nat) :
  ckpt_fp st <> Some fp ->
  (0 < incept_k)%Z -> (i < Z.to_nat incept_k)%nat ->
  Forall (fun row => length row = c) _preds ->
  Exists (Exists (fun p => p <= 0))
         (py_slice (Z.of_nat i * (incept_n / incept_k))
                   ((Z.of_nat i + 1) * (incept_n / incept_k)) _preds) ->
  incept_poll incept_n incept_k (Some fp) _preds st
  = Some {| ckpt_fp := Some fp; _best_score := _best_score st;
            best_saved := best_saved st |}.
Proof.
  intros Hnew Hk Hi Hall Hex. unfold incept_poll.
  assert (Hcmp : match ckpt_fp st with
                 | Some b => String.eqb fp b
                 | None => false
                 end = false).
  { destruct (ckpt_fp st) as [b|]; [|reflexivity].
    apply String.eqb_neq. congruence. }
  rewrite Hcmp. unfold incept_scores. cbv zeta.
  destruct (Z.eqb_spec incept_k 0) as [H0 | _]; [lia|].
  rewrite np_mean_with_nan; [reflexivity|].
  apply in_map_iff. exists i. split; [|apply in_seq; lia].
  apply (split_score_with_nan c); [|exact Hex].
  unfold py_slice. cbv zeta.
  apply Forall_firstn_keeps, Forall_skipn_keeps. exact Hall.
Qed.

Lemma nan_score_is_never_saved_witness :
  incept_poll 2 1 (Some "model.ckpt-2") [[1; 0]; [/ 4; 3 / 4]]
              {| ckpt_fp := Some "model.ckpt-1"; _best_score := 1;
                 best_saved := [1] |}
  = Some {| ckpt_fp := Some "model.ckpt-2"; _best_score := 1;
            best_saved := [1] |}.
Proof.
  apply (nan_score_is_never_saved 2 1 2 "model.ckpt-2"
           [[1; 0]; [/ 4; 3 / 4]]
           {| ckpt_fp := Some "model.ckpt-1"; _best_score := 1;
              best_saved := [1] |} 0).
  - discriminate.
  - lia.
  - simpl. lia.
  - repeat constructor.
  - left. right. left. lra.
Defined.
